(** * A verified model of [scripts/openai_stream_benchmark.py]

    The script probes a streaming chat-completion endpoint: it resolves
    its settings from the environment, issues the planned requests one
    after the other, decodes each server-sent-event body, summarises the
    outcomes and rewrites a delimited block at the tail of a document.

    The embedding is shallow.  Python [str] values are lists of code
    points, [bytes] values are lists of bytes, Python [int]s are [Z],
    the readings of [time.perf_counter] are rationals.  Exceptions are an
    inductive type and every function that can raise returns a sum.  The
    outside world (clock, HTTP transport, environment, files) is an
    explicit record threaded through the run.

    Library behaviour the script relies on is modelled alongside:
    [bytes.decode("utf-8", errors="replace")], [str.strip],
    [json.loads], the constructor of [urllib.request.Request] and the
    one regular expression of the script.  The renderer of the report
    takes the formatting of floats and the two time stamps, which come
    from the wall clock, as parameters.  Three interpreter limits are
    outside the model: the recursion limit, the limit on the number of
    digits of an [int] literal, and a standard output that refuses some
    text (printing always succeeds here).  Floats are rationals, so the
    values [inf] and [nan] are outside the model too.  Files are text
    files in UTF-8 on a host whose line separator is the line feed:
    reading turns the other line ends into line feeds, writing writes
    the text as it is, and both always succeed.  Only subclasses of
    [Exception] are modelled. *)

From Stdlib Require Import ZArith NArith QArith List String Ascii Bool Lia Lqa.
From Stdlib Require Strings.Byte.
From stdpp Require Import base option list gmap.
Import ListNotations.

Close Scope Q_scope.
Local Open Scope Z_scope.

(** ** Text: bytes, code points, literals *)

Module Text.

Definition str := list N.
Definition bytes := list Byte.byte.

Definition str_eqb (a b : str) : bool := bool_decide (a = b).

(** U+FFFD, the replacement character of [errors="replace"]. *)
Definition REPLACEMENT : N := 65533%N.

Definition is_cont (b : N) : bool := ((128 <=? b) && (b <=? 191))%N.

(** [bytes.decode("utf-8", errors="replace")]: every ill-formed start
    byte, every sequence cut short by a byte that cannot continue it, and
    a sequence cut short by the end of the input, gives one U+FFFD; the
    decoder resumes at the offending byte. *)
Fixpoint utf8_decode (bs : list N) : str :=
  match bs with
  | [] => []
  | c :: r1 =>
    if (c <? 128)%N then c :: utf8_decode r1
    else if (c <? 194)%N then REPLACEMENT :: utf8_decode r1
    else if (c <? 224)%N then
      match r1 with
      | [] => [REPLACEMENT]
      | c2 :: r2 =>
        if is_cont c2
        then ((c - 192) * 64 + (c2 - 128))%N :: utf8_decode r2
        else REPLACEMENT :: utf8_decode r1
      end
    else if (c <? 240)%N then
      match r1 with
      | [] => [REPLACEMENT]
      | c2 :: r2 =>
        if negb (is_cont c2)
           || (if (c2 <? 160)%N then (c =? 224)%N else (c =? 237)%N)
        then REPLACEMENT :: utf8_decode r1
        else
          match r2 with
          | [] => [REPLACEMENT]
          | c3 :: r3 =>
            if is_cont c3
            then ((c - 224) * 4096 + (c2 - 128) * 64 + (c3 - 128))%N
                 :: utf8_decode r3
            else REPLACEMENT :: utf8_decode r2
          end
      end
    else if (c <? 245)%N then
      match r1 with
      | [] => [REPLACEMENT]
      | c2 :: r2 =>
        if negb (is_cont c2)
           || (if (c2 <? 144)%N then (c =? 240)%N else (c =? 244)%N)
        then REPLACEMENT :: utf8_decode r1
        else
          match r2 with
          | [] => [REPLACEMENT]
          | c3 :: r3 =>
            if negb (is_cont c3) then REPLACEMENT :: utf8_decode r2
            else
              match r3 with
              | [] => [REPLACEMENT]
              | c4 :: r4 =>
                if is_cont c4
                then ((c - 240) * 262144 + (c2 - 128) * 4096
                      + (c3 - 128) * 64 + (c4 - 128))%N :: utf8_decode r4
                else REPLACEMENT :: utf8_decode r3
              end
          end
      end
    else REPLACEMENT :: utf8_decode r1
  end.

Definition decode_utf8_replace (b : bytes) : str :=
  utf8_decode (map Byte.to_N b).

(** Literals of the source, written as Rocq strings (UTF-8 bytes). *)
Definition b_ (s : string) : bytes := list_byte_of_string s.
Definition u_ (s : string) : str := decode_utf8_replace (b_ s).

(** Test data with double quotes is written with apostrophes: [q_] turns
    every apostrophe into a double quote. *)
Definition q_ (s : string) : bytes :=
  map (fun b => if Byte.eqb b Byte.x27 then Byte.x22 else b) (b_ s).
Definition uq_ (s : string) : str := decode_utf8_replace (q_ s).

Definition LF : N := 10%N.
Definition CR : N := 13%N.

(** [str.isspace] on one code point. *)
Definition py_isspace (c : N) : bool :=
  (((9 <=? c) && (c <=? 13)) || ((28 <=? c) && (c <=? 32))
   || (c =? 133) || (c =? 160) || (c =? 5760)
   || ((8192 <=? c) && (c <=? 8202))
   || (c =? 8232) || (c =? 8233) || (c =? 8239) || (c =? 8287)
   || (c =? 12288))%N.

Fixpoint lstrip (s : str) : str :=
  match s with
  | c :: r => if py_isspace c then lstrip r else s
  | [] => []
  end.

Definition rstrip (s : str) : str := rev (lstrip (rev s)).

Definition strip (s : str) : str := rstrip (lstrip s).

Fixpoint startswith (s p : str) {struct p} : bool :=
  match p, s with
  | [], _ => true
  | _ :: _, [] => false
  | a :: p', c :: s' => (a =? c)%N && startswith s' p'
  end.

(** ["sep".join(parts)]. *)
Fixpoint join (sep : str) (parts : list str) : str :=
  match parts with
  | [] => []
  | [p] => p
  | p :: ps => p ++ sep ++ join sep ps
  end.

(** [str.replace] of one character by a string. *)
Definition replace_char (c : N) (by_ : str) (s : str) : str :=
  concat (map (fun x => if (x =? c)%N then by_ else [x]) s).

(** [str(n)] for an [int]. *)
Definition str_of_digit (d : N) : N := (48 + d)%N.

Fixpoint digits_of_pos_fuel (fuel : nat) (n : N) (acc : str) : str :=
  match fuel with
  | O => acc
  | S f =>
    let acc' := str_of_digit (n mod 10) :: acc in
    if (n / 10 =? 0)%N then acc' else digits_of_pos_fuel f (n / 10) acc'
  end.

Definition str_of_N (n : N) : str := digits_of_pos_fuel (S (N.to_nat (N.log2 n))) n [].

Definition str_of_int (z : Z) : str :=
  if z <? 0 then 45%N :: str_of_N (Z.to_N (- z)) else str_of_N (Z.to_N z).

Definition py_len (s : str) : Z := Z.of_nat (length s).

End Text.

Import Text.

(** ** JSON values and [json.loads] *)

Module Json.

(** A Python [float] read from a literal: [m * 10^e] with its sign, or one
    of the three constants the [json] module accepts. *)
Inductive pyfloat :=
| FNan
| FInf (neg : bool)
| FDec (neg : bool) (m : N) (e : Z).

(** The values [json.loads] builds: [None], [bool], [int], [float],
    [str], [list] and [dict].  A [dict] keeps its members in the order
    they were read; a later member with the same key wins. *)
#[warnings="-register-all"]
Inductive json :=
| JNull
| JBool (b : bool)
| JInt (z : Z)
| JFloat (f : pyfloat)
| JStr (s : str)
| JArr (items : list json)
| JObj (members : list (str * json)).

(** A decimal literal is the float [0.0] when it is at most [2^-1075],
    half of the least subnormal number (round to nearest, ties to even). *)
Definition float_is_zero (f : pyfloat) : bool :=
  match f with
  | FDec _ m e =>
    (m =? 0)%N || (if 0 <=? e then false else Z.of_N m * 2 ^ 1075 <=? 10 ^ (- e))
  | _ => false
  end.

(** [bool(v)], the test behind [not v]. *)
Definition truthy (v : json) : bool :=
  match v with
  | JNull => false
  | JBool b => b
  | JInt z => negb (z =? 0)
  | JFloat f => negb (float_is_zero f)
  | JStr s => negb (bool_decide (s = []))
  | JArr l => match l with [] => false | _ => true end
  | JObj kvs => match kvs with [] => false | _ => true end
  end.

(** [type(v).__name__]. *)
Definition type_name (v : json) : str :=
  match v with
  | JNull => u_ "NoneType"
  | JBool _ => u_ "bool"
  | JInt _ => u_ "int"
  | JFloat _ => u_ "float"
  | JStr _ => u_ "str"
  | JArr _ => u_ "list"
  | JObj _ => u_ "dict"
  end.

(** Lookup in a [dict] built from members in reading order. *)
Fixpoint dict_get (k : str) (kvs : list (str * json)) : option json :=
  match kvs with
  | [] => None
  | (k', v) :: r =>
    match dict_get k r with
    | Some v' => Some v'
    | None => if str_eqb k k' then Some v else None
    end
  end.

Definition is_ws (c : N) : bool :=
  ((c =? 32) || (c =? 9) || (c =? 10) || (c =? 13))%N.

Fixpoint skip_ws (s : str) : str :=
  match s with
  | c :: r => if is_ws c then skip_ws r else s
  | [] => []
  end.

Definition is_digit (c : N) : bool := ((48 <=? c) && (c <=? 57))%N.

Definition hex_val (c : N) : option N :=
  if is_digit c then Some (c - 48)%N
  else if ((97 <=? c) && (c <=? 102))%N then Some (c - 87)%N
  else if ((65 <=? c) && (c <=? 70))%N then Some (c - 55)%N
  else None.

Definition hex4 (a b c d : N) : option N :=
  match hex_val a, hex_val b, hex_val c, hex_val d with
  | Some x, Some y, Some z, Some w => Some (((x * 16 + y) * 16 + z) * 16 + w)%N
  | _, _, _, _ => None
  end.

Definition simple_escape (c : N) : option N :=
  if (c =? 34)%N then Some 34%N          (* quote *)
  else if (c =? 92)%N then Some 92%N     (* backslash *)
  else if (c =? 47)%N then Some 47%N     (* slash *)
  else if (c =? 98)%N then Some 8%N      (* b: backspace *)
  else if (c =? 102)%N then Some 12%N    (* f: form feed *)
  else if (c =? 110)%N then Some 10%N    (* n: line feed *)
  else if (c =? 114)%N then Some 13%N    (* r: carriage return *)
  else if (c =? 116)%N then Some 9%N     (* t: tab *)
  else None.

Definition is_high_surrogate (c : N) : bool := ((55296 <=? c) && (c <=? 56319))%N.
Definition is_low_surrogate (c : N) : bool := ((56320 <=? c) && (c <=? 57343))%N.

(** The body of a string literal, after its opening quote: the text and
    what follows the closing quote.  Control characters are refused
    (strict mode); a high surrogate escape directly followed by a low one
    is joined into one code point. *)
Fixpoint scan_string (s : str) (acc : str) : option (str * str) :=
  match s with
  | [] => None
  | c :: r =>
    if (c =? 34)%N then Some (rev acc, r)
    else if (c <? 32)%N then None
    else if negb (c =? 92)%N then scan_string r (c :: acc)
    else
      match r with
      | [] => None
      | e :: r1 =>
        if negb (e =? 117)%N then
          match simple_escape e with
          | Some ch => scan_string r1 (ch :: acc)
          | None => None
          end
        else
          match r1 with
          | h1 :: h2 :: h3 :: h4 :: r5 =>
            match hex4 h1 h2 h3 h4 with
            | None => None
            | Some uni =>
              if is_high_surrogate uni then
                match r5 with
                | b1 :: b2 :: k1 :: k2 :: k3 :: k4 :: r11 =>
                  if ((b1 =? 92) && (b2 =? 117))%N then
                    match hex4 k1 k2 k3 k4 with
                    | None => None
                    | Some uni2 =>
                      if is_low_surrogate uni2
                      then scan_string r11
                             ((65536 + ((uni - 55296) * 1024 + (uni2 - 56320)))%N :: acc)
                      else scan_string r5 (uni :: acc)
                    end
                  else scan_string r5 (uni :: acc)
                | _ => scan_string r5 (uni :: acc)
                end
              else scan_string r5 (uni :: acc)
            end
          | _ => None
          end
      end
  end.

Fixpoint take_digits (s : str) : list N * str :=
  match s with
  | c :: r =>
    if is_digit c then let '(ds, rest) := take_digits r in ((c - 48)%N :: ds, rest)
    else ([], s)
  | [] => ([], [])
  end.

Definition digits_value (ds : list N) : N :=
  fold_left (fun acc d => (acc * 10 + d)%N) ds 0%N.

(** A number literal: an optional minus sign; an integer part that is
    either the single digit 0 or a non-zero digit followed by digits; an
    optional fraction (a dot and at least one digit); an optional
    exponent (e or E, an optional sign, at least one digit).  It is an
    [int] when it has neither fraction nor exponent, a [float]
    otherwise. *)
Definition scan_number (s : str) : option (json * str) :=
  let '(neg, s1) :=
    match s with
    | c :: r => if (c =? 45)%N then (true, r) else (false, s)
    | [] => (false, s)
    end in
  let int_part :=
    match s1 with
    | c :: r =>
      if (c =? 48)%N then Some ([0%N], r)
      else if is_digit c then Some (take_digits s1)
      else None
    | [] => None
    end in
  match int_part with
  | None => None
  | Some (ids, s2) =>
    let '(fds, s3, has_frac) :=
      match s2 with
      | c :: r =>
        if (c =? 46)%N then
          match take_digits r with
          | ([], _) => ([], s2, false)
          | (ds, rest) => (ds, rest, true)
          end
        else ([], s2, false)
      | [] => ([], s2, false)
      end in
    let '(ex, s4, has_exp) :=
      match s3 with
      | c :: r =>
        if ((c =? 101) || (c =? 69))%N then
          let '(eneg, r') :=
            match r with
            | g :: r2 =>
              if (g =? 45)%N then (true, r2)
              else if (g =? 43)%N then (false, r2)
              else (false, r)
            | [] => (false, r)
            end in
          match take_digits r' with
          | ([], _) => (0, s3, false)
          | (ds, rest) =>
            ((if eneg then - Z.of_N (digits_value ds) else Z.of_N (digits_value ds)),
             rest, true)
          end
        else (0, s3, false)
      | [] => (0, s3, false)
      end in
    if has_frac || has_exp
    then Some (JFloat (FDec neg (digits_value (ids ++ fds)) (ex - Z.of_nat (length fds))), s4)
    else Some (JInt (if neg then - Z.of_N (digits_value ids) else Z.of_N (digits_value ids)), s4)
  end.

Definition strip_prefix (p s : str) : option str :=
  if startswith s p then Some (drop (length p) s) else None.

Definition LIT_null : str := Eval vm_compute in u_ "null".
Definition LIT_true : str := Eval vm_compute in u_ "true".
Definition LIT_false : str := Eval vm_compute in u_ "false".
Definition LIT_NaN : str := Eval vm_compute in u_ "NaN".
Definition LIT_Infinity : str := Eval vm_compute in u_ "Infinity".
Definition LIT_NegInfinity : str := Eval vm_compute in u_ "-Infinity".

(** One value, given the parsers of the items of an array and of the
    members of an object. *)
Definition value_body
    (items : str -> option (list json * str))
    (members : str -> option (list (str * json) * str))
    (s : str) : option (json * str) :=
  match s with
  | [] => None
  | c :: r =>
    if (c =? 34)%N then
      match scan_string r [] with
      | Some (t, rest) => Some (JStr t, rest)
      | None => None
      end
    else if (c =? 123)%N then
      match skip_ws r with
      | c' :: r' =>
        if (c' =? 125)%N then Some (JObj [], r')
        else
          match members (c' :: r') with
          | Some (kvs, rest) => Some (JObj kvs, rest)
          | None => None
          end
      | [] => None
      end
    else if (c =? 91)%N then
      match skip_ws r with
      | c' :: r' =>
        if (c' =? 93)%N then Some (JArr [], r')
        else
          match items (c' :: r') with
          | Some (vs, rest) => Some (JArr vs, rest)
          | None => None
          end
      | [] => None
      end
    else
      match strip_prefix LIT_null s with
      | Some rest => Some (JNull, rest)
      | None =>
      match strip_prefix LIT_true s with
      | Some rest => Some (JBool true, rest)
      | None =>
      match strip_prefix LIT_false s with
      | Some rest => Some (JBool false, rest)
      | None =>
      match scan_number s with
      | Some res => Some res
      | None =>
      match strip_prefix LIT_NaN s with
      | Some rest => Some (JFloat FNan, rest)
      | None =>
      match strip_prefix LIT_Infinity s with
      | Some rest => Some (JFloat (FInf false), rest)
      | None =>
      match strip_prefix LIT_NegInfinity s with
      | Some rest => Some (JFloat (FInf true), rest)
      | None => None
      end end end end end end end
  end.

(** The items of a non-empty array, from the first item to the closing
    bracket. *)
Definition items_body
    (value : str -> option (json * str))
    (items : str -> option (list json * str))
    (s : str) : option (list json * str) :=
  match value s with
  | None => None
  | Some (v, rest) =>
    match skip_ws rest with
    | c :: r =>
      if (c =? 93)%N then Some ([v], r)
      else if (c =? 44)%N then
        match items (skip_ws r) with
        | Some (vs, rest') => Some (v :: vs, rest')
        | None => None
        end
      else None
    | [] => None
    end
  end.

(** The members of a non-empty object, from the first key to the closing
    brace. *)
Definition members_body
    (value : str -> option (json * str))
    (members : str -> option (list (str * json) * str))
    (s : str) : option (list (str * json) * str) :=
  match s with
  | c :: r =>
    if negb (c =? 34)%N then None
    else
      match scan_string r [] with
      | None => None
      | Some (k, rest) =>
        match skip_ws rest with
        | c1 :: r1 =>
          if negb (c1 =? 58)%N then None
          else
            match value (skip_ws r1) with
            | None => None
            | Some (v, rest2) =>
              match skip_ws rest2 with
              | c2 :: r2 =>
                if (c2 =? 125)%N then Some ([(k, v)], r2)
                else if (c2 =? 44)%N then
                  match members (skip_ws r2) with
                  | Some (kvs, rest3) => Some ((k, v) :: kvs, rest3)
                  | None => None
                  end
                else None
              | [] => None
              end
            end
        | [] => None
        end
      end
  | [] => None
  end.

(** The recursive descent of the decoder.  [fuel] bounds the depth of the
    calls; [json_loads] supplies more than any input can use (see
    [parse_value_fuel_enough]). *)
Fixpoint parse_value (fuel : nat) (s : str) {struct fuel} : option (json * str) :=
  match fuel with
  | O => None
  | S f => value_body (parse_items f) (parse_members f) s
  end
with parse_items (fuel : nat) (s : str) {struct fuel} : option (list json * str) :=
  match fuel with
  | O => None
  | S f => items_body (parse_value f) (parse_items f) s
  end
with parse_members (fuel : nat) (s : str) {struct fuel}
  : option (list (str * json) * str) :=
  match fuel with
  | O => None
  | S f => members_body (parse_value f) (parse_members f) s
  end.

(** [json.loads(s)]: [None] stands for [json.JSONDecodeError].  A leading
    byte-order mark is refused; white space may surround the value and
    nothing else may follow it. *)
Definition json_loads (s : str) : option json :=
  if startswith s [65279%N] then None
  else
    match parse_value (2 * length s + 2) (skip_ws s) with
    | Some (v, rest) =>
      match skip_ws rest with
      | [] => Some v
      | _ :: _ => None
      end
    | None => None
    end.

End Json.

Import Json.

(** ** Exceptions *)

(** The exception classes the script tells apart, each with what
    [str(exc)] is built from.  [HTTPError] carries the outcome of reading
    its body, which can fail in turn.  [Timeout] stands for
    [socket.timeout] and [TimeoutError]; [OtherError] for every other
    subclass of [Exception] (connection resets, incomplete reads, ...). *)
#[warnings="-register-all"]
Inductive exn :=
| HTTPError (code : Z) (reason : str) (fp_read : exn + bytes)
| URLError (reason : str)
| Timeout (msg : str)
| ValueError (msg : str)
| RuntimeError (msg : str)
| AttributeError (msg : str)
| TypeError (msg : str)
| KeyError (key_repr : str)
| IndexError (msg : str)
| OtherError (cls : str) (msg : str).

(** [str(exc)]. *)
Definition exn_str (e : exn) : str :=
  match e with
  | HTTPError code reason _ => u_ "HTTP Error " ++ str_of_int code ++ u_ ": " ++ reason
  | URLError reason => u_ "<urlopen error " ++ reason ++ u_ ">"
  | Timeout msg | ValueError msg | RuntimeError msg | AttributeError msg
  | TypeError msg | IndexError msg | OtherError _ msg => msg
  | KeyError key_repr => key_repr
  end.

(** [isinstance(exc, ValueError)], the test of the first handler of
    [main]. *)
Definition is_ValueError (e : exn) : bool :=
  match e with ValueError _ => true | _ => false end.

(** ** The stream decoder *)

Module Decoder.

(** [v.get(key, default)]: only a [dict] has the method. *)
Definition py_get (v : json) (key : str) (default : json) : exn + json :=
  match v with
  | JObj kvs => inr (match dict_get key kvs with Some x => x | None => default end)
  | _ => inl (AttributeError
                (u_ "'" ++ type_name v ++ u_ "' object has no attribute 'get'"))
  end.

(** [v[0]]. *)
Definition py_item0 (v : json) : exn + json :=
  match v with
  | JArr (x :: _) => inr x
  | JArr [] => inl (IndexError (u_ "list index out of range"))
  | JStr (c :: _) => inr (JStr [c])
  | JStr [] => inl (IndexError (u_ "string index out of range"))
  | JObj _ => inl (KeyError (u_ "0"))
  | _ => inl (TypeError (u_ "'" ++ type_name v ++ u_ "' object is not subscriptable"))
  end.

(** What one iteration of the loop does with a line that was read. *)
Inductive step :=
| Skip                      (* [continue] without a token *)
| Emit (token : str)        (* print the token and append it *)
| Done                      (* [break] on the sentinel *)
| Raise (e : exn).

(** The body of the [while] loop of [parse_sse_stream], from the decoding
    of the line to the end of the iteration. *)
Definition frame_step (line : bytes) : step :=
  let decoded := strip (decode_utf8_replace line) in
  if negb (startswith decoded (u_ "data:")) then Skip
  else
    let data := strip (drop 5 decoded) in
    if str_eqb data (u_ "[DONE]") then Done
    else
      match json_loads data with
      | None => Skip                         (* except json.JSONDecodeError *)
      | Some payload =>
        match py_get payload (u_ "choices") (JArr []) with
        | inl e => Raise e
        | inr choices =>
          if negb (truthy choices) then Skip
          else
            match py_item0 choices with
            | inl e => Raise e
            | inr first =>
              match py_get first (u_ "delta") (JObj []) with
              | inl e => Raise e
              | inr delta =>
                match py_get delta (u_ "content") JNull with
                | inl e => Raise e
                | inr token =>
                  match token with
                  | JStr (c :: t) => Emit (c :: t)
                  | _ => Skip
                  end
                end
              end
            end
        end
      end.

(** A response body as the decoder sees it: the outcomes of the
    successive calls of [readline], each a line or an exception of the
    transport.  When the list is used up, [readline] returns [b""]. *)
Definition line_source := list (exn + bytes).

(** The loop of [parse_sse_stream].  [full_text] is the list of tokens
    appended so far and [printed] what was written to standard output. *)
Fixpoint parse_loop (response : line_source) (full_text printed : list str)
  : (exn + str) * list str :=
  match response with
  | [] => (inr (concat full_text), printed)
  | inl e :: _ => (inl e, printed)
  | inr [] :: _ => (inr (concat full_text), printed)
  | inr line :: rest =>
    match frame_step line with
    | Skip => parse_loop rest full_text printed
    | Emit token => parse_loop rest (full_text ++ [token]) (printed ++ [token])
    | Done => (inr (concat full_text), printed)
    | Raise e => (inl e, printed)
    end
  end.

Definition parse_sse_stream (response : line_source) : (exn + str) * list str :=
  parse_loop response [] [].

(** [readline] over a body held in memory: a line ends after its line
    feed; the last line may lack one. *)
Fixpoint body_lines_aux (body : bytes) (cur : bytes) : list bytes :=
  match body with
  | [] => match cur with [] => [] | _ => [rev cur] end
  | b :: r =>
    if Byte.eqb b Byte.x0a then rev (b :: cur) :: body_lines_aux r []
    else body_lines_aux r (b :: cur)
  end.

Definition body_lines (body : bytes) : list bytes := body_lines_aux body [].

Definition of_lines (ls : list bytes) : line_source := map inr ls.

Definition of_body (body : bytes) : line_source := of_lines (body_lines body).

End Decoder.

Import Decoder.

Definition NL : string := String (ascii_of_nat 10) EmptyString.

(** ** The outside world *)

Module World.

(** The request body of [run_single_request], before [json.dumps]. *)
Record chat_body := {
  body_model : str;
  body_stream : bool;
  body_messages : list (str * str);        (* role, content *)
  body_max_tokens : Z;
  body_temperature : Q;
}.

Record http_request := {
  req_url : str;
  req_headers : list (str * str);
  req_method : str;
  req_data : chat_body;
}.

(** What [urlopen] hands back: the status, the outcome of [read()] and the
    outcomes of the successive [readline()] calls. *)
Record http_response := {
  status : Z;
  read_all : exn + bytes;
  read_lines : line_source;
}.

Inductive outcome :=
| Raises (e : exn)
| Responds (resp : http_response).

(** The world of a run.  [clock] gives the reading of each successive
    call of [time.perf_counter]; [transport] the outcome of each
    successive call of [urlopen], which may depend on the request and its
    timeout; [sleep_error] the exception [time.sleep] raises for a
    duration the host cannot wait for ([OverflowError] beyond the time
    range of the platform), if any.  [ticks], [sent], [slept] and
    [files] change as the run proceeds. *)
Record world := {
  clock : nat -> Q;
  ticks : nat;
  transport : nat -> http_request -> Z -> outcome;
  sleep_error : Q -> option exn;
  sent : list http_request;
  slept : list Q;
  files : gmap str str;
  environ : gmap str str;
}.

Definition perf_counter (w : world) : Q * world :=
  (clock w (ticks w),
   {| clock := clock w; ticks := S (ticks w); transport := transport w;
      sleep_error := sleep_error w;
      sent := sent w; slept := slept w; files := files w; environ := environ w |}).

Definition urlopen (req : http_request) (timeout : Z) (w : world) : outcome * world :=
  (transport w (length (sent w)) req timeout,
   {| clock := clock w; ticks := ticks w; transport := transport w;
      sleep_error := sleep_error w;
      sent := sent w ++ [req]; slept := slept w; files := files w;
      environ := environ w |}).

(** [time.sleep(seconds)]: it raises what the host refuses the duration
    with, and nothing is waited for then; otherwise the pause is made. *)
Definition sleep (seconds : Q) (w : world) : exn + world :=
  match sleep_error w seconds with
  | Some e => inl e
  | None =>
    inr {| clock := clock w; ticks := ticks w; transport := transport w;
           sleep_error := sleep_error w;
           sent := sent w; slept := slept w ++ [seconds]; files := files w;
           environ := environ w |}
  end.

Definition set_files (fs : gmap str str) (w : world) : world :=
  {| clock := clock w; ticks := ticks w; transport := transport w;
     sleep_error := sleep_error w;
     sent := sent w; slept := slept w; files := fs; environ := environ w |}.

(** [os.getenv(name)]. *)
Definition getenv (w : world) (name : str) : option str := environ w !! name.

End World.

Import World.

(** ** [urllib.request.Request] *)

Module Urllib.

(** [urllib.parse.unwrap]. *)
Definition unwrap (url : str) : str :=
  let url := strip url in
  let url :=
    if startswith url (u_ "<") && startswith (rev url) (u_ ">")
    then strip (rev (drop 1 (rev (drop 1 url))))
    else url in
  if startswith url (u_ "URL:") then strip (drop 4 url) else url.

(** The part of [url] before its last [#], or all of it. *)
Fixpoint before_last_hash (url : str) : option str :=
  match url with
  | [] => None
  | c :: r =>
    match before_last_hash r with
    | Some p => Some (c :: p)
    | None => if (c =? 35)%N then Some [] else None
    end
  end.

Definition splittag (url : str) : str :=
  match before_last_hash url with Some p => p | None => url end.

(** [_splittype]: the scheme is the longest run of characters other than
    [/] and [:] at the start, when it is not empty and a colon follows. *)
Fixpoint scheme_run (url : str) : str * str :=
  match url with
  | c :: r =>
    if ((c =? 47) || (c =? 58))%N then ([], url)
    else let '(run, rest) := scheme_run r in (c :: run, rest)
  | [] => ([], [])
  end.

Definition has_url_type (url : str) : bool :=
  match scheme_run url with
  | (_ :: _, c :: _) => (c =? 58)%N
  | _ => false
  end.

(** The [full_url] property: the fragment is put back when it is not
    empty. *)
Definition full_url (url : str) : str :=
  let u := unwrap url in
  let p := splittag u in
  if (length p + 1 =? length u)%nat then p else u.

(** [Request(url, data=..., headers=..., method=...)]: the constructor
    parses the URL and raises [ValueError] when it has no scheme.  The
    text of the message quotes the URL without the escapes of [repr].
    The URLs whose host [urlparse] refuses (an unbalanced bracket of an
    IPv6 literal, a host that changes under NFKC normalisation), for
    which the constructor raises [ValueError] as well, are not told
    apart here; the properties of the executor take the outcome of the
    constructor as it comes and do not depend on which URLs it
    accepts. *)
Definition Request (url : str) (data : chat_body) (headers : list (str * str))
    (method : str) : exn + http_request :=
  if has_url_type (splittag (unwrap url))
  then inr {| req_url := url; req_headers := headers; req_method := method;
              req_data := data |}
  else inl (ValueError (u_ "unknown url type: '" ++ full_url url ++ u_ "'")).

End Urllib.

(** ** The request executor *)

Record RequestResult := {
  index : Z;
  ok : bool;
  duration : Q;
  chars : Z;
  error : str;
}.

Definition failed (idx : Z) (duration : Q) (message : str) : RequestResult :=
  {| index := idx; ok := false; duration := duration; chars := 0; error := message |}.

(** The [try] block of [run_single_request], from [urlopen] to the
    [return] of the success result. *)
Definition attempt (idx : Z) (req : http_request) (timeout_seconds : Z)
    (started_at : Q) (w : world) : (exn + RequestResult) * world :=
  let '(out, w1) := urlopen req timeout_seconds w in
  match out with
  | Raises e => (inl e, w1)
  | Responds resp =>
    if negb (status resp =? 200) then
      match read_all resp with
      | inl e => (inl e, w1)
      | inr raw =>
        (inl (RuntimeError (u_ "HTTP " ++ str_of_int (status resp) ++ u_ ": "
                            ++ decode_utf8_replace raw)), w1)
      end
    else
      match fst (parse_sse_stream (read_lines resp)) with
      | inl e => (inl e, w1)
      | inr response_text =>
        let '(t, w2) := perf_counter w1 in
        (inr {| index := idx; ok := true; duration := (t - started_at)%Q;
                chars := py_len response_text; error := [] |}, w2)
      end
  end.

(** The three [except] clauses, tried in order.  An exception raised while
    a clause runs leaves the function. *)
Definition handle (idx : Z) (started_at : Q) (e : exn) (w : world)
  : (exn + RequestResult) * world :=
  match e with
  | HTTPError code _ fp =>
    match fp with
    | inl e' => (inl e', w)
    | inr raw =>
      let '(t, w1) := perf_counter w in
      (inr (failed idx (t - started_at)%Q
              (u_ "HTTPError " ++ str_of_int code ++ u_ ": " ++ decode_utf8_replace raw)),
       w1)
    end
  | URLError _ | Timeout _ =>
    let '(t, w1) := perf_counter w in
    (inr (failed idx (t - started_at)%Q (u_ "Network/Timeout error: " ++ exn_str e)), w1)
  | _ =>
    let '(t, w1) := perf_counter w in
    (inr (failed idx (t - started_at)%Q (u_ "Unexpected error: " ++ exn_str e)), w1)
  end.

(** The request object built before the [try]: body, headers and the
    call of the constructor. *)
Definition make_request (api_url api_key model prompt : str) (max_tokens : Z)
    (temperature : Q) : exn + http_request :=
  let body :=
    {| body_model := model; body_stream := true;
       body_messages := [(u_ "system", u_ "You are a helpful assistant.");
                         (u_ "user", prompt)];
       body_max_tokens := max_tokens; body_temperature := temperature |} in
  let headers :=
    [(u_ "Authorization", u_ "Bearer " ++ api_key);
     (u_ "Content-Type", u_ "application/json")] in
  Urllib.Request api_url body headers (u_ "POST").

Definition run_single_request (idx total : Z) (api_url api_key model prompt : str)
    (timeout_seconds max_tokens : Z) (temperature : Q) (w : world)
  : (exn + RequestResult) * world :=
  match make_request api_url api_key model prompt max_tokens temperature with
  | inl e => (inl e, w)
  | inr req =>
    let '(started_at, w1) := perf_counter w in
    match attempt idx req timeout_seconds started_at w1 with
    | (inr result, w2) => (inr result, w2)
    | (inl e, w2) => handle idx started_at e w2
    end
  end.

(** ** Persistence: the delimited block of the target document *)

Module Persist.

Definition README_RESULT_START : str :=
  Eval vm_compute in u_ "<!-- OPENAI_BENCHMARK_RESULTS_START -->".
Definition README_RESULT_END : str :=
  Eval vm_compute in u_ "<!-- OPENAI_BENCHMARK_RESULTS_END -->".

(** Offset of the first occurrence of [pat] in [s]. *)
Fixpoint find (pat s : str) : option nat :=
  if startswith s pat then Some O
  else
    match s with
    | [] => None
    | _ :: r => match find pat r with Some k => Some (S k) | None => None end
    end.

(** Length of the match of the pattern
    [START .*? END \n?] (with [re.DOTALL]) at the start of [s]: the start
    marker, the shortest text up to an end marker, that marker, and one
    line feed when there is one. *)
Definition match_len (s : str) : option nat :=
  if startswith s README_RESULT_START then
    match find README_RESULT_END (drop (length README_RESULT_START) s) with
    | Some k =>
      let n := (length README_RESULT_START + k + length README_RESULT_END)%nat in
      Some (if startswith (drop n s) [LF] then S n else n)
    | None => None
    end
  else None.

(** [re.sub(pattern, "", content)]: the matches are looked for from left
    to right and do not overlap.  [skip] counts the characters of the
    current match that are still to be dropped. *)
Fixpoint sub_blocks (skip : nat) (s : str) : str :=
  match s with
  | [] => []
  | c :: r =>
    match skip with
    | S k => sub_blocks k r
    | O =>
      match match_len s with
      | Some n => sub_blocks (pred n) r
      | None => c :: sub_blocks O r
      end
    end
  end.

Definition remove_blocks (content : str) : str := sub_blocks O content.

Definition placeholder : str := u_ "# OpenAI API Availability Monitor" ++ [LF; LF].

Definition block (report_lines : list str) : str :=
  README_RESULT_START ++ [LF] ++ strip (join [LF] report_lines) ++ [LF]
  ++ README_RESULT_END ++ [LF].

(** The new content that [update_readme_tail] computes from the old. *)
Definition new_content (content : str) (report_lines : list str) : str :=
  rstrip (remove_blocks content) ++ [LF; LF] ++ block report_lines.

(** What [f.read()] returns for a file opened with [open(path, "r")]:
    in text mode with the default [newline=None] every [\r\n] and every
    other [\r] of the file arrives as [\n]. *)
Fixpoint universal_newlines (s : str) : str :=
  match s with
  | [] => []
  | c :: r =>
    if (c =? CR)%N
    then LF :: match r with
               | d :: r' => if (d =? LF)%N then universal_newlines r'
                            else universal_newlines r
               | [] => []
               end
    else c :: universal_newlines r
  end.

(** [update_readme_tail].  The document is written back with
    [open(path, "w")]; the line separator of the host is the line feed,
    so what is written is the new content as it is. *)
Definition update_readme_tail (readme_path : str) (report_lines : list str)
    (w : world) : world :=
  let content :=
    match files w !! readme_path with
    | Some text => universal_newlines text
    | None => placeholder
    end in
  set_files (<[readme_path := new_content content report_lines]> (files w)) w.

(** [write_github_summary]. *)
Definition write_github_summary (lines : list str) (w : world) : world :=
  match getenv w (u_ "GITHUB_STEP_SUMMARY") with
  | None => w
  | Some [] => w
  | Some summary_path =>
    let old := match files w !! summary_path with Some t => t | None => [] end in
    set_files (<[summary_path := old ++ join [LF] lines ++ [LF]]> (files w)) w
  end.

End Persist.

Import Persist.

Definition doc_example : str :=
  u_ "# Title" ++ [LF; LF] ++ README_RESULT_START ++ [LF] ++ u_ "old" ++ [LF]
  ++ README_RESULT_END ++ [LF] ++ u_ "footer" ++ [LF].

(** ** Configuration, benchmark loop and [main] *)

Record config := {
  api_url : str;
  api_key : str;
  model : str;
  prompt : str;
  request_count : Z;
  timeout_seconds : Z;
  max_runtime_seconds : Z;
  max_tokens : Z;
  pause_seconds : Q;
  temperature : Q;
}.

Definition set_api_url v c :=
  {| api_url := v; api_key := api_key c; model := model c; prompt := prompt c;
     request_count := request_count c; timeout_seconds := timeout_seconds c;
     max_runtime_seconds := max_runtime_seconds c; max_tokens := max_tokens c;
     pause_seconds := pause_seconds c; temperature := temperature c |}.
Definition set_api_key v c :=
  {| api_url := api_url c; api_key := v; model := model c; prompt := prompt c;
     request_count := request_count c; timeout_seconds := timeout_seconds c;
     max_runtime_seconds := max_runtime_seconds c; max_tokens := max_tokens c;
     pause_seconds := pause_seconds c; temperature := temperature c |}.
Definition set_model v c :=
  {| api_url := api_url c; api_key := api_key c; model := v; prompt := prompt c;
     request_count := request_count c; timeout_seconds := timeout_seconds c;
     max_runtime_seconds := max_runtime_seconds c; max_tokens := max_tokens c;
     pause_seconds := pause_seconds c; temperature := temperature c |}.
Definition set_prompt v c :=
  {| api_url := api_url c; api_key := api_key c; model := model c; prompt := v;
     request_count := request_count c; timeout_seconds := timeout_seconds c;
     max_runtime_seconds := max_runtime_seconds c; max_tokens := max_tokens c;
     pause_seconds := pause_seconds c; temperature := temperature c |}.
Definition set_request_count v c :=
  {| api_url := api_url c; api_key := api_key c; model := model c; prompt := prompt c;
     request_count := v; timeout_seconds := timeout_seconds c;
     max_runtime_seconds := max_runtime_seconds c; max_tokens := max_tokens c;
     pause_seconds := pause_seconds c; temperature := temperature c |}.
Definition set_timeout_seconds v c :=
  {| api_url := api_url c; api_key := api_key c; model := model c; prompt := prompt c;
     request_count := request_count c; timeout_seconds := v;
     max_runtime_seconds := max_runtime_seconds c; max_tokens := max_tokens c;
     pause_seconds := pause_seconds c; temperature := temperature c |}.
Definition set_max_runtime_seconds v c :=
  {| api_url := api_url c; api_key := api_key c; model := model c; prompt := prompt c;
     request_count := request_count c; timeout_seconds := timeout_seconds c;
     max_runtime_seconds := v; max_tokens := max_tokens c;
     pause_seconds := pause_seconds c; temperature := temperature c |}.
Definition set_max_tokens v c :=
  {| api_url := api_url c; api_key := api_key c; model := model c; prompt := prompt c;
     request_count := request_count c; timeout_seconds := timeout_seconds c;
     max_runtime_seconds := max_runtime_seconds c; max_tokens := v;
     pause_seconds := pause_seconds c; temperature := temperature c |}.
Definition set_pause_seconds v c :=
  {| api_url := api_url c; api_key := api_key c; model := model c; prompt := prompt c;
     request_count := request_count c; timeout_seconds := timeout_seconds c;
     max_runtime_seconds := max_runtime_seconds c; max_tokens := max_tokens c;
     pause_seconds := v; temperature := temperature c |}.
Definition set_temperature v c :=
  {| api_url := api_url c; api_key := api_key c; model := model c; prompt := prompt c;
     request_count := request_count c; timeout_seconds := timeout_seconds c;
     max_runtime_seconds := max_runtime_seconds c; max_tokens := max_tokens c;
     pause_seconds := pause_seconds c; temperature := v |}.

Definition DEFAULT_API_URL : str := u_ "https://api.openai.com/v1/chat/completions".
Definition DEFAULT_MODEL : str := u_ "gpt-4o-mini".
Definition DEFAULT_PROMPT : str := u_ "请简单回复：服务可用。".
Definition DEFAULT_README : str := u_ "README.md".

(** The values [main] gives its variables before the [try]. *)
Definition initial_config : config :=
  {| api_url := DEFAULT_API_URL; api_key := []; model := DEFAULT_MODEL;
     prompt := DEFAULT_PROMPT; request_count := 5; timeout_seconds := 120;
     max_runtime_seconds := 0; max_tokens := 128; pause_seconds := 0%Q;
     temperature := (1 # 10)%Q |}.

Inductive run_status := SUCCESS | PARTIAL_SUCCESS | FAILED | CONFIG_ERROR | RUNTIME_ERROR.

Record summary := {
  attempted : Z;
  success_count : Z;
  failure_count : Z;
  availability : Q;
  total_runtime : Q;
  avg_duration : option Q;
  fastest : option Q;
  slowest : option Q;
}.

Definition initial_summary : summary :=
  {| attempted := 0; success_count := 0; failure_count := 0; availability := 0%Q;
     total_runtime := 0%Q; avg_duration := None; fastest := None; slowest := None |}.

(** The arguments [main] passes to [build_report_lines]: the value of its
    variables when the [try] statement is left. *)
Record report_args := {
  r_config : config;
  r_summary : summary;
  r_results : list RequestResult;
  r_status : run_status;
  r_error_message : str;
}.

Definition Qlt_bool (a b : Q) : bool := negb (Qle_bool b a).

Definition Qmin_list (x : Q) (l : list Q) : Q :=
  fold_left (fun m y => if Qlt_bool y m then y else m) l x.
Definition Qmax_list (x : Q) (l : list Q) : Q :=
  fold_left (fun m y => if Qlt_bool m y then y else m) l x.
Definition Qsum (l : list Q) : Q := fold_left Qplus l 0%Q.

(** [safe_markdown_text]. *)
Definition safe_markdown_text (text : str) : str :=
  replace_char LF [32%N] (replace_char 124%N [92%N; 124%N] text).

(** The statements of [main] between the loop and the classification. *)
Definition summarize (results : list RequestResult) (total : Q) : summary :=
  let attempted := Z.of_nat (length results) in
  let success_durations := map duration (filter (fun item => ok item = true) results) in
  let success_count := Z.of_nat (length success_durations) in
  let failure_count := attempted - success_count in
  {| attempted := attempted;
     success_count := success_count;
     failure_count := failure_count;
     availability :=
       if attempted =? 0 then 0%Q
       else (inject_Z success_count / inject_Z attempted * 100)%Q;
     total_runtime := total;
     avg_duration :=
       match success_durations with
       | [] => None
       | _ => Some (Qsum success_durations / inject_Z success_count)%Q
       end;
     fastest := match success_durations with [] => None | x :: l => Some (Qmin_list x l) end;
     slowest := match success_durations with [] => None | x :: l => Some (Qmax_list x l) end |}.

(** The final [if] chain of the [try] block: status, message, exit code. *)
Definition classify (s : summary) : run_status * str * Z :=
  if attempted s =? 0 then (FAILED, u_ "No request attempted.", 1)
  else if success_count s =? 0 then (FAILED, u_ "All requests failed.", 1)
  else if 0 <? failure_count s then (PARTIAL_SUCCESS, [], 0)
  else (SUCCESS, [], 0).

Section Run.

(** [int(text)] and [float(text)], [None] when they raise [ValueError];
    the renderer of the report, which also reads the wall clock. *)
Variable py_int : str -> option Z.
Variable py_float : str -> option Q.
Variable build_report_lines : report_args -> list str.

Definition env_str (w : world) (name : str) (default : option str) (required : bool)
  : exn + str :=
  let value := match getenv w name with Some v => Some v | None => default end in
  if required && match value with None => true | Some v => str_eqb v [] end
  then inl (ValueError (u_ "Missing required environment variable: " ++ name))
  else inr (match value with None => [] | Some v => v end).

Definition env_int (w : world) (name : str) (default : Z) : exn + Z :=
  match getenv w name with
  | None => inr default
  | Some [] => inr default
  | Some value =>
    match py_int value with
    | Some n => inr n
    | None => inl (ValueError (name ++ u_ " must be an integer, got: " ++ value))
    end
  end.

Definition env_float (w : world) (name : str) (default : Q) : exn + Q :=
  match getenv w name with
  | None => inr default
  | Some [] => inr default
  | Some value =>
    match py_float value with
    | Some x => inr x
    | None => inl (ValueError (name ++ u_ " must be a number, got: " ++ value))
    end
  end.

(** One assignment of the [try] block: when the right-hand side raises,
    the variables keep the values they have. *)
Definition assign {A} (set : A -> config -> config) (rhs : exn + A)
    (k : config -> option exn * config) (c : config) : option exn * config :=
  match rhs with
  | inl e => (Some e, c)
  | inr v => k (set v c)
  end.

Definition validate (c : config) : option exn * config :=
  if request_count c <=? 0
  then (Some (ValueError (u_ "OPENAI_REQUEST_COUNT must be > 0")), c)
  else if timeout_seconds c <=? 0
  then (Some (ValueError (u_ "OPENAI_REQUEST_TIMEOUT_SECONDS must be > 0")), c)
  else if max_tokens c <=? 0
  then (Some (ValueError (u_ "OPENAI_MAX_TOKENS must be > 0")), c)
  else if max_runtime_seconds c <? 0
  then (Some (ValueError (u_ "OPENAI_MAX_RUNTIME_SECONDS must be >= 0")), c)
  else if Qlt_bool (pause_seconds c) 0
  then (Some (ValueError (u_ "OPENAI_REQUEST_PAUSE_SECONDS must be >= 0")), c)
  else (None, c).

(** The first part of the [try] block of [main]: the settings are read
    in the order of the source, then validated. *)
Definition resolve_config (w : world) : config -> option exn * config :=
  assign set_api_url (env_str w (u_ "OPENAI_API_URL") (Some DEFAULT_API_URL) false)
  (assign set_api_key (env_str w (u_ "OPENAI_API_KEY") None true)
  (assign set_model (env_str w (u_ "OPENAI_MODEL") (Some DEFAULT_MODEL) false)
  (assign set_prompt (env_str w (u_ "OPENAI_PROMPT") (Some DEFAULT_PROMPT) false)
  (assign set_request_count (env_int w (u_ "OPENAI_REQUEST_COUNT") 5)
  (assign set_timeout_seconds (env_int w (u_ "OPENAI_REQUEST_TIMEOUT_SECONDS") 120)
  (assign set_max_runtime_seconds (env_int w (u_ "OPENAI_MAX_RUNTIME_SECONDS") 0)
  (assign set_max_tokens (env_int w (u_ "OPENAI_MAX_TOKENS") 128)
  (assign set_pause_seconds (env_float w (u_ "OPENAI_REQUEST_PAUSE_SECONDS") 0%Q)
  (assign set_temperature (env_float w (u_ "OPENAI_TEMPERATURE") (1 # 10)%Q)
  validate))))))))).

(** The test that ends the loop early. *)
Definition budget_spent (c : config) (elapsed : Q) : bool :=
  (0 <? max_runtime_seconds c) && Qle_bool (inject_Z (max_runtime_seconds c)) elapsed.

(** The [for] loop of [main], with [remaining] indices left from [idx]
    on.  It returns the exception that left the loop, if any, the result
    sequence and the world. *)
Fixpoint benchmark_loop (remaining : nat) (idx : Z) (c : config) (suite_start : Q)
    (results : list RequestResult) (w : world)
  : option exn * list RequestResult * world :=
  match remaining with
  | O => (None, results, w)
  | S n =>
    let '(now, w1) := perf_counter w in
    let elapsed := (now - suite_start)%Q in
    if budget_spent c elapsed then (None, results, w1)
    else
      match run_single_request idx (request_count c) (api_url c) (api_key c)
              (model c) (prompt c) (timeout_seconds c) (max_tokens c)
              (temperature c) w1 with
      | (inl e, w2) => (Some e, results, w2)
      | (inr result, w2) =>
        let paused :=
          if Qlt_bool 0 (pause_seconds c) && negb (idx =? request_count c)
          then sleep (pause_seconds c) w2 else inr w2 in
        match paused with
        | inl e => (Some e, results ++ [result], w2)
        | inr w3 => benchmark_loop n (idx + 1) c suite_start (results ++ [result]) w3
        end
      end
  end.

(** The two handlers of [main]. *)
Definition main_handler (e : exn) : run_status * str * Z :=
  if is_ValueError e then (CONFIG_ERROR, exn_str e, 2)
  else (RUNTIME_ERROR, u_ "Unexpected runtime error: " ++ exn_str e, 1).

(** The [try] statement of [main]: the variables when it is left, the
    exit code and the world. *)
Definition main_try (w : world) : report_args * Z * world :=
  match resolve_config w initial_config with
  | (Some e, c) =>
    let '(st, msg, code) := main_handler e in
    ({| r_config := c; r_summary := initial_summary; r_results := [];
        r_status := st; r_error_message := msg |}, code, w)
  | (None, c) =>
    let '(suite_start, w1) := perf_counter w in
    match benchmark_loop (Z.to_nat (request_count c)) 1 c suite_start [] w1 with
    | (Some e, results, w2) =>
      let '(st, msg, code) := main_handler e in
      ({| r_config := c; r_summary := initial_summary; r_results := results;
          r_status := st; r_error_message := msg |}, code, w2)
    | (None, results, w2) =>
      let '(t, w3) := perf_counter w2 in
      let s := summarize results (t - suite_start)%Q in
      let '(st, msg, code) := classify s in
      ({| r_config := c; r_summary := s; r_results := results;
          r_status := st; r_error_message := msg |}, code, w3)
    end
  end.

Definition detail_header : str := u_ "### 请求明细".

Fixpoint index_of (x : str) (l : list str) : option nat :=
  match l with
  | [] => None
  | y :: r => if str_eqb x y then Some O else option_map S (index_of x r)
  end.

(** The lines [main] sends to the summary sink. *)
Definition summary_lines (a : report_args) (report_lines : list str) : list str :=
  [u_ "## OpenAI Availability Summary"; []]
  ++ match index_of detail_header report_lines with
     | Some detail_start => take (detail_start - 2) (drop 2 report_lines)
     | None => drop 2 report_lines
     end
  ++ (if 0 <? failure_count (r_summary a)
      then [[]; u_ "### Failed request details"]
           ++ map (fun item => u_ "- Request " ++ str_of_int (index item) ++ u_ ": "
                               ++ safe_markdown_text (error item))
                  (filter (fun x => ok x = false) (r_results a))
      else []).

(** [main]: [inl] when an exception leaves it, else the exit code, the
    variables reported and the world. *)
Definition main (w : world) : exn + Z * report_args * world :=
  match env_str w (u_ "OPENAI_README_PATH") (Some DEFAULT_README) false with
  | inl e => inl e
  | inr readme_path =>
    let '(args, exit_code, w1) := main_try w in
    let report_lines := build_report_lines args in
    let w2 := update_readme_tail readme_path report_lines w1 in
    let w3 := write_github_summary (summary_lines args report_lines) w2 in
    inr (exit_code, args, w3)
  end.

End Run.

(** ** Definitions used to state the properties

    The specification of the decoder read as functions, the predicates
    the theorems are stated with, and the data of the examples. *)

(** The payload of a [data:] frame: the text after the prefix, stripped;
    [None] for a line that is not such a frame. *)
Definition frame_payload (line : bytes) : option str :=
  let decoded := strip (decode_utf8_replace line) in
  if startswith decoded (u_ "data:") then Some (strip (drop 5 decoded)) else None.

(** The payload that ends the stream. *)
Definition SENTINEL : str := u_ "[DONE]".

(** A [data:] frame whose payload is the sentinel. *)
Definition is_sentinel (line : bytes) : bool :=
  match frame_payload line with
  | Some p => str_eqb p SENTINEL
  | None => false
  end.

(** Reading the decoder's contract as a specification: navigation in a
    JSON value that never fails. *)
Definition member (key : str) (v : json) : option json :=
  match v with JObj kvs => dict_get key kvs | _ => None end.

(** The first element of a non-empty list. *)
Definition first_item (v : json) : option json :=
  match v with JArr (x :: _) => Some x | _ => None end.

(** [choices[0].delta.content] when it is a non-empty string. *)
Definition spec_content (payload : json) : option str :=
  match member (u_ "choices") payload with
  | Some choices =>
    match first_item choices with
    | Some first =>
      match member (u_ "delta") first with
      | Some delta =>
        match member (u_ "content") delta with
        | Some (JStr (c :: t)) => Some (c :: t)
        | _ => None
        end
      | None => None
      end
    | None => None
    end
  | None => None
  end.

(** The token carried by a line, if it is a well-formed [data:] frame
    that carries one. *)
Definition spec_frame_token (line : bytes) : option str :=
  match frame_payload line with
  | Some p =>
    match json_loads p with
    | Some v => spec_content v
    | None => None
    end
  | None => None
  end.

(** The lines that precede the sentinel or the end of input ([readline]
    returns an empty line only there). *)
Fixpoint spec_live_lines (ls : list bytes) : list bytes :=
  match ls with
  | [] => []
  | l :: r =>
    match l with
    | [] => []
    | _ => if is_sentinel l then [] else l :: spec_live_lines r
    end
  end.

(** The tokens of the live lines, in arrival order, and their
    concatenation. *)
Definition spec_tokens (ls : list bytes) : list str :=
  omap spec_frame_token (spec_live_lines ls).

Definition spec_text (ls : list bytes) : str := concat (spec_tokens ls).

(** The shape of a payload on which the decoder does not raise: an object
    whose ["choices"] is missing, falsy, or a list that starts with an
    object whose ["delta"] is missing or an object. *)
Definition chunk_shaped (v : json) : bool :=
  match v with
  | JObj kvs =>
    match dict_get (u_ "choices") kvs with
    | None => true
    | Some choices =>
      negb (truthy choices)
      || match choices with
         | JArr (JObj first :: _) =>
           match dict_get (u_ "delta") first with
           | None => true
           | Some (JObj _) => true
           | Some _ => false
           end
         | _ => false
         end
    end
  | _ => false
  end.

(** A line on which the decoder does not raise: not a frame, a frame
    whose payload is not JSON, or a frame with a chunk-shaped payload. *)
Definition well_shaped (line : bytes) : bool :=
  match frame_payload line with
  | Some p =>
    match json_loads p with
    | Some v => chunk_shaped v
    | None => true
    end
  | None => true
  end.

(** The body of the example: one frame with the token [Hi], then the
    sentinel; and its first line. *)
Definition hi_body : bytes :=
  q_ ("data: {'choices':[{'delta':{'content':'Hi'}}]}" ++ NL ++ NL
      ++ "data: [DONE]" ++ NL ++ NL).

Definition hi_line : bytes := q_ "data: {'choices':[{'delta':{'content':'Hi'}}]}".

(** The duration the executor reports: the second reading of the clock
    minus the first. *)
Definition measured (w : world) : Q := (clock w (S (ticks w)) - clock w (ticks w))%Q.

(** A world for examples: the clock advances by one second at each
    reading, every pause can be made, nothing was sent yet, no file
    exists. *)
Definition example_world (net : nat -> http_request -> Z -> outcome)
    (env : gmap str str) : world :=
  {| clock := fun n => inject_Z (Z.of_nat n); ticks := O; transport := net;
     sleep_error := fun _ => None;
     sent := []; slept := []; files := ∅; environ := env |}.

(** An HTTP error whose body cannot be read: the connection times out
    while the handler reads it. *)
Definition unreadable_http_error : outcome :=
  Raises (HTTPError 503 (u_ "Service Unavailable") (inl (Timeout (u_ "timed out")))).

(** The message of a failure at the HTTP level, for the two ways such a
    failure reaches the executor: a response that [urlopen] returns with a
    status other than 200, and an [HTTPError] that [urlopen] raises.  In
    both the body must be readable. *)
Definition protocol_failure_message (o : outcome) : option str :=
  match o with
  | Responds resp =>
    if status resp =? 200 then None
    else
      match read_all resp with
      | inr raw =>
        Some (u_ "Unexpected error: "
              ++ (u_ "HTTP " ++ str_of_int (status resp) ++ u_ ": "
                  ++ decode_utf8_replace raw))
      | inl _ => None
      end
  | Raises (HTTPError code _ (inr raw)) =>
    Some (u_ "HTTPError " ++ str_of_int code ++ u_ ": " ++ decode_utf8_replace raw)
  | Raises _ => None
  end.

(** A response that [urlopen] returns with status 201, and the request
    object of the examples. *)
Definition created_response : http_response :=
  {| status := 201; read_all := inr (b_ "created"); read_lines := [] |}.

Definition example_request : http_request :=
  match make_request DEFAULT_API_URL (u_ "sk-test") DEFAULT_MODEL DEFAULT_PROMPT
          128 (1 # 10)%Q with
  | inr req => req
  | inl _ => {| req_url := []; req_headers := []; req_method := [];
                req_data := {| body_model := []; body_stream := true;
                               body_messages := []; body_max_tokens := 0;
                               body_temperature := 0%Q |} |}
  end.

(** A read that gives a line on which the loop goes on to the next
    line. *)
Definition passes (x : exn + bytes) : bool :=
  match x with
  | inr (b :: l) =>
    match frame_step (b :: l) with
    | Skip | Emit _ => true
    | Done | Raise _ => false
    end
  | _ => false
  end.

(** The text of the [AttributeError] raised by [v.get] on a value that is
    not a [dict]. *)
Definition no_get_message (v : json) : str :=
  u_ "'" ++ type_name v ++ u_ "' object has no attribute 'get'".

Definition is_object (v : json) : bool :=
  match v with JObj _ => true | _ => false end.

(** A stream with a token followed by a frame whose payload is the
    number 5. *)
Definition number_response : http_response :=
  {| status := 200; read_all := inr []; read_lines := [inr hi_line; inr (b_ "data: 5")] |}.

(** The name of the credential setting. *)
Definition KEY_NAME : str := u_ "OPENAI_API_KEY".

(** An environment where the credential is set and the model is set to
    the empty string. *)
Definition env_empty_model : gmap str str :=
  <[u_ "OPENAI_MODEL" := []]> (<[KEY_NAME := u_ "sk-test"]> ∅).

(** The number of results with [ok] true. *)
Definition count_ok (results : list RequestResult) : Z :=
  Z.of_nat (length (filter (fun item => ok item = true) results)).

(** A response with status 200 that streams the example body. *)
Definition hi_response : http_response :=
  {| status := 200; read_all := inr hi_body; read_lines := of_body hi_body |}.

(** A world where the credential is set and every request is answered by
    the one-token stream. *)
Definition healthy_world : world :=
  example_world (fun _ _ _ => Responds hi_response) (<[KEY_NAME := u_ "sk-test"]> ∅).

(** The call of the executor in the loop, and the pause that follows
    it. *)
Definition request (c : config) (idx : Z) (w : world) : (exn + RequestResult) * world :=
  run_single_request idx (request_count c) (api_url c) (api_key c) (model c)
    (prompt c) (timeout_seconds c) (max_tokens c) (temperature c) w.

Definition pause_after (c : config) (idx : Z) (w : world) : exn + world :=
  if Qlt_bool 0 (pause_seconds c) && negb (idx =? request_count c)
  then sleep (pause_seconds c) w else inr w.

(** The request boundaries a run goes through.  [at_boundary c start w0 k
    rs w]: started in world [w0], the loop has completed [k] requests
    and the pauses after them, collected [rs], and is about to read the
    clock in world [w] before request [k + 1]. *)
Inductive at_boundary (c : config) (start : Q) (w0 : world)
  : nat -> list RequestResult -> world -> Prop :=
| boundary_first : at_boundary c start w0 O [] w0
| boundary_next k rs w r w2 w3 :
    at_boundary c start w0 k rs w ->
    budget_spent c (clock w (ticks w) - start)%Q = false ->
    request c (Z.of_nat k + 1) (snd (perf_counter w)) = (inr r, w2) ->
    pause_after c (Z.of_nat k + 1) w2 = inr w3 ->
    at_boundary c start w0 (S k) (rs ++ [r]) w3.

(** The first [k] iterations of the loop, when none of them stops it. *)
Fixpoint run_to_boundary (c : config) (start : Q) (w0 : world) (k : nat)
  : option (list RequestResult * world) :=
  match k with
  | O => Some ([], w0)
  | S k' =>
    match run_to_boundary c start w0 k' with
    | Some (rs, w) =>
      if budget_spent c (clock w (ticks w) - start)%Q then None
      else
        match request c (Z.of_nat k' + 1) (snd (perf_counter w)) with
        | (inr r, w2) =>
          match pause_after c (Z.of_nat k' + 1) w2 with
          | inr w3 => Some (rs ++ [r], w3)
          | inl _ => None
          end
        | (inl _, _) => None
        end
    | None => None
    end
  end.

(** Five planned requests and a budget of five seconds, in a world where
    each reading of the clock is one second after the previous one: the
    budget is not spent at the boundaries before requests 1 and 2 and is
    spent at the boundary after request 2. *)
Definition budget_config : config :=
  set_max_runtime_seconds 5 (set_api_key (u_ "sk-test") initial_config).

Definition budget_world : world := snd (perf_counter healthy_world).

(** The markers without their first character, which is [<] for both. *)
Definition START_tl : str := Eval vm_compute in tail README_RESULT_START.
Definition END_tl : str := Eval vm_compute in tail README_RESULT_END.

(** The text after a match: one line feed is taken with it. *)
Definition after_block (post : str) : str :=
  if startswith post [LF] then drop 1 post else post.

(** Pieces of the example documents. *)
Definition title_text : str := Eval vm_compute in u_ "# Title".
Definition old_region_text : str := Eval vm_compute in [LF] ++ u_ "old" ++ [LF].

Definition footer_text : str := Eval vm_compute in u_ "footer" ++ [LF].

(** A parser shrinks its input when what it leaves is shorter than what
    it was given. *)
Definition shrinks {A} (p : str -> option (A * str)) : Prop :=
  forall s x rest, p s = Some (x, rest) -> (length rest < length s)%nat.

(** The exception that leaves the [try] block, if any, for an outcome of
    [urlopen]. *)
Definition attempt_exception (o : outcome) : option exn :=
  match o with
  | Raises e => Some e
  | Responds resp =>
    if negb (status resp =? 200) then
      match read_all resp with
      | inl e => Some e
      | inr raw =>
        Some (RuntimeError (u_ "HTTP " ++ str_of_int (status resp) ++ u_ ": "
                            ++ decode_utf8_replace raw))
      end
    else
      match fst (parse_sse_stream (read_lines resp)) with
      | inl e => Some e
      | inr _ => None
      end
  end.

(** An [HTTPError] whose body cannot be read. *)
Definition body_unreadable (e : exn) : bool :=
  match e with HTTPError _ _ (inl _) => true | _ => false end.

(** ** Further definitions for the properties of the uncited code *)

(** Lines of the examples: a comment, a blank keep-alive line, and the
    sentinel. *)
Definition comment_line : bytes := b_ ": keep-alive".
Definition blank_line : bytes := [Byte.x0a].
Definition done_line : bytes := b_ "data: [DONE]".

(** The tokens the loop emits on the reads of a source, one frame at a
    time. *)
Definition emitted (x : exn + bytes) : list str :=
  match x with
  | inr (b :: l) =>
    match frame_step (b :: l) with
    | Emit token => [token]
    | _ => []
    end
  | _ => []
  end.

Definition emitted_tokens (source : line_source) : list str :=
  concat (map emitted source).

(** The text the decoder returns for an outcome of [urlopen] on which the
    [try] block is not left by an exception. *)
Definition attempt_text (o : outcome) : str :=
  match o with
  | Responds resp =>
    match fst (parse_sse_stream (read_lines resp)) with
    | inr text => text
    | inl _ => []
    end
  | Raises _ => []
  end.

(** The message of the failed result for an exception that leaves the
    [try] block, by the clause that catches it; [None] when reading the
    body of an [HTTPError] fails in its clause. *)
Definition failure_message (e : exn) : option str :=
  match e with
  | HTTPError _ _ (inl _) => None
  | HTTPError code _ (inr raw) =>
    Some (u_ "HTTPError " ++ str_of_int code ++ u_ ": " ++ decode_utf8_replace raw)
  | URLError _ | Timeout _ => Some (u_ "Network/Timeout error: " ++ exn_str e)
  | _ => Some (u_ "Unexpected error: " ++ exn_str e)
  end.

(** The world after the executor has called [urlopen]: the clock was read
    once and the request is in the log. *)
Definition after_urlopen (req : http_request) (timeout : Z) (w : world) : world :=
  snd (urlopen req timeout (snd (perf_counter w))).

(** A response with status 200 whose stream times out after one token. *)
Definition stalled_response : http_response :=
  {| status := 200; read_all := inr [];
     read_lines := [inr hi_line; inl (Timeout (u_ "timed out"))] |}.

(** An environment with the credential and a request count that is not a
    number. *)
Definition env_bad_count : gmap str str :=
  <[u_ "OPENAI_REQUEST_COUNT" := u_ "many"]> (<[KEY_NAME := u_ "sk-test"]> ∅).

(** The names of the settings other than the credential. *)
Definition OPTIONAL_SETTINGS : list str :=
  [u_ "OPENAI_API_URL"; u_ "OPENAI_MODEL"; u_ "OPENAI_PROMPT";
   u_ "OPENAI_REQUEST_COUNT"; u_ "OPENAI_REQUEST_TIMEOUT_SECONDS";
   u_ "OPENAI_MAX_RUNTIME_SECONDS"; u_ "OPENAI_MAX_TOKENS";
   u_ "OPENAI_REQUEST_PAUSE_SECONDS"; u_ "OPENAI_TEMPERATURE"].

(** A transport on which no HTTP error with an unreadable body ever
    leaves the [try] block of the executor. *)
Definition reliable (w : world) : Prop :=
  forall k req timeout,
    match attempt_exception (transport w k req timeout) with
    | Some e => body_unreadable e = false
    | None => True
    end.

(** The pauses of a full run: one after each request but the last, when
    the pause is positive. *)
Definition pauses (c : config) (requests : nat) : list Q :=
  if Qlt_bool 0 (pause_seconds c) then replicate (requests - 1) (pause_seconds c) else [].

(** The built request of a configuration. *)
Definition config_request (c : config) : exn + http_request :=
  make_request (api_url c) (api_key c) (model c) (prompt c) (max_tokens c)
    (temperature c).

(** A world where the first request is answered and the second meets an
    HTTP error whose body cannot be read. *)
Definition failing_second_world : world :=
  example_world
    (fun k _ _ => match k with O => Responds hi_response | _ => unreadable_http_error end)
    (<[KEY_NAME := u_ "sk-test"]> ∅).

(** A configuration with three requests and a pause of half a second. *)
Definition paused_config : config :=
  set_pause_seconds (1 # 2)%Q
    (set_request_count 3 (set_api_key (u_ "sk-test") initial_config)).

(** The exit code that goes with each status. *)
Definition exit_code_of (st : run_status) : Z :=
  match st with
  | SUCCESS | PARTIAL_SUCCESS => 0
  | FAILED | RUNTIME_ERROR => 1
  | CONFIG_ERROR => 2
  end.

(** The exception, the configuration and the first result of the run in
    [failing_second_world]. *)
Definition timed_out : exn := Eval vm_compute in Timeout (u_ "timed out").
Definition sk_config : config :=
  Eval vm_compute in set_api_key (u_ "sk-test") initial_config.
Definition first_result : RequestResult :=
  {| index := 1; ok := true; duration := 1%Q; chars := 2; error := [] |}.





(** A document made of texts separated by regions: each pair is the text
    before a region and the text between its markers; [last] is the text
    after the last region.  Every region is followed by a line feed, as
    the regions written by [update_readme_tail] are. *)
Fixpoint with_regions (regions : list (str * str)) (last : str) : str :=
  match regions with
  | [] => last
  | (pre, mid) :: rest =>
    pre ++ README_RESULT_START ++ mid ++ README_RESULT_END ++ [LF]
    ++ with_regions rest last
  end.

(** The characters that [safe_markdown_text] replaces. *)
Definition BAR : N := 124%N.
Definition BACKSLASH : N := 92%N.
Definition SPACE : N := 32%N.

(** A world where the request count cannot be parsed, and the exception
    the resolver raises there. *)
Definition bad_count_world : world :=
  example_world (fun _ _ _ => Responds hi_response) env_bad_count.
Definition bad_count_error : exn :=
  Eval vm_compute in
    ValueError (u_ "OPENAI_REQUEST_COUNT must be an integer, got: many").

(** A note left in a document after a start marker that has no end
    marker. *)
Definition note_text : str := Eval vm_compute in [LF] ++ u_ "my notes" ++ [LF].

(** ** [build_report_lines]

    The renderer of the report.  The formatting of floats is left to
    the library: [fmt2] and [fmt3] stand for the format specifications
    [.2f] and [.3f], [str_of_float] for [str] on a float, and [utc_now]
    and [beijing_now] for the two time stamps [now_iso_strings] reads
    from the wall clock. *)

Section Report.

Variable fmt2 fmt3 str_of_float : Q -> str.
Variable utc_now beijing_now : str.

Definition status_text (st : run_status) : str :=
  match st with
  | SUCCESS => u_ "SUCCESS"
  | PARTIAL_SUCCESS => u_ "PARTIAL_SUCCESS"
  | FAILED => u_ "FAILED"
  | CONFIG_ERROR => u_ "CONFIG_ERROR"
  | RUNTIME_ERROR => u_ "RUNTIME_ERROR"
  end.

(** A duration that may be absent, as the last three bullets print it. *)
Definition optional_seconds (x : option Q) : str :=
  match x with
  | Some v => fmt3 v
  | None => u_ "N/A"
  end.

Definition report_title : str := u_ "## 最新脚本运行结果".

(** The twenty bullets that follow the title and the empty line. *)
Definition report_bullets (a : report_args) : list str :=
  let c := r_config a in
  let s := r_summary a in
  [ u_ "- 运行状态: **" ++ status_text (r_status a) ++ u_ "**";
    u_ "- 运行时间(UTC): `" ++ utc_now ++ u_ "`";
    u_ "- 运行时间(Asia/Shanghai): `" ++ beijing_now ++ u_ "`";
    u_ "- API URL: `" ++ api_url c ++ u_ "`";
    u_ "- Model: `" ++ model c ++ u_ "`";
    u_ "- Prompt: `" ++ prompt c ++ u_ "`";
    u_ "- 计划请求次数: `" ++ str_of_int (request_count c) ++ u_ "`";
    u_ "- 实际请求次数: `" ++ str_of_int (attempted s) ++ u_ "`";
    u_ "- 单次超时(s): `" ++ str_of_int (timeout_seconds c) ++ u_ "`";
    u_ "- 总运行时长上限(s): `" ++ str_of_int (max_runtime_seconds c) ++ u_ "`";
    u_ "- Max Tokens: `" ++ str_of_int (max_tokens c) ++ u_ "`";
    u_ "- Temperature: `" ++ str_of_float (temperature c) ++ u_ "`";
    u_ "- 请求间隔(s): `" ++ str_of_float (pause_seconds c) ++ u_ "`";
    u_ "- 成功次数: `" ++ str_of_int (success_count s) ++ u_ "`";
    u_ "- 失败次数: `" ++ str_of_int (failure_count s) ++ u_ "`";
    u_ "- 模型可用性: `" ++ fmt2 (availability s) ++ u_ "%`";
    u_ "- 总耗时(s): `" ++ fmt3 (total_runtime s) ++ u_ "`";
    u_ "- 平均耗时(s): `" ++ optional_seconds (avg_duration s) ++ u_ "`";
    u_ "- 最快耗时(s): `" ++ optional_seconds (fastest s) ++ u_ "`";
    u_ "- 最慢耗时(s): `" ++ optional_seconds (slowest s) ++ u_ "`" ].

(** The bullet added when the error message is not empty. *)
Definition error_bullet (a : report_args) : list str :=
  match r_error_message a with
  | [] => []
  | _ :: _ => [u_ "- 错误信息: `" ++ safe_markdown_text (r_error_message a) ++ u_ "`"]
  end.

Definition table_head : list str :=
  [ [];
    detail_header;
    [];
    u_ "| 请求序号 | 状态 | 耗时(s) | 输出字符数 | 错误信息 |";
    u_ "|---|---|---:|---:|---|" ].

Definition empty_row : str := u_ "| - | - | - | - | 无请求执行 |".

(** The row of one result. *)
Definition result_row (item : RequestResult) : str :=
  let state := if ok item then u_ "SUCCESS" else u_ "FAILED" in
  let err_text :=
    match error item with
    | [] => u_ "-"
    | _ :: _ => safe_markdown_text (error item)
    end in
  u_ "| " ++ str_of_int (index item) ++ u_ " | " ++ state ++ u_ " | "
  ++ fmt3 (duration item) ++ u_ " | " ++ str_of_int (chars item) ++ u_ " | "
  ++ err_text ++ u_ " |".

Definition table_rows (a : report_args) : list str :=
  match r_results a with
  | [] => [empty_row]
  | _ :: _ => map result_row (r_results a)
  end.

Definition build_report_lines (a : report_args) : list str :=
  [report_title; []] ++ report_bullets a ++ error_bullet a ++ table_head
  ++ table_rows a.

End Report.

(** The lines [main] adds to the summary when a request failed. *)
Definition failed_request_details (a : report_args) : list str :=
  if 0 <? failure_count (r_summary a)
  then [[]; u_ "### Failed request details"]
       ++ map (fun item => u_ "- Request " ++ str_of_int (index item) ++ u_ ": "
                           ++ safe_markdown_text (error item))
              (filter (fun x => ok x = false) (r_results a))
  else [].

(** A line that starts with a dash, as every bullet does. *)
Definition starts_with_dash (line : str) : Prop := head line = Some 45%N.

(** Example data for the report: a run with one success and one failure
    whose message has a bar and a line feed. *)
Definition mixed_results : list RequestResult :=
  [ {| index := 1; ok := true; duration := 1%Q; chars := 12; error := [] |};
    {| index := 2; ok := false; duration := 1%Q; chars := 0;
       error := u_ "a|b" ++ [LF] ++ u_ "c" |} ].

Definition mixed_args : report_args :=
  {| r_config := sk_config;
     r_summary := summarize mixed_results 3%Q;
     r_results := mixed_results;
     r_status := PARTIAL_SUCCESS;
     r_error_message := [] |}.

(** The names of the settings read with [env_str], and of those read
    with [env_int] and [env_float]. *)
Definition STRING_SETTINGS : list str :=
  [u_ "OPENAI_API_URL"; u_ "OPENAI_API_KEY"; u_ "OPENAI_MODEL"; u_ "OPENAI_PROMPT"].

Definition NUMERIC_SETTINGS : list str :=
  [u_ "OPENAI_REQUEST_COUNT"; u_ "OPENAI_REQUEST_TIMEOUT_SECONDS";
   u_ "OPENAI_MAX_RUNTIME_SECONDS"; u_ "OPENAI_MAX_TOKENS";
   u_ "OPENAI_REQUEST_PAUSE_SECONDS"; u_ "OPENAI_TEMPERATURE"].

(** A world like [healthy_world] where the token limit is set to the
    empty string. *)
Definition empty_tokens_world : world :=
  example_world (fun _ _ _ => Responds hi_response)
    (<[u_ "OPENAI_MAX_TOKENS" := []]> (<[KEY_NAME := u_ "sk-test"]> ∅)).

(** A world like [healthy_world] whose target document holds [text]. *)
Definition document_world (text : str) : world :=
  set_files (<[DEFAULT_README := text]> ∅) healthy_world.

(** What [time.sleep] raises for a pause beyond the time range of the
    platform, and a world whose host refuses every pause and whose
    environment asks for a pause of [1e30] seconds. *)
Definition pause_refused : exn :=
  Eval vm_compute in
    OtherError (u_ "OverflowError")
      (u_ "timestamp too large to convert to C _PyTime_t").

Definition impatient_world : world :=
  {| clock := fun n => inject_Z (Z.of_nat n); ticks := O;
     transport := fun _ _ _ => Responds hi_response;
     sleep_error := fun _ => Some pause_refused;
     sent := []; slept := []; files := ∅;
     environ := <[u_ "OPENAI_REQUEST_PAUSE_SECONDS" := u_ "1e30"]>
                  (<[KEY_NAME := u_ "sk-test"]> ∅) |}.

(** * Properties *)

Lemma str_eqb_eq a b : str_eqb a b = true <-> a = b.
Proof. unfold str_eqb. apply bool_decide_eq_true. Qed.

Lemma str_eqb_refl a : str_eqb a a = true.
Proof. by apply str_eqb_eq. Qed.

Example utf8_ascii : u_ "data:" = [100; 97; 116; 97; 58]%N.
Proof. reflexivity. Qed.

Example utf8_truncated : decode_utf8_replace [Byte.xe2; Byte.x82] = [REPLACEMENT].
Proof. reflexivity. Qed.

Example utf8_three_bytes : decode_utf8_replace [Byte.xe2; Byte.x82; Byte.xac] = [8364%N].
Proof. reflexivity. Qed.

Example str_of_int_ex : str_of_int 1203 = u_ "1203" /\ str_of_int (-7) = u_ "-7" /\ str_of_int 0 = u_ "0".
Proof. repeat split; reflexivity. Qed.

Example loads_chunk :
  json_loads (uq_ "{'choices':[{'delta':{'content':'Hi'}}]}")
  = Some (JObj [(u_ "choices",
                 JArr [JObj [(u_ "delta", JObj [(u_ "content", JStr (u_ "Hi"))])]])]).
Proof. vm_compute. reflexivity. Qed.

Example loads_samples :
  json_loads (u_ "") = None
  /\ json_loads (u_ "5") = Some (JInt 5)
  /\ json_loads (u_ "[1]") = Some (JArr [JInt 1])
  /\ json_loads (u_ " [1 , 2.50e1 ,null, true ] ") =
       Some (JArr [JInt 1; JFloat (FDec false 250 (-1)); JNull; JBool true])
  /\ json_loads (u_ "01") = None
  /\ json_loads (u_ "[1,]") = None
  /\ json_loads (u_ "{bad") = None
  /\ json_loads (uq_ "{'a':1,'a':2}") = Some (JObj [(u_ "a", JInt 1); (u_ "a", JInt 2)])
  /\ json_loads (uq_ "'😀\n'") = Some (JStr [128512%N; 10%N])
  /\ json_loads (u_ "-Infinity") = Some (JFloat (FInf true))
  /\ json_loads (u_ "1e-400") = Some (JFloat (FDec false 1 (-400)))
  /\ truthy (JFloat (FDec false 1 (-400))) = false
  /\ truthy (JFloat (FDec false 1 (-300))) = true.
Proof. vm_compute. repeat split; reflexivity. Qed.

Example decode_hi :
  parse_sse_stream
    (of_body (q_ ("data: {'choices':[{'delta':{'content':'Hi'}}]}" ++ NL ++ NL
                  ++ "data: [DONE]" ++ NL ++ NL)))
  = (inr (u_ "Hi"), [u_ "Hi"]).
Proof. vm_compute. reflexivity. Qed.

Example decode_non_object :
  fst (parse_sse_stream (of_lines [b_ "data: 5"]))
  = inl (AttributeError (u_ "'int' object has no attribute 'get'")).
Proof. vm_compute. reflexivity. Qed.

Example request_without_scheme :
  Urllib.has_url_type (u_ "") = false
  /\ Urllib.has_url_type (u_ "api.openai.com/v1/chat/completions") = false
  /\ Urllib.has_url_type (u_ "https://api.openai.com/v1/chat/completions") = true.
Proof. vm_compute. repeat split; reflexivity. Qed.

Example new_content_example :
  new_content doc_example [u_ "new"]
  = u_ "# Title" ++ [LF; LF] ++ u_ "footer" ++ [LF; LF] ++ README_RESULT_START
    ++ [LF] ++ u_ "new" ++ [LF] ++ README_RESULT_END ++ [LF].
Proof. vm_compute. reflexivity. Qed.

(** ** The stream decoder *)

Lemma sentinel_not_json : json_loads SENTINEL = None.
Proof. vm_compute. reflexivity. Qed.

Lemma frame_step_not_frame line :
  frame_payload line = None -> frame_step line = Skip.
Proof.
  unfold frame_payload, frame_step.
  destruct (startswith _ _); [discriminate | reflexivity].
Qed.

Lemma frame_step_sentinel line :
  is_sentinel line = true -> frame_step line = Done.
Proof.
  unfold is_sentinel, frame_payload, frame_step.
  destruct (startswith _ _); simpl; [| discriminate].
  unfold SENTINEL. intros ->. reflexivity.
Qed.

(** A frame whose payload is not the sentinel goes to [json.loads]. *)
Lemma frame_step_payload line p :
  frame_payload line = Some p -> str_eqb p SENTINEL = false ->
  frame_step line =
    match json_loads p with
    | None => Skip
    | Some payload =>
      match py_get payload (u_ "choices") (JArr []) with
      | inl e => Raise e
      | inr choices =>
        if negb (truthy choices) then Skip
        else
          match py_item0 choices with
          | inl e => Raise e
          | inr first =>
            match py_get first (u_ "delta") (JObj []) with
            | inl e => Raise e
            | inr delta =>
              match py_get delta (u_ "content") JNull with
              | inl e => Raise e
              | inr (JStr (c :: t)) => Emit (c :: t)
              | inr _ => Skip
              end
            end
          end
      end
    end.
Proof.
  unfold frame_payload, frame_step.
  destruct (startswith _ _); simpl; [| discriminate].
  intros [= <-]. unfold SENTINEL. intros ->. reflexivity.
Qed.

Lemma frame_step_malformed line p :
  frame_payload line = Some p -> str_eqb p SENTINEL = false ->
  json_loads p = None -> frame_step line = Skip.
Proof.
  intros Hp Hs Hj. rewrite (frame_step_payload _ _ Hp Hs), Hj. reflexivity.
Qed.

(** On a well-shaped frame the loop body does what the specification
    says; on any other frame it raises. *)
Lemma frame_step_shaped line p :
  frame_payload line = Some p -> str_eqb p SENTINEL = false ->
  if well_shaped line
  then frame_step line = match spec_frame_token line with
                         | Some t => Emit t
                         | None => Skip
                         end
  else exists e, frame_step line = Raise e.
Proof.
  intros Hp Hs. rewrite (frame_step_payload _ _ Hp Hs).
  unfold well_shaped, spec_frame_token. rewrite Hp.
  destruct (json_loads p) as [v|]; [| reflexivity].
  destruct v as [| b | z | f | s | items | kvs]; simpl; eauto.
  unfold spec_content. simpl.
  destruct (dict_get (u_ "choices") kvs) as [choices|]; [| reflexivity].
  destruct (truthy choices) eqn:Ht; simpl.
  - destruct choices as [| b | z | f | s | items | kvs']; simpl in *; eauto;
      try discriminate.
    + destruct s; simpl; eauto.
    + destruct items as [| first items]; [discriminate |].
      destruct first as [| b | z | f | s | items' | first]; simpl; eauto.
      destruct (dict_get (u_ "delta") first) as [delta|]; [| reflexivity].
      destruct delta as [| b | z | f | s | items' | d]; simpl; eauto.
      destruct (dict_get (u_ "content") d) as [token|]; [| reflexivity].
      destruct token as [| b | z | f | [| c t] | items' | d']; reflexivity.
  - destruct choices as [| b | z | f | s | items | kvs']; simpl in *;
      try reflexivity; try discriminate.
    destruct items; [reflexivity | discriminate].
Qed.

#[global] Arguments frame_step : simpl never.
#[global] Arguments frame_payload : simpl never.
#[global] Arguments is_sentinel : simpl never.
#[global] Arguments well_shaped : simpl never.
#[global] Arguments spec_frame_token : simpl never.

Lemma is_sentinel_false line p :
  frame_payload line = Some p -> is_sentinel line = false ->
  str_eqb p SENTINEL = false.
Proof. unfold is_sentinel. intros ->. trivial. Qed.

(** One iteration on a line that was read and is not the sentinel. *)
Lemma frame_step_live line :
  is_sentinel line = false ->
  if well_shaped line
  then frame_step line = match spec_frame_token line with
                         | Some t => Emit t
                         | None => Skip
                         end
  else exists e, frame_step line = Raise e.
Proof.
  intros Hs. destruct (frame_payload line) as [p|] eqn:Hp.
  - apply (frame_step_shaped line p Hp). eapply is_sentinel_false; eauto.
  - unfold well_shaped, spec_frame_token. rewrite Hp.
    apply frame_step_not_frame, Hp.
Qed.

Lemma parse_loop_shaped ls : forall full_text printed,
  Forall (fun l => well_shaped l = true) (spec_live_lines ls) ->
  parse_loop (of_lines ls) full_text printed
  = (inr (concat (full_text ++ spec_tokens ls)), printed ++ spec_tokens ls).
Proof.
  unfold spec_tokens.
  induction ls as [| l r IH]; intros ft pr Hall; simpl.
  - by rewrite !app_nil_r.
  - destruct l as [| b l']; simpl in *.
    { by rewrite !app_nil_r. }
    destruct (is_sentinel (b :: l')) eqn:Hs.
    { rewrite (frame_step_sentinel _ Hs). simpl. by rewrite !app_nil_r. }
    inversion Hall as [| ? ? Hw Hall']; subst.
    pose proof (frame_step_live _ Hs) as Hstep. rewrite Hw in Hstep.
    rewrite Hstep. simpl.
    destruct (spec_frame_token (b :: l')) as [t|].
    + rewrite (IH _ _ Hall'). by rewrite <- !app_assoc.
    + apply IH, Hall'.
Qed.

Lemma parse_loop_ill_shaped ls : forall full_text printed,
  Exists (fun l => well_shaped l = false) (spec_live_lines ls) ->
  exists e, fst (parse_loop (of_lines ls) full_text printed) = inl e.
Proof.
  induction ls as [| l r IH]; intros ft pr Hex; simpl in *.
  - inversion Hex.
  - destruct l as [| b l']; [inversion Hex |].
    destruct (is_sentinel (b :: l')) eqn:Hs; [inversion Hex |].
    pose proof (frame_step_live _ Hs) as Hstep.
    destruct (well_shaped (b :: l')) eqn:Hw.
    + rewrite Hstep.
      assert (Hr : Exists (fun l => well_shaped l = false) (spec_live_lines r)).
      { inversion Hex; subst; [congruence | assumption]. }
      destruct (spec_frame_token (b :: l')); apply IH, Hr.
    + destruct Hstep as [e ->]. eauto.
Qed.

(** ** C1 *)

(** C1, as amended.  For every sequence of lines in which each [data:]
    payload that parses as JSON, before the sentinel or the end of input,
    is an object of the chunk shape, the decoder returns the
    concatenation, in arrival order, of the non-empty
    [choices[0].delta.content] strings of those frames, and has printed
    them one by one; on any other sequence it raises.  The body with the
    single token [Hi] decodes to [Hi], and the empty stream to the empty
    string. *)
Theorem C1_decoder_returns_concatenation :
  (forall ls : list bytes,
     Forall (fun l => well_shaped l = true) (spec_live_lines ls) ->
     parse_sse_stream (of_lines ls) = (inr (spec_text ls), spec_tokens ls))
  /\ (forall ls : list bytes,
        Exists (fun l => well_shaped l = false) (spec_live_lines ls) ->
        exists e, fst (parse_sse_stream (of_lines ls)) = inl e)
  /\ parse_sse_stream (of_body hi_body) = (inr (u_ "Hi"), [u_ "Hi"])
  /\ parse_sse_stream [] = (inr [], []).
Proof.
  split; [| split; [| split]].
  - intros ls Hall. unfold parse_sse_stream, spec_text.
    by rewrite (parse_loop_shaped ls [] [] Hall).
  - intros ls Hex. apply parse_loop_ill_shaped, Hex.
  - vm_compute. reflexivity.
  - reflexivity.
Qed.

Lemma C1_witness :
  parse_sse_stream (of_lines (body_lines hi_body))
  = (inr (spec_text (body_lines hi_body)), spec_tokens (body_lines hi_body)).
Proof.
  apply (proj1 C1_decoder_returns_concatenation).
  set (live := spec_live_lines (body_lines hi_body)).
  vm_compute in live. subst live.
  repeat (constructor; [vm_compute; reflexivity |]).
  constructor.
Defined.

(** The claim as stated fails on a frame whose payload is the JSON number
    5: no frame carries a token, so the text promised is empty, but the
    decoder raises instead of returning it. *)
Lemma C1_counterexample :
  spec_text [b_ "data: 5"] = []
  /\ fst (parse_sse_stream (of_lines [b_ "data: 5"]))
     = inl (AttributeError (u_ "'int' object has no attribute 'get'"))
  /\ fst (parse_sse_stream (of_lines [b_ "data: 5"])) <> inr (spec_text [b_ "data: 5"]).
Proof.
  split; [| split].
  - vm_compute. reflexivity.
  - vm_compute. reflexivity.
  - vm_compute. discriminate.
Qed.

(** ** C2 *)

Lemma frame_payload_nil : frame_payload [] = None.
Proof. vm_compute. reflexivity. Qed.

Lemma parse_loop_cons b l rest full_text printed :
  parse_loop (inr (b :: l) :: rest) full_text printed =
  match frame_step (b :: l) with
  | Skip => parse_loop rest full_text printed
  | Emit token => parse_loop rest (full_text ++ [token]) (printed ++ [token])
  | Done => (inr (concat full_text), printed)
  | Raise e => (inl e, printed)
  end.
Proof. reflexivity. Qed.

Lemma parse_loop_skip line rest full_text printed :
  line <> [] -> frame_step line = Skip ->
  parse_loop (inr line :: rest) full_text printed = parse_loop rest full_text printed.
Proof.
  intros Hne Hs. destruct line as [| b l]; [congruence |].
  by rewrite parse_loop_cons, Hs.
Qed.

Lemma parse_loop_insert_skip line pre post : forall full_text printed,
  line <> [] -> frame_step line = Skip ->
  parse_loop (pre ++ inr line :: post) full_text printed
  = parse_loop (pre ++ post) full_text printed.
Proof.
  intros ft pr Hne Hs. revert ft pr.
  induction pre as [| x pre IH]; intros ft pr; simpl app.
  - by apply parse_loop_skip.
  - destruct x as [e | [| b l]]; try reflexivity.
    rewrite !parse_loop_cons. destruct (frame_step (b :: l)); auto.
Qed.

(** C2.  A [data:] line whose payload is not the sentinel (which is tested
    before any parsing) and fails JSON parsing is skipped by the loop body
    without an exception, and the decoder gives, with the line, the
    result, the accumulated tokens and the output it gives without it:
    decoding goes on with the next line.  In particular, when the lines
    around it are well formed, the decoder returns, and what it returns
    and has written are the tokens of the frames before and after the
    line, all of them and in arrival order.  The empty payload is such a
    payload. *)
Theorem C2_malformed_frame_is_skipped
    (pre post : line_source) (line : bytes) (p : str)
    (Hframe : frame_payload line = Some p)
    (Hnot_sentinel : p <> SENTINEL)
    (Hbad : json_loads p = None) :
  frame_step line = Skip
  /\ (forall full_text printed,
        parse_loop (pre ++ inr line :: post) full_text printed
        = parse_loop (pre ++ post) full_text printed)
  /\ parse_sse_stream (pre ++ inr line :: post) = parse_sse_stream (pre ++ post)
  /\ json_loads [] = None
  /\ (forall before after : list bytes,
        Forall (fun l => well_shaped l = true) (spec_live_lines (before ++ after)) ->
        parse_sse_stream (of_lines (before ++ line :: after))
        = (inr (concat (spec_tokens (before ++ after))),
           spec_tokens (before ++ after))).
Proof.
  assert (Hs : str_eqb p SENTINEL = false).
  { destruct (str_eqb p SENTINEL) eqn:E; [| reflexivity].
    apply str_eqb_eq in E. contradiction. }
  assert (Hne : line <> []).
  { intros ->. rewrite frame_payload_nil in Hframe. discriminate. }
  pose proof (frame_step_malformed line p Hframe Hs Hbad) as Hskip.
  split; [exact Hskip |]. split; [| split; [| split; [reflexivity |]]].
  - intros. by apply parse_loop_insert_skip.
  - unfold parse_sse_stream. by apply parse_loop_insert_skip.
  - intros before after Hall. unfold parse_sse_stream, of_lines.
    rewrite map_app. cbn [map].
    rewrite (parse_loop_insert_skip line (map inr before) (map inr after))
      by assumption.
    rewrite <- map_app. fold (of_lines (before ++ after)).
    by rewrite parse_loop_shaped.
Qed.

Lemma C2_witness :
  frame_step (b_ "data: {oops") = Skip
  /\ parse_sse_stream (of_lines ([hi_line] ++ b_ "data: {oops" :: [hi_line]))
     = (inr (u_ "HiHi"), [u_ "Hi"; u_ "Hi"]).
Proof.
  destruct (C2_malformed_frame_is_skipped [] [] (b_ "data: {oops") (u_ "{oops"))
    as (Hskip & _ & _ & _ & Htokens).
  - vm_compute. reflexivity.
  - vm_compute. discriminate.
  - vm_compute. reflexivity.
  - split; [exact Hskip |].
    etrans; [apply (Htokens [hi_line] [hi_line]) |].
    + set (live := spec_live_lines ([hi_line] ++ [hi_line])).
      vm_compute in live. subst live.
      repeat (constructor; [vm_compute; reflexivity |]). constructor.
    + vm_compute. reflexivity.
Defined.

Example malformed_then_valid :
  parse_sse_stream (of_lines [b_ "data: {oops"; b_ "data:"; hi_line]) = (inr (u_ "Hi"), [u_ "Hi"]).
Proof. vm_compute. reflexivity. Qed.

(** ** The request executor *)

Lemma run_single_request_no_request idx total api_url api_key model prompt
    timeout max_tokens temperature w e :
  make_request api_url api_key model prompt max_tokens temperature = inl e ->
  run_single_request idx total api_url api_key model prompt timeout max_tokens
    temperature w = (inl e, w).
Proof. unfold run_single_request. by intros ->. Qed.

(** When the [try] block is left by an exception, the handlers decide. *)
Lemma run_single_request_raised idx total api_url api_key model prompt
    timeout max_tokens temperature w req e w2 :
  make_request api_url api_key model prompt max_tokens temperature = inr req ->
  attempt idx req timeout (clock w (ticks w)) (snd (perf_counter w)) = (inl e, w2) ->
  run_single_request idx total api_url api_key model prompt timeout max_tokens
    temperature w = handle idx (clock w (ticks w)) e w2.
Proof.
  unfold run_single_request. intros -> Ha. simpl. simpl in Ha. by rewrite Ha.
Qed.

Lemma attempt_raises idx req timeout started w e :
  transport w (length (sent w)) req timeout = Raises e ->
  attempt idx req timeout started w = (inl e, snd (urlopen req timeout w)).
Proof. unfold attempt. simpl. by intros ->. Qed.

Lemma attempt_bad_status idx req timeout started w resp raw :
  transport w (length (sent w)) req timeout = Responds resp ->
  status resp <> 200 -> read_all resp = inr raw ->
  attempt idx req timeout started w
  = (inl (RuntimeError (u_ "HTTP " ++ str_of_int (status resp) ++ u_ ": "
                        ++ decode_utf8_replace raw)),
     snd (urlopen req timeout w)).
Proof.
  unfold attempt. simpl. intros -> Hs ->.
  destruct (Z.eqb_spec (status resp) 200); [contradiction | reflexivity].
Qed.

Lemma attempt_stream_raises idx req timeout started w resp e :
  transport w (length (sent w)) req timeout = Responds resp ->
  status resp = 200 -> fst (parse_sse_stream (read_lines resp)) = inl e ->
  attempt idx req timeout started w = (inl e, snd (urlopen req timeout w)).
Proof.
  unfold attempt. simpl. intros -> -> ->. reflexivity.
Qed.

Lemma attempt_success idx req timeout started w resp text :
  transport w (length (sent w)) req timeout = Responds resp ->
  status resp = 200 -> fst (parse_sse_stream (read_lines resp)) = inr text ->
  attempt idx req timeout started w
  = (inr {| index := idx; ok := true;
            duration := (clock w (ticks w) - started)%Q;
            chars := py_len text; error := [] |},
     snd (perf_counter (snd (urlopen req timeout w)))).
Proof.
  unfold attempt. simpl. intros -> -> ->. reflexivity.
Qed.

(** Every result the executor returns carries the index it was given. *)
Lemma run_single_request_index idx total api_url api_key model prompt
    timeout max_tokens temperature w r w' :
  run_single_request idx total api_url api_key model prompt timeout max_tokens
    temperature w = (inr r, w') ->
  index r = idx.
Proof.
  unfold run_single_request.
  destruct (make_request _ _ _ _ _ _) as [e | req]; [discriminate |].
  simpl. unfold attempt. simpl.
  destruct (transport w (length (sent w)) req timeout) as [e | resp].
  - unfold handle. destruct e as [code reason [e' | raw] | | | | | | | | |]; simpl;
      intros [= <- <-]; reflexivity.
  - destruct (negb (status resp =? 200)).
    + destruct (read_all resp) as [e | raw].
      * unfold handle. destruct e as [code reason [e' | raw] | | | | | | | | |];
          simpl; intros [= <- <-]; reflexivity.
      * simpl. intros [= <- <-]; reflexivity.
    + destruct (fst (parse_sse_stream (read_lines resp))) as [e | text].
      * unfold handle. destruct e as [code reason [e' | raw] | | | | | | | | |];
          simpl; intros [= <- <-]; reflexivity.
      * simpl. intros [= <- <-]; reflexivity.
Qed.

(** ** C3 *)

Lemma make_request_empty_url api_key model prompt max_tokens temperature :
  make_request [] api_key model prompt max_tokens temperature
  = inl (ValueError (u_ "unknown url type: ''")).
Proof. reflexivity. Qed.

(** C3: the executor can raise.  With the empty string as URL the
    constructor of the request, which is called before the [try], raises
    [ValueError] for every index, configuration, prompt and world; and
    when the transport raises an HTTP error whose body cannot be read, the
    exception raised inside the handler leaves the function. *)
Theorem C3_executor_can_raise :
  (forall idx total api_key model prompt timeout max_tokens temperature w,
     run_single_request idx total [] api_key model prompt timeout max_tokens
       temperature w
     = (inl (ValueError (u_ "unknown url type: ''")), w))
  /\ fst (run_single_request 1 5 DEFAULT_API_URL (u_ "sk-test") DEFAULT_MODEL
            DEFAULT_PROMPT 120 128 (1 # 10)%Q
            (example_world (fun _ _ _ => unreadable_http_error) ∅))
     = inl (Timeout (u_ "timed out")).
Proof.
  split.
  - intros. apply run_single_request_no_request, make_request_empty_url.
  - vm_compute. reflexivity.
Qed.

(** ** C8 *)

(** C8, as amended.  When the response has a status other than 200 and
    its body can be read, the executor reads the body and returns a
    failed result.  For a response returned by [urlopen] the message is
    [Unexpected error: HTTP <status>: <body>], which has the prefix of the
    unexpected errors; for an [HTTPError] raised by [urlopen] it is
    [HTTPError <code>: <body>], whose prefix differs from those of the
    transport errors and of the unexpected errors. *)
Theorem C8_http_failure_message
    (idx total : Z) (api_url api_key model prompt : str)
    (timeout max_tokens : Z) (temperature : Q) (w : world)
    (req : http_request) (o : outcome) (msg : str)
    (Hreq : make_request api_url api_key model prompt max_tokens temperature = inr req)
    (Hout : transport w (length (sent w)) req timeout = o)
    (Hmsg : protocol_failure_message o = Some msg) :
  fst (run_single_request idx total api_url api_key model prompt timeout
         max_tokens temperature w)
  = inr (failed idx (measured w) msg)
  /\ match o with
     | Responds _ => startswith msg (u_ "Unexpected error: HTTP ") = true
     | Raises _ =>
       startswith msg (u_ "HTTPError ") = true
       /\ startswith msg (u_ "Network/Timeout error: ") = false
       /\ startswith msg (u_ "Unexpected error: ") = false
     end.
Proof.
  destruct o as [e | resp]; simpl in Hmsg.
  - destruct e as [code reason [e' | raw] | | | | | | | | |]; try discriminate.
    injection Hmsg as <-. split; [| repeat split; reflexivity].
    rewrite (run_single_request_raised _ _ _ _ _ _ _ _ _ _ _ _ _ Hreq
               (attempt_raises idx req timeout _ (snd (perf_counter w)) _ Hout)).
    reflexivity.
  - destruct (Z.eqb_spec (status resp) 200) as [| Hs]; [discriminate |].
    destruct (read_all resp) as [e | raw] eqn:Hr; [discriminate |].
    injection Hmsg as <-. split; [| reflexivity].
    rewrite (run_single_request_raised _ _ _ _ _ _ _ _ _ _ _ _ _ Hreq
               (attempt_bad_status idx req timeout _ (snd (perf_counter w)) _ _
                  Hout Hs Hr)).
    reflexivity.
Qed.

Lemma C8_witness :
  fst (run_single_request 1 5 DEFAULT_API_URL (u_ "sk-test") DEFAULT_MODEL
         DEFAULT_PROMPT 120 128 (1 # 10)%Q
         (example_world (fun _ _ _ => Responds created_response) ∅))
  = inr (failed 1 (measured (example_world (fun _ _ _ => Responds created_response) ∅))
           (u_ "Unexpected error: HTTP 201: created"))
  /\ startswith (u_ "Unexpected error: HTTP 201: created")
       (u_ "Unexpected error: HTTP ") = true.
Proof.
  apply (C8_http_failure_message 1 5 DEFAULT_API_URL (u_ "sk-test") DEFAULT_MODEL
           DEFAULT_PROMPT 120 128 (1 # 10)%Q
           (example_world (fun _ _ _ => Responds created_response) ∅)
           example_request (Responds created_response)).
  - vm_compute. reflexivity.
  - reflexivity.
  - vm_compute. reflexivity.
Defined.

(** The claim as stated fails on a response with status 201: the message
    is not [HTTP 201: created] and it starts with the prefix of the
    unexpected errors. *)
Lemma C8_counterexample :
  exists r,
    fst (run_single_request 1 5 DEFAULT_API_URL (u_ "sk-test") DEFAULT_MODEL
           DEFAULT_PROMPT 120 128 (1 # 10)%Q
           (example_world (fun _ _ _ => Responds created_response) ∅)) = inr r
    /\ ok r = false
    /\ error r <> u_ "HTTP 201: created"
    /\ startswith (error r) (u_ "Unexpected error: ") = true.
Proof.
  eexists. split; [vm_compute; reflexivity |].
  split; [reflexivity |]. split; [vm_compute; discriminate | vm_compute; reflexivity].
Qed.

(** ** C10 *)

Lemma parse_loop_raise_after pre : forall line post e full_text printed,
  forallb passes pre = true -> line <> [] -> frame_step line = Raise e ->
  fst (parse_loop (pre ++ inr line :: post) full_text printed) = inl e.
Proof.
  induction pre as [| x pre IH]; intros line post e ft pr Hp Hne Hr; simpl app.
  - destruct line as [| b l]; [congruence |].
    by rewrite parse_loop_cons, Hr.
  - simpl in Hp. apply andb_prop in Hp as [Hx Hp].
    destruct x as [e' | [| b l]]; try discriminate.
    rewrite parse_loop_cons. unfold passes in Hx.
    destruct (frame_step (b :: l)); try discriminate; by apply IH.
Qed.

Lemma frame_step_non_object line p v :
  frame_payload line = Some p -> json_loads p = Some v -> is_object v = false ->
  frame_step line = Raise (AttributeError (no_get_message v)).
Proof.
  intros Hp Hv Hobj.
  assert (Hs : str_eqb p SENTINEL = false).
  { destruct (str_eqb p SENTINEL) eqn:E; [| reflexivity].
    apply str_eqb_eq in E. subst p. rewrite sentinel_not_json in Hv. discriminate. }
  rewrite (frame_step_payload _ _ Hp Hs), Hv.
  destruct v; try discriminate; reflexivity.
Qed.

(** C10.  When the payload of a [data:] line parses as JSON but is not an
    object, the loop body raises [AttributeError]; the decoder raises it
    when it reaches the line; and the executor, given a response with
    status 200 whose body has the line after lines that the loop passes,
    returns a failed result whose message is [Unexpected error: ] followed
    by the text of the exception. *)
Theorem C10_non_object_payload_raises
    (line : bytes) (p : str) (v : json)
    (pre post : line_source)
    (idx total : Z) (api_url api_key model prompt : str)
    (timeout max_tokens : Z) (temperature : Q) (w : world)
    (req : http_request) (resp : http_response)
    (Hframe : frame_payload line = Some p)
    (Hjson : json_loads p = Some v)
    (Hnot_object : is_object v = false)
    (Hpre : forallb passes pre = true)
    (Hreq : make_request api_url api_key model prompt max_tokens temperature = inr req)
    (Hout : transport w (length (sent w)) req timeout = Responds resp)
    (Hstatus : status resp = 200)
    (Hbody : read_lines resp = pre ++ inr line :: post) :
  frame_step line = Raise (AttributeError (no_get_message v))
  /\ fst (parse_sse_stream (pre ++ inr line :: post))
     = inl (AttributeError (no_get_message v))
  /\ fst (run_single_request idx total api_url api_key model prompt timeout
            max_tokens temperature w)
     = inr (failed idx (measured w) (u_ "Unexpected error: " ++ no_get_message v)).
Proof.
  pose proof (frame_step_non_object _ _ _ Hframe Hjson Hnot_object) as Hstep.
  assert (Hne : line <> []).
  { intros ->. rewrite frame_payload_nil in Hframe. discriminate. }
  assert (Hdec : fst (parse_sse_stream (pre ++ inr line :: post))
                 = inl (AttributeError (no_get_message v))).
  { unfold parse_sse_stream. by apply parse_loop_raise_after. }
  repeat split; try assumption.
  rewrite <- Hbody in Hdec.
  rewrite (run_single_request_raised _ _ _ _ _ _ _ _ _ _ _ _ _ Hreq
             (attempt_stream_raises idx req timeout _ (snd (perf_counter w)) _ _
                Hout Hstatus Hdec)).
  reflexivity.
Qed.

Lemma C10_witness :
  frame_step (b_ "data: 5") = Raise (AttributeError (no_get_message (JInt 5)))
  /\ fst (parse_sse_stream ([inr hi_line] ++ inr (b_ "data: 5") :: []))
     = inl (AttributeError (no_get_message (JInt 5)))
  /\ fst (run_single_request 1 5 DEFAULT_API_URL (u_ "sk-test") DEFAULT_MODEL
            DEFAULT_PROMPT 120 128 (1 # 10)%Q
            (example_world (fun _ _ _ => Responds number_response) ∅))
     = inr (failed 1 (measured (example_world (fun _ _ _ => Responds number_response) ∅))
              (u_ "Unexpected error: " ++ no_get_message (JInt 5))).
Proof.
  apply (C10_non_object_payload_raises (b_ "data: 5") (u_ "5") (JInt 5)
           [inr hi_line] [] 1 5 DEFAULT_API_URL (u_ "sk-test") DEFAULT_MODEL
           DEFAULT_PROMPT 120 128 (1 # 10)%Q
           (example_world (fun _ _ _ => Responds number_response) ∅)
           example_request number_response).
  - vm_compute. reflexivity.
  - vm_compute. reflexivity.
  - reflexivity.
  - vm_compute. reflexivity.
  - vm_compute. reflexivity.
  - reflexivity.
  - reflexivity.
  - reflexivity.
Defined.

Example non_object_frames :
  fst (parse_sse_stream (of_lines [b_ "data: [1]"]))
    = inl (AttributeError (u_ "'list' object has no attribute 'get'"))
  /\ fst (parse_sse_stream (of_lines [b_ "data: {bad"; b_ "data: 5"]))
    = inl (AttributeError (u_ "'int' object has no attribute 'get'"))
  /\ (exists r,
        fst (run_single_request 1 5 DEFAULT_API_URL (u_ "sk-test") DEFAULT_MODEL
               DEFAULT_PROMPT 120 128 (1 # 10)%Q
               (example_world (fun _ _ _ => Responds number_response) ∅)) = inr r
        /\ ok r = false
        /\ error r = u_ "Unexpected error: 'int' object has no attribute 'get'").
Proof.
  split; [vm_compute; reflexivity |]. split; [vm_compute; reflexivity |].
  eexists. split; [vm_compute; reflexivity |]. split; vm_compute; reflexivity.
Qed.

(** ** C9 *)

(** C9: where the code departs from the claim.  A string setting that is
    absent resolves to its default, but one that is set to the empty
    string resolves to the empty string: with [OPENAI_MODEL] set to the
    empty string the resolved model is empty, not the default. *)
Theorem C9_empty_string_setting_is_kept :
  (forall w name default,
     getenv w name = None -> env_str w name (Some default) false = inr default)
  /\ (forall w name default,
        getenv w name = Some [] -> env_str w name (Some default) false = inr [])
  /\ (forall py_int py_float,
        let w := example_world (fun _ _ _ => Raises (URLError [])) env_empty_model in
        exists c, resolve_config py_int py_float w initial_config = (None, c)
                  /\ model c = [] /\ model c <> DEFAULT_MODEL).
Proof.
  split; [| split].
  - intros w name default H. unfold env_str. by rewrite H.
  - intros w name default H. unfold env_str. by rewrite H.
  - intros py_int py_float w. eexists. split; [vm_compute; reflexivity |].
    split; [reflexivity | vm_compute; discriminate].
Qed.

Lemma C9_witness :
  env_str (example_world (fun _ _ _ => Raises (URLError [])) env_empty_model)
    (u_ "OPENAI_MODEL") (Some DEFAULT_MODEL) false = inr [].
Proof.
  apply (proj1 (proj2 C9_empty_string_setting_is_kept)).
  vm_compute. reflexivity.
Defined.

(** ** The run: [main] *)

Lemma env_str_optional w name default :
  env_str w name (Some default) false
  = inr (match getenv w name with Some v => v | None => default end).
Proof. unfold env_str. by destruct (getenv w name). Qed.

Lemma env_str_required_missing w name :
  getenv w name = None \/ getenv w name = Some [] ->
  env_str w name None true
  = inl (ValueError (u_ "Missing required environment variable: " ++ name)).
Proof. unfold env_str. by intros [-> | ->]. Qed.

Lemma update_readme_tail_frame path lines w :
  sent (update_readme_tail path lines w) = sent w
  /\ ticks (update_readme_tail path lines w) = ticks w.
Proof. split; reflexivity. Qed.

Lemma write_github_summary_frame lines w :
  sent (write_github_summary lines w) = sent w
  /\ ticks (write_github_summary lines w) = ticks w.
Proof.
  unfold write_github_summary.
  destruct (getenv w _) as [[| c p] |]; split; reflexivity.
Qed.

Section RunProperties.

Variable py_int : str -> option Z.
Variable py_float : str -> option Q.
Variable build_report_lines : report_args -> list str.

Lemma resolve_config_missing_key w :
  getenv w (u_ "OPENAI_API_KEY") = None \/ getenv w (u_ "OPENAI_API_KEY") = Some [] ->
  exists c,
    resolve_config py_int py_float w initial_config
    = (Some (ValueError (u_ "Missing required environment variable: "
                         ++ u_ "OPENAI_API_KEY")), c).
Proof.
  intros H. unfold resolve_config.
  unfold assign at 1. rewrite env_str_optional.
  unfold assign at 1. rewrite (env_str_required_missing _ _ H).
  eauto.
Qed.

(** What [main] adds after the [try] statement changes neither the exit
    code nor the variables, and sends nothing. *)
Lemma main_of_main_try w :
  exists w',
    main py_int py_float build_report_lines w
    = inr (snd (fst (main_try py_int py_float w)),
           fst (fst (main_try py_int py_float w)), w')
    /\ sent w' = sent (snd (main_try py_int py_float w))
    /\ ticks w' = ticks (snd (main_try py_int py_float w)).
Proof.
  unfold main. rewrite env_str_optional.
  destruct (main_try py_int py_float w) as [[args code] w1]. simpl.
  eexists. split; [reflexivity |].
  destruct (write_github_summary_frame
              (summary_lines args (build_report_lines args))
              (update_readme_tail
                 (match getenv w (u_ "OPENAI_README_PATH") with
                  | Some v => v
                  | None => DEFAULT_README
                  end) (build_report_lines args) w1)) as [-> ->].
  split; reflexivity.
Qed.

End RunProperties.

(** ** C6 *)

(** C6.  When the credential is absent from the environment or empty,
    [main] returns exit code 2 with status [CONFIG_ERROR]; the result
    sequence is empty, no request was sent and the clock was not read. *)
Theorem C6_missing_credential_is_config_error
    (py_int : str -> option Z) (py_float : str -> option Q)
    (build_report_lines : report_args -> list str) (w : world)
    (Hkey : getenv w (u_ "OPENAI_API_KEY") = None
            \/ getenv w (u_ "OPENAI_API_KEY") = Some []) :
  exists args w',
    main py_int py_float build_report_lines w = inr (2, args, w')
    /\ r_status args = CONFIG_ERROR
    /\ r_results args = []
    /\ sent w' = sent w
    /\ ticks w' = ticks w.
Proof.
  destruct (main_of_main_try py_int py_float build_report_lines w)
    as (w' & Hmain & Hsent & Hticks).
  destruct (resolve_config_missing_key py_int py_float w Hkey) as [c Hc].
  unfold main_try in *. rewrite Hc in *. simpl in *.
  eexists _, w'. split; [exact Hmain |]. repeat split; assumption.
Qed.

Lemma C6_witness :
  exists args w',
    main (fun _ => None) (fun _ => None) (fun _ => [])
      (example_world (fun _ _ _ => Raises (URLError [])) ∅) = inr (2, args, w')
    /\ r_status args = CONFIG_ERROR
    /\ r_results args = []
    /\ sent w' = sent (example_world (fun _ _ _ => Raises (URLError [])) ∅)
    /\ ticks w' = ticks (example_world (fun _ _ _ => Raises (URLError [])) ∅).
Proof.
  apply C6_missing_credential_is_config_error.
  left. vm_compute. reflexivity.
Defined.

(** ** C4 *)

Lemma benchmark_loop_length n : forall idx c start rs w e rs' w',
  benchmark_loop n idx c start rs w = (e, rs', w') ->
  (length rs' <= length rs + n)%nat.
Proof.
  induction n as [| n IH]; intros idx c start rs w e rs' w'; simpl.
  - intros [= _ <- _]. lia.
  - destruct (budget_spent c _).
    + intros [= _ <- _]. lia.
    + destruct (run_single_request _ _ _ _ _ _ _ _ _ _) as [[ex | r] w2].
      * intros [= _ <- _]. lia.
      * destruct (if _ && _ then _ else _) as [ex | w3].
        -- intros [= _ <- _]. rewrite length_app. simpl. lia.
        -- intros H. apply IH in H. rewrite length_app in H. simpl in H. lia.
Qed.

Lemma assign_continues {A} (set : A -> config -> config) rhs k c c' :
  assign set rhs k c = (None, c') ->
  exists v, rhs = inr v /\ k (set v c) = (None, c').
Proof. unfold assign. destruct rhs; [discriminate | eauto]. Qed.

Lemma validate_passes c c' :
  validate c = (None, c') -> c' = c /\ 0 < request_count c.
Proof.
  unfold validate.
  destruct (Z.leb_spec (request_count c) 0); [discriminate |].
  repeat match goal with |- context [if ?b then _ else _] => destruct b end;
    try discriminate.
  intros [= <-]. split; [reflexivity | lia].
Qed.

Lemma resolve_config_valid py_int py_float w c :
  resolve_config py_int py_float w initial_config = (None, c) ->
  0 < request_count c.
Proof.
  unfold resolve_config. intros H.
  repeat (apply assign_continues in H as (? & _ & H)).
  apply validate_passes in H as [-> H]. exact H.
Qed.

Lemma summarize_counts results total :
  let s := summarize results total in
  attempted s = Z.of_nat (length results)
  /\ success_count s = count_ok results
  /\ success_count s + failure_count s = attempted s.
Proof.
  simpl. unfold count_ok. rewrite length_map. repeat split. lia.
Qed.

Lemma classify_status s :
  let st := fst (fst (classify s)) in
  st = SUCCESS \/ st = PARTIAL_SUCCESS \/ st = FAILED.
Proof.
  unfold classify.
  repeat match goal with |- context [if ?b then _ else _] => destruct b end;
    simpl; auto.
Qed.

Lemma main_handler_status e :
  let st := fst (fst (main_handler e)) in
  st = CONFIG_ERROR \/ st = RUNTIME_ERROR.
Proof. unfold main_handler. destruct (is_ValueError e); simpl; auto. Qed.

(** When the [try] statement ends with a status other than the two error
    statuses, the loop has run to its end and the summary was computed
    from the result sequence. *)
Lemma main_try_summary py_int py_float w :
  let args := fst (fst (main_try py_int py_float w)) in
  r_status args <> CONFIG_ERROR -> r_status args <> RUNTIME_ERROR ->
  (exists total, r_summary args = summarize (r_results args) total)
  /\ Z.of_nat (length (r_results args)) <= request_count (r_config args).
Proof.
  unfold main_try.
  destruct (resolve_config py_int py_float w initial_config) as [[e |] c] eqn:Hc.
  - pose proof (main_handler_status e) as Hst.
    destruct (main_handler e) as [[st msg] code]. simpl in *.
    intros; destruct Hst; contradiction.
  - apply resolve_config_valid in Hc.
    destruct (perf_counter w) as [suite_start w1].
    destruct (benchmark_loop _ _ _ _ _ _) as [[[e |] results] w2] eqn:Hloop.
    + pose proof (main_handler_status e) as Hst.
      destruct (main_handler e) as [[st msg] code]. simpl in *.
      intros; destruct Hst; contradiction.
    + apply benchmark_loop_length in Hloop. simpl in Hloop.
      destruct (perf_counter w2) as [t w3].
      destruct (classify _) as [[st msg] code]. simpl. intros _ _.
      split; [eauto | lia].
Qed.

(** C4, as amended.  Whenever [main] ends with a status other than the
    two error statuses, that is whenever the benchmark loop ended without
    an exception (all planned requests made or the budget spent) and the
    summary was computed, the reported counts satisfy
    [success_count + failure_count = attempted <= request_count], where
    [attempted] is the length of the result sequence and [success_count]
    the number of results with [ok] true. *)
Theorem C4_summary_counts
    (py_int : str -> option Z) (py_float : str -> option Q)
    (build_report_lines : report_args -> list str) (w : world)
    (code : Z) (args : report_args) (w' : world)
    (Hmain : main py_int py_float build_report_lines w = inr (code, args, w'))
    (Hnot_config : r_status args <> CONFIG_ERROR)
    (Hnot_runtime : r_status args <> RUNTIME_ERROR) :
  success_count (r_summary args) + failure_count (r_summary args)
  = attempted (r_summary args)
  /\ attempted (r_summary args) <= request_count (r_config args)
  /\ attempted (r_summary args) = Z.of_nat (length (r_results args))
  /\ success_count (r_summary args) = count_ok (r_results args).
Proof.
  destruct (main_of_main_try py_int py_float build_report_lines w)
    as (w1 & Hm & _ & _).
  rewrite Hm in Hmain. injection Hmain as _ Hargs _.
  pose proof (main_try_summary py_int py_float w) as Hs. simpl in Hs.
  rewrite Hargs in Hs.
  destruct (Hs Hnot_config Hnot_runtime) as [[total Hsum] Hlen].
  rewrite Hsum.
  destruct (summarize_counts (r_results args) total) as (Ha & Hb & Hc).
  rewrite Hc, Ha, Hb. repeat split; try lia.
Qed.

Lemma C4_witness :
  match main (fun _ => None) (fun _ => None) (fun _ => []) healthy_world with
  | inr (_, args, _) =>
    r_status args = SUCCESS
    /\ (success_count (r_summary args) + failure_count (r_summary args)
        = attempted (r_summary args)
        /\ attempted (r_summary args) <= request_count (r_config args)
        /\ attempted (r_summary args) = Z.of_nat (length (r_results args))
        /\ success_count (r_summary args) = count_ok (r_results args))
  | inl _ => False
  end.
Proof.
  pose proof (C4_summary_counts (fun _ => None) (fun _ => None) (fun _ => [])
                healthy_world) as H.
  set (r := main (fun _ => None) (fun _ => None) (fun _ => []) healthy_world) in *.
  vm_compute in r. subst r. cbv beta iota.
  split; [reflexivity | apply (H _ _ _ eq_refl); discriminate].
Defined.

(** The claim as stated fails on a run in which an exception leaves the
    loop: the handler of [main] reports the results collected so far,
    but the summary is not computed and the attempted count stays at its
    initial zero.  Here the first request succeeds and the second meets
    an HTTP error whose body cannot be read. *)
Lemma C4_counterexample :
  match main (fun _ => None) (fun _ => None) (fun _ => []) failing_second_world with
  | inr (_, args, _) =>
    r_status args = RUNTIME_ERROR
    /\ length (r_results args) = 1%nat
    /\ attempted (r_summary args) = 0
    /\ attempted (r_summary args) <> Z.of_nat (length (r_results args))
  | inl _ => False
  end.
Proof.
  vm_compute. split; [reflexivity |]. split; [reflexivity |].
  split; [reflexivity |]. intros H. discriminate H.
Qed.

Example healthy_run :
  match main (fun _ => None) (fun _ => None) (fun _ => []) healthy_world with
  | inr (code, args, w') =>
    code = 0 /\ attempted (r_summary args) = 5 /\ success_count (r_summary args) = 5
    /\ map index (r_results args) = [1; 2; 3; 4; 5]
    /\ map chars (r_results args) = [2; 2; 2; 2; 2]
    /\ length (sent w') = 5%nat
  | inl _ => False
  end.
Proof. vm_compute. repeat split; reflexivity. Qed.

(** ** C5 *)

Lemma benchmark_loop_step n idx c start rs w :
  benchmark_loop (S n) idx c start rs w =
  if budget_spent c (clock w (ticks w) - start)%Q
  then (None, rs, snd (perf_counter w))
  else
    match request c idx (snd (perf_counter w)) with
    | (inl e, w2) => (Some e, rs, w2)
    | (inr r, w2) =>
      match pause_after c idx w2 with
      | inl e => (Some e, rs ++ [r], w2)
      | inr w3 => benchmark_loop n (idx + 1) c start (rs ++ [r]) w3
      end
    end.
Proof. reflexivity. Qed.

Lemma loop_from_boundary c start w0 k rs w :
  at_boundary c start w0 k rs w ->
  forall n, (k <= n)%nat ->
    benchmark_loop n 1 c start [] w0
    = benchmark_loop (n - k) (Z.of_nat k + 1) c start rs w.
Proof.
  induction 1 as [| k rs w r w2 w3 Hb IH Hbudget Hreq Hpause]; intros n Hn.
  - by rewrite Nat.sub_0_r.
  - rewrite IH by lia.
    replace (n - k)%nat with (S (n - S k)) by lia.
    rewrite benchmark_loop_step, Hbudget, Hreq, Hpause.
    by replace (Z.of_nat (S k) + 1) with (Z.of_nat k + 1 + 1) by lia.
Qed.

Lemma boundary_results c start w0 k rs w :
  at_boundary c start w0 k rs w ->
  map index rs = seqZ 1 (Z.of_nat k).
Proof.
  induction 1 as [| k rs w r w2 w3 Hb IH Hbudget Hreq Hpause].
  - reflexivity.
  - rewrite map_app, IH, seqZ_S. simpl.
    unfold request in Hreq. apply run_single_request_index in Hreq. rewrite Hreq.
    by rewrite (Z.add_comm 1).
Qed.

Lemma budget_spent_true c elapsed :
  0 < max_runtime_seconds c ->
  (inject_Z (max_runtime_seconds c) <= elapsed)%Q ->
  budget_spent c elapsed = true.
Proof.
  intros Hpos Hle. unfold budget_spent.
  apply andb_true_intro. split.
  - by apply Z.ltb_lt.
  - by apply Qle_bool_iff.
Qed.

Lemma run_to_boundary_sound c start w0 k : forall rs w,
  run_to_boundary c start w0 k = Some (rs, w) -> at_boundary c start w0 k rs w.
Proof.
  induction k as [| k IH]; intros rs w; simpl.
  - intros [= <- <-]. constructor.
  - destruct (run_to_boundary c start w0 k) as [[rs0 w1] |]; [| discriminate].
    destruct (budget_spent c _) eqn:Hb; [discriminate |].
    destruct (request c _ _) as [[e | r] w2] eqn:Hr; [discriminate |].
    destruct (pause_after c _ w2) as [e | w3] eqn:Hp; [discriminate |].
    intros [= <- <-]. by eapply boundary_next; eauto.
Qed.

(** C5.  In a run whose budget is greater than zero, when the loop is at
    the boundary before a planned request and the elapsed time read there
    is at least the budget, the loop ends without an exception and the
    result sequence is the one collected before that boundary: its
    entries are those of requests [1] to [k], so no later index appears in
    it.  With five planned requests and a budget that is spent after
    request 2 completes, the sequence has exactly two entries. *)
Theorem C5_budget_stops_loop :
  (forall (c : config) (start : Q) (w0 : world) (k : nat)
          (rs : list RequestResult) (w : world),
     at_boundary c start w0 k rs w ->
     (k < Z.to_nat (request_count c))%nat ->
     0 < max_runtime_seconds c ->
     (inject_Z (max_runtime_seconds c) <= clock w (ticks w) - start)%Q ->
     benchmark_loop (Z.to_nat (request_count c)) 1 c start [] w0
     = (None, rs, snd (perf_counter w))
     /\ length rs = k
     /\ map index rs = seqZ 1 (Z.of_nat k))
  /\ (exists r1 r2 w',
        benchmark_loop (Z.to_nat (request_count budget_config)) 1 budget_config
          (clock healthy_world O) [] budget_world
        = (None, [r1; r2], w')
        /\ index r1 = 1 /\ index r2 = 2).
Proof.
  split.
  - intros c start w0 k rs w Hb Hk Hpos Hle.
    pose proof (boundary_results _ _ _ _ _ _ Hb) as Hidx.
    split; [| split; [| exact Hidx]].
    + rewrite (loop_from_boundary _ _ _ _ _ _ Hb) by lia.
      replace (Z.to_nat (request_count c) - k)%nat
        with (S (Z.to_nat (request_count c) - S k)) by lia.
      by rewrite benchmark_loop_step, budget_spent_true.
    + apply (f_equal length) in Hidx.
      rewrite length_map, length_seqZ in Hidx. lia.
  - eexists _, _, _. split; [vm_compute; reflexivity |]. split; reflexivity.
Qed.

Lemma C5_witness :
  match run_to_boundary budget_config (clock healthy_world O) budget_world 2 with
  | Some (rs, w) =>
    benchmark_loop (Z.to_nat (request_count budget_config)) 1 budget_config
      (clock healthy_world O) [] budget_world
    = (None, rs, snd (perf_counter w))
    /\ length rs = 2%nat
    /\ map index rs = seqZ 1 (Z.of_nat 2)
  | None => False
  end.
Proof.
  pose proof (run_to_boundary_sound budget_config (clock healthy_world O)
                budget_world 2) as Hsound.
  pose proof (proj1 C5_budget_stops_loop budget_config (clock healthy_world O)
                budget_world 2%nat) as H.
  set (b := run_to_boundary budget_config (clock healthy_world O) budget_world 2) in *.
  vm_compute in b. subst b. cbv beta iota.
  apply H.
  - apply Hsound. reflexivity.
  - vm_compute. lia.
  - reflexivity.
  - vm_compute. discriminate.
Defined.

(** ** Persistence: facts about searching and removing *)

Section Search.

(** A pattern whose first character does not occur again in it, as is the
    case for both markers. *)
Variable a : N.
Variable tl : str.
Hypothesis first_unique : Forall (fun c => c <> a) tl.

Local Abbreviation pat := (a :: tl).

Lemma find_cons p c r :
  find p (c :: r) =
  if startswith (c :: r) p then Some O
  else match find p r with Some k => Some (S k) | None => None end.
Proof. destruct p; reflexivity. Qed.

Lemma startswith_app p s : startswith (p ++ s) p = true.
Proof. induction p as [| c p IH]; simpl; [reflexivity |]. by rewrite N.eqb_refl. Qed.

Lemma startswith_nil_pat s : startswith s [] = true.
Proof. reflexivity. Qed.

Lemma startswith_cons_cons c s d p :
  startswith (c :: s) (d :: p) = (d =? c)%N && startswith s p.
Proof. reflexivity. Qed.

(** A match that starts before a copy of the first character of the
    pattern ends before it, when that character is not in the rest of
    the pattern. *)
Lemma startswith_before p : forall x z,
  Forall (fun c => c <> a) p ->
  startswith (x ++ a :: z) p = true -> startswith x p = true.
Proof.
  induction p as [| b p IH]; intros x z Hp; [reflexivity |].
  inversion Hp as [| ? ? Hb Hp']; subst.
  destruct x as [| d x]; simpl app.
  - rewrite startswith_cons_cons. intros H. apply andb_prop in H as [H _].
    apply N.eqb_eq in H. congruence.
  - rewrite !startswith_cons_cons. intros H. apply andb_prop in H as [H1 H2].
    rewrite H1. simpl. by eapply IH.
Qed.

Lemma startswith_straddle x y :
  x <> [] -> startswith (x ++ pat ++ y) pat = true -> startswith x pat = true.
Proof.
  intros Hx. destruct x as [| c x]; [congruence |]. simpl app.
  rewrite !startswith_cons_cons. intros H. apply andb_prop in H as [H1 H2].
  rewrite H1. simpl. by eapply startswith_before.
Qed.

Lemma find_none_cons p c r :
  find p (c :: r) = None -> startswith (c :: r) p = false /\ find p r = None.
Proof.
  rewrite find_cons. destruct (startswith (c :: r) p); [discriminate |].
  destruct (find p r); [discriminate | auto].
Qed.

(** The first occurrence of the pattern after a text that has none. *)
Lemma find_first_after x y :
  find pat x = None -> find pat (x ++ pat ++ y) = Some (length x).
Proof.
  induction x as [| c x IH]; intros Hx.
  - simpl app. rewrite find_cons.
    by replace (startswith (a :: tl ++ y) pat) with true
      by (symmetry; apply (startswith_app pat y)).
  - apply find_none_cons in Hx as [Hs Hx].
    rewrite <- app_comm_cons, find_cons.
    destruct (startswith (c :: x ++ pat ++ y) pat) eqn:E.
    + apply (startswith_straddle (c :: x) y) in E; congruence.
    + by rewrite (IH Hx).
Qed.

(** No occurrence starts inside a text that has none, whatever follows a
    copy of the pattern placed after it. *)
Lemma no_start_inside x y i :
  find pat x = None -> (i < length x)%nat ->
  startswith (drop i (x ++ pat ++ y)) pat = false.
Proof.
  revert i. induction x as [| c x IH]; intros i Hx Hi; simpl in Hi; [lia |].
  apply find_none_cons in Hx as [Hs Hx].
  destruct i as [| i].
  - change (drop 0 ((c :: x) ++ pat ++ y)) with ((c :: x) ++ pat ++ y).
    destruct (startswith ((c :: x) ++ pat ++ y) pat) eqn:E; [| reflexivity].
    apply (startswith_straddle (c :: x) y) in E; congruence.
  - simpl. apply IH; [assumption | lia].
Qed.

End Search.

Lemma find_none_no_start p s i :
  p <> [] -> find p s = None -> startswith (drop i s) p = false.
Proof.
  intros Hp. revert i. induction s as [| c s IH]; intros i Hs.
  - rewrite drop_nil. by destruct p.
  - apply find_none_cons in Hs as [H1 H2].
    destruct i; simpl; [assumption | by apply IH].
Qed.

Lemma startswith_extend q : forall s y,
  startswith s q = true -> startswith (s ++ y) q = true.
Proof.
  induction q as [| d q IH]; intros s y; [reflexivity |].
  destruct s as [| e s]; [discriminate |].
  rewrite <- app_comm_cons, !startswith_cons_cons.
  intros H. apply andb_prop in H as [-> H]. simpl. by apply IH.
Qed.

Lemma find_none_prefix p x y :
  find p (x ++ y) = None -> find p x = None.
Proof.
  destruct p as [| b p].
  { intros H. destruct (x ++ y); discriminate. }
  induction x as [| c x IH]; [reflexivity |].
  rewrite <- app_comm_cons. intros H. apply find_none_cons in H as [H1 H2].
  rewrite find_cons, (IH H2).
  destruct (startswith (c :: x) (b :: p)) eqn:E; [| reflexivity].
  apply (startswith_extend _ _ y) in E. rewrite <- app_comm_cons in E. congruence.
Qed.

(** Appending a line feed and a text without the pattern to a text
    without the pattern gives a text without it, when the pattern has no
    line feed. *)
Lemma find_none_sep p x z :
  p <> [] -> Forall (fun c => c <> LF) p ->
  find p x = None -> find p z = None -> find p (x ++ LF :: z) = None.
Proof.
  intros Hne Hp Hx Hz. induction x as [| c x IH].
  - simpl app. rewrite find_cons, Hz.
    destruct p as [| b p]; [congruence |].
    inversion Hp as [| ? ? Hb _]; subst.
    rewrite startswith_cons_cons.
    destruct (N.eqb_spec b LF); [contradiction | reflexivity].
  - apply find_none_cons in Hx as [H1 H2].
    rewrite <- app_comm_cons, find_cons, (IH H2).
    destruct (startswith (c :: x ++ LF :: z) p) eqn:E; [| reflexivity].
    rewrite app_comm_cons in E. apply (startswith_before LF p) in E; congruence.
Qed.

Lemma find_nil p : p <> [] -> find p [] = None.
Proof. by destruct p. Qed.

(** *** The two markers *)

Lemma START_eq : README_RESULT_START = 60%N :: START_tl.
Proof. reflexivity. Qed.

Lemma END_eq : README_RESULT_END = 60%N :: END_tl.
Proof. reflexivity. Qed.

Lemma Forall_neq_of_forallb (a : N) (l : str) :
  forallb (fun c => negb (c =? a)%N) l = true -> Forall (fun c => c <> a) l.
Proof.
  induction l as [| c l IH]; simpl; intros H; constructor;
    apply andb_prop in H as [H1 H2].
  - destruct (N.eqb_spec c a); [discriminate | assumption].
  - by apply IH.
Qed.

Lemma START_unique : Forall (fun c => c <> 60%N) START_tl.
Proof. apply Forall_neq_of_forallb. vm_compute. reflexivity. Qed.

Lemma END_unique : Forall (fun c => c <> 60%N) END_tl.
Proof. apply Forall_neq_of_forallb. vm_compute. reflexivity. Qed.

Lemma START_no_LF : Forall (fun c => c <> LF) README_RESULT_START.
Proof. apply Forall_neq_of_forallb. vm_compute. reflexivity. Qed.

Lemma END_no_LF : Forall (fun c => c <> LF) README_RESULT_END.
Proof. apply Forall_neq_of_forallb. vm_compute. reflexivity. Qed.

Lemma START_not_nil : README_RESULT_START <> [].
Proof. rewrite START_eq. discriminate. Qed.

Lemma END_not_nil : README_RESULT_END <> [].
Proof. rewrite END_eq. discriminate. Qed.

Lemma find_END_first mid y :
  find README_RESULT_END mid = None ->
  find README_RESULT_END (mid ++ README_RESULT_END ++ y) = Some (length mid).
Proof. rewrite END_eq. apply find_first_after, END_unique. Qed.

Lemma START_not_inside pre y i :
  find README_RESULT_START pre = None -> (i < length pre)%nat ->
  startswith (drop i (pre ++ README_RESULT_START ++ y)) README_RESULT_START = false.
Proof. rewrite START_eq. apply no_start_inside, START_unique. Qed.

(** *** Removing the blocks *)

#[global] Arguments match_len : simpl never.

Lemma sub_blocks_here c r :
  sub_blocks O (c :: r) =
  match match_len (c :: r) with
  | Some n => sub_blocks (pred n) r
  | None => c :: sub_blocks O r
  end.
Proof. reflexivity. Qed.

Lemma match_len_no_start s :
  startswith s README_RESULT_START = false -> match_len s = None.
Proof. unfold match_len. by intros ->. Qed.

Lemma sub_blocks_skip x : forall y, sub_blocks (length x) (x ++ y) = sub_blocks O y.
Proof.
  induction x as [| c x IH]; intros y; simpl.
  - by destruct y.
  - apply IH.
Qed.

Lemma sub_blocks_keep pre : forall rest,
  (forall i, (i < length pre)%nat ->
     startswith (drop i (pre ++ rest)) README_RESULT_START = false) ->
  sub_blocks O (pre ++ rest) = pre ++ sub_blocks O rest.
Proof.
  induction pre as [| c pre IH]; intros rest H; [reflexivity |].
  rewrite <- !app_comm_cons, sub_blocks_here.
  rewrite match_len_no_start by (apply (H O); simpl; lia).
  f_equal. apply IH. intros i Hi. apply (H (S i)). simpl. lia.
Qed.

Lemma remove_blocks_no_start s :
  find README_RESULT_START s = None -> remove_blocks s = s.
Proof.
  intros H. unfold remove_blocks.
  rewrite <- (app_nil_r s) at 1. rewrite sub_blocks_keep; [by rewrite app_nil_r |].
  intros i _. rewrite app_nil_r.
  by apply find_none_no_start; [apply START_not_nil |].
Qed.

Lemma match_len_block mid post :
  find README_RESULT_END mid = None ->
  match_len (README_RESULT_START ++ mid ++ README_RESULT_END ++ post)
  = Some (let n := (length README_RESULT_START + length mid
                    + length README_RESULT_END)%nat in
          if startswith post [LF] then S n else n).
Proof.
  intros Hmid. unfold match_len.
  rewrite startswith_app, drop_app_length, (find_END_first _ _ Hmid).
  replace (README_RESULT_START ++ mid ++ README_RESULT_END ++ post)
    with ((README_RESULT_START ++ mid ++ README_RESULT_END) ++ post)
    by (by rewrite <- !app_assoc).
  replace (length README_RESULT_START + length mid + length README_RESULT_END)%nat
    with (length (README_RESULT_START ++ mid ++ README_RESULT_END))
    by (rewrite !length_app; lia).
  by rewrite drop_app_length.
Qed.

Lemma sub_blocks_block mid post :
  find README_RESULT_END mid = None ->
  sub_blocks O (README_RESULT_START ++ mid ++ README_RESULT_END ++ post)
  = sub_blocks O (after_block post).
Proof.
  intros Hmid.
  pose proof (match_len_block mid post Hmid) as Hlen.
  rewrite START_eq in *. rewrite <- app_comm_cons in *.
  rewrite sub_blocks_here, Hlen. unfold after_block. cbv zeta.
  destruct post as [| c post].
  - simpl startswith. cbv iota.
    replace (Init.Nat.pred (length (60%N :: START_tl) + length mid + length README_RESULT_END))
      with (length (START_tl ++ mid ++ README_RESULT_END))
      by (rewrite !length_app, length_cons; lia).
    replace (START_tl ++ mid ++ README_RESULT_END ++ [])
      with ((START_tl ++ mid ++ README_RESULT_END) ++ [])
      by (by rewrite <- !app_assoc).
    apply sub_blocks_skip.
  - rewrite startswith_cons_cons, startswith_nil_pat, andb_true_r.
    destruct (N.eqb_spec LF c) as [<- | Hc].
    + replace (Init.Nat.pred (S (length (60%N :: START_tl) + length mid
                                 + length README_RESULT_END)))
        with (length (START_tl ++ mid ++ README_RESULT_END ++ [LF]))
        by (rewrite !length_app, !length_cons, length_nil; lia).
      replace (START_tl ++ mid ++ README_RESULT_END ++ LF :: post)
        with ((START_tl ++ mid ++ README_RESULT_END ++ [LF]) ++ post)
        by (by rewrite <- !app_assoc).
      apply sub_blocks_skip.
    + replace (Init.Nat.pred (length (60%N :: START_tl) + length mid
                              + length README_RESULT_END))
        with (length (START_tl ++ mid ++ README_RESULT_END))
        by (rewrite !length_app, length_cons; lia).
      replace (START_tl ++ mid ++ README_RESULT_END ++ c :: post)
        with ((START_tl ++ mid ++ README_RESULT_END) ++ c :: post)
        by (by rewrite <- !app_assoc).
      apply sub_blocks_skip.
Qed.

(** A region, from a start marker to the next end marker, is removed
    with the line feed that follows it; the text before it is kept. *)
Lemma remove_blocks_region pre mid post :
  find README_RESULT_START pre = None ->
  find README_RESULT_END mid = None ->
  remove_blocks (pre ++ README_RESULT_START ++ mid ++ README_RESULT_END ++ post)
  = pre ++ remove_blocks (after_block post).
Proof.
  intros Hpre Hmid. unfold remove_blocks.
  rewrite sub_blocks_keep by (intros i Hi; by apply START_not_inside).
  by rewrite sub_blocks_block.
Qed.

(** *** Stripping *)

Lemma lstrip_idem s : lstrip (lstrip s) = lstrip s.
Proof.
  induction s as [| c s IH]; [reflexivity |]. simpl.
  destruct (py_isspace c) eqn:E; [exact IH |]. simpl. by rewrite E.
Qed.

Lemma lstrip_suffix s : exists ws, s = ws ++ lstrip s.
Proof.
  induction s as [| c s [ws IH]]; [by exists [] |]. simpl.
  destruct (py_isspace c).
  - exists (c :: ws). simpl. by f_equal.
  - by exists [].
Qed.

Lemma rstrip_idem s : rstrip (rstrip s) = rstrip s.
Proof. unfold rstrip. by rewrite rev_involutive, lstrip_idem. Qed.

Lemma rstrip_prefix s : exists ws, s = rstrip s ++ ws.
Proof.
  unfold rstrip. destruct (lstrip_suffix (rev s)) as [ws H].
  exists (rev ws). rewrite <- rev_app_distr, <- H. by rewrite rev_involutive.
Qed.

Lemma rstrip_blank_line s : rstrip (s ++ [LF; LF]) = rstrip s.
Proof. unfold rstrip. by rewrite rev_app_distr. Qed.

(** ** C7 *)

Lemma after_block_LF post : after_block (LF :: post) = post.
Proof. reflexivity. Qed.

Lemma remove_blocks_one_region pre mid post :
  find README_RESULT_START pre = None ->
  find README_RESULT_END mid = None ->
  find README_RESULT_START post = None ->
  remove_blocks (pre ++ README_RESULT_START ++ mid ++ README_RESULT_END
                 ++ [LF] ++ post) = pre ++ post.
Proof.
  intros Hpre Hmid Hpost.
  rewrite (remove_blocks_region pre mid ([LF] ++ post) Hpre Hmid).
  change ([LF] ++ post) with (LF :: post).
  by rewrite after_block_LF, remove_blocks_no_start.
Qed.

Lemma find_START_blank_line base :
  find README_RESULT_START base = None ->
  find README_RESULT_START (base ++ [LF; LF]) = None.
Proof.
  intros H. apply find_none_sep; try assumption.
  - apply START_not_nil.
  - apply START_no_LF.
  - reflexivity.
Qed.

Lemma new_content_tail_region base mid lines :
  find README_RESULT_START base = None ->
  find README_RESULT_END mid = None ->
  rstrip base = base ->
  new_content (base ++ [LF; LF] ++ README_RESULT_START ++ mid
               ++ README_RESULT_END ++ [LF]) lines
  = base ++ [LF; LF] ++ block lines.
Proof.
  intros Hbase Hmid Hstrip. unfold new_content.
  replace (base ++ [LF; LF] ++ README_RESULT_START ++ mid ++ README_RESULT_END ++ [LF])
    with ((base ++ [LF; LF]) ++ README_RESULT_START ++ mid ++ README_RESULT_END
          ++ [LF] ++ [])
    by (by rewrite <- !app_assoc).
  rewrite remove_blocks_one_region;
    [| by apply find_START_blank_line | assumption | reflexivity].
  by rewrite app_nil_r, rstrip_blank_line, Hstrip.
Qed.

Lemma find_END_framed body :
  find README_RESULT_END body = None ->
  find README_RESULT_END ([LF] ++ body ++ [LF]) = None.
Proof.
  intros H.
  apply (find_none_sep README_RESULT_END [] (body ++ [LF]));
    [apply END_not_nil | apply END_no_LF | reflexivity |].
  apply find_none_sep; [apply END_not_nil | apply END_no_LF | assumption | reflexivity].
Qed.

Lemma new_content_rerun text lines1 lines2 :
  find README_RESULT_START text = None ->
  find README_RESULT_END (strip (join [LF] lines1)) = None ->
  new_content (new_content text lines1) lines2 = new_content text lines2.
Proof.
  intros Htext Hbody.
  assert (Hnew : forall lines,
             new_content text lines = rstrip text ++ [LF; LF] ++ block lines).
  { intros lines. unfold new_content. by rewrite remove_blocks_no_start. }
  rewrite (Hnew lines1), (Hnew lines2). unfold block at 1.
  replace (rstrip text ++ [LF; LF] ++ README_RESULT_START ++ [LF]
           ++ strip (join [LF] lines1) ++ [LF] ++ README_RESULT_END ++ [LF])
    with (rstrip text ++ [LF; LF] ++ README_RESULT_START
          ++ ([LF] ++ strip (join [LF] lines1) ++ [LF]) ++ README_RESULT_END ++ [LF])
    by (by rewrite <- !app_assoc).
  apply new_content_tail_region.
  - destruct (rstrip_prefix text) as [ws Hws]. rewrite Hws in Htext.
    by apply find_none_prefix in Htext.
  - by apply find_END_framed.
  - apply rstrip_idem.
Qed.

(** *** Reading in text mode *)























(** A document with the line ends of another host: the carriage returns
    of the old text are written back as line feeds. *)
Example crlf_document_run :
  universal_newlines (u_ "a" ++ [CR; LF] ++ u_ "b" ++ [CR] ++ u_ "c" ++ [LF; CR])
  = u_ "a" ++ [LF] ++ u_ "b" ++ [LF] ++ u_ "c" ++ [LF; LF]
  /\ files (update_readme_tail DEFAULT_README [u_ "new"]
              (document_world (title_text ++ [CR; LF] ++ u_ "text" ++ [CR; LF])))
       !! DEFAULT_README
     = Some (title_text ++ [LF] ++ u_ "text" ++ [LF; LF] ++ block [u_ "new"]).
Proof. split; vm_compute; reflexivity. Qed.




(** ** [json.loads]: the fuel is enough *)

Lemma skip_ws_length s : (length (skip_ws s) <= length s)%nat.
Proof.
  induction s as [| c s IH]; [reflexivity |].
  cbn [skip_ws]. destruct (is_ws c); cbn [length]; lia.
Qed.

Ltac split_scan H :=
  repeat (first
    [ match type of H with
      | context [match ?x with [] => _ | _ :: _ => _ end] => is_var x; destruct x
      end
    | match type of H with
      | context [match hex4 ?a ?b ?c ?d with Some _ => _ | None => _ end] =>
        destruct (hex4 a b c d)
      | context [match simple_escape ?e with Some _ => _ | None => _ end] =>
        destruct (simple_escape e)
      end
    | match type of H with
      | context [if ?b then _ else _] => destruct b
      end ];
    cbv beta match in H; try discriminate H).

Lemma scan_string_shorter n : forall s acc t rest,
  (length s <= n)%nat -> scan_string s acc = Some (t, rest) ->
  (length rest < length s)%nat.
Proof.
  induction n as [| n IH]; intros s acc t rest Hn H;
    (destruct s as [| c r]; [discriminate H |]); cbn [length] in Hn; [lia |].
  cbn [scan_string] in H. cbv beta match in H.
  split_scan H;
    try (injection H as _ <-; cbn [length]; lia);
    (apply IH in H; cbn [length] in *; lia).
Qed.

Lemma take_digits_length s : forall ds rest,
  take_digits s = (ds, rest) ->
  (length rest <= length s)%nat /\ (ds <> [] -> (length rest < length s)%nat).
Proof.
  induction s as [| c s IH]; intros ds rest H; cbn [take_digits] in H.
  - injection H as <- <-. split; [reflexivity | congruence].
  - destruct (is_digit c).
    + destruct (take_digits s) as [ds' rest'] eqn:E.
      injection H as <- <-. destruct (IH _ _ eq_refl) as [Hle _].
      cbn [length]. split; intros; lia.
    + injection H as <- <-. split; [reflexivity | congruence].
Qed.

Lemma startswith_length p : forall s,
  startswith s p = true -> (length p <= length s)%nat.
Proof.
  induction p as [| a p IH]; intros s H; cbn [length]; [lia |].
  destruct s as [| c s]; [discriminate H |].
  cbn [startswith] in H. apply andb_prop in H as [_ H].
  apply IH in H. cbn [length]. lia.
Qed.

Lemma strip_prefix_shorter p s rest :
  p <> [] -> strip_prefix p s = Some rest -> (length rest < length s)%nat.
Proof.
  intros Hp. unfold strip_prefix.
  destruct (startswith s p) eqn:E; [| discriminate].
  intros [= <-]. apply startswith_length in E.
  rewrite length_drop. destruct p; [congruence |]. cbn [length] in *. lia.
Qed.

Lemma scan_number_shorter s v rest :
  scan_number s = Some (v, rest) -> (length rest < length s)%nat.
Proof.
  unfold scan_number.
  set (sign := match s with
               | c :: r => if (c =? 45)%N then (true, r) else (false, s)
               | [] => (false, s)
               end).
  assert (Hsign : (length (snd sign) <= length s)%nat).
  { subst sign. destruct s as [| c r]; [reflexivity |].
    destruct (c =? 45)%N; cbn [snd length]; lia. }
  destruct sign as [neg s1]. cbn [snd] in Hsign.
  set (ip := match s1 with
             | c :: r =>
               if (c =? 48)%N then Some ([0%N], r)
               else if is_digit c then Some (take_digits s1)
               else None
             | [] => None
             end).
  assert (Hip : forall ids s2, ip = Some (ids, s2) -> (length s2 < length s1)%nat).
  { subst ip. intros ids s2. destruct s1 as [| c r]; [discriminate |].
    destruct (c =? 48)%N.
    - intros [= <- <-]. cbn [length]. lia.
    - destruct (is_digit c) eqn:Ed; [| discriminate].
      intros [= H]. cbn [take_digits] in H. rewrite Ed in H.
      destruct (take_digits r) as [ds' rest'] eqn:E.
      injection H as <- <-. apply take_digits_length in E as [E _].
      cbn [length]. lia. }
  destruct ip as [[ids s2] |]; [| discriminate].
  specialize (Hip _ _ eq_refl).
  set (fr := match s2 with
             | c :: r =>
               if (c =? 46)%N then
                 match take_digits r with
                 | ([], _) => ([], s2, false)
                 | (ds, rest) => (ds, rest, true)
                 end
               else ([], s2, false)
             | [] => ([], s2, false)
             end).
  assert (Hfr : (length (snd (fst fr)) <= length s2)%nat).
  { subst fr. destruct s2 as [| c r]; [reflexivity |].
    destruct (c =? 46)%N; [| reflexivity].
    destruct (take_digits r) as [ds rest'] eqn:E.
    apply take_digits_length in E as [E _].
    destruct ds; cbn [fst snd length]; lia. }
  destruct fr as [[fds s3] has_frac]. cbn [fst snd] in Hfr.
  set (ex := match s3 with
             | c :: r =>
               if ((c =? 101) || (c =? 69))%N then
                 let '(eneg, r') :=
                   match r with
                   | g :: r2 =>
                     if (g =? 45)%N then (true, r2)
                     else if (g =? 43)%N then (false, r2)
                     else (false, r)
                   | [] => (false, r)
                   end in
                 match take_digits r' with
                 | ([], _) => (0, s3, false)
                 | (ds, rest) =>
                   ((if eneg then - Z.of_N (digits_value ds)
                     else Z.of_N (digits_value ds)), rest, true)
                 end
               else (0, s3, false)
             | [] => (0, s3, false)
             end).
  assert (Hex : (length (snd (fst ex)) <= length s3)%nat).
  { subst ex. destruct s3 as [| c r]; [reflexivity |].
    destruct ((c =? 101) || (c =? 69))%N; [| reflexivity].
    set (sg := match r with
               | g :: r2 =>
                 if (g =? 45)%N then (true, r2)
                 else if (g =? 43)%N then (false, r2)
                 else (false, r)
               | [] => (false, r)
               end).
    assert (Hsg : (length (snd sg) <= length r)%nat).
    { subst sg. destruct r as [| g r2]; [reflexivity |].
      destruct (g =? 45)%N; [cbn [snd length]; lia |].
      destruct (g =? 43)%N; cbn [snd length]; lia. }
    destruct sg as [eneg r']. cbn [snd] in Hsg.
    destruct (take_digits r') as [ds rest'] eqn:E.
    apply take_digits_length in E as [E _].
    destruct ds; cbn [fst snd length]; lia. }
  destruct ex as [[e s4] has_exp]. cbn [fst snd] in Hex.
  destruct (has_frac || has_exp); intros [= _ <-]; lia.
Qed.

Lemma value_body_shrinks items members :
  shrinks items -> shrinks members -> shrinks (value_body items members).
Proof.
  intros Hi Hm s x rest H. unfold value_body in H.
  destruct s as [| c r]; [discriminate H |].
  destruct (c =? 34)%N.
  { destruct (scan_string r []) as [[t rest'] |] eqn:E; [| discriminate H].
    injection H as _ <-. apply (scan_string_shorter (length r)) in E; [| lia].
    cbn [length]. lia. }
  destruct (c =? 123)%N.
  { pose proof (skip_ws_length r) as Hws.
    destruct (skip_ws r) as [| c' r']; [discriminate H |].
    destruct (c' =? 125)%N.
    - injection H as _ <-. cbn [length] in *. lia.
    - destruct (members (c' :: r')) as [[kvs rest'] |] eqn:E; [| discriminate H].
      injection H as _ <-. apply Hm in E. cbn [length] in *. lia. }
  destruct (c =? 91)%N.
  { pose proof (skip_ws_length r) as Hws.
    destruct (skip_ws r) as [| c' r']; [discriminate H |].
    destruct (c' =? 93)%N.
    - injection H as _ <-. cbn [length] in *. lia.
    - destruct (items (c' :: r')) as [[vs rest'] |] eqn:E; [| discriminate H].
      injection H as _ <-. apply Hi in E. cbn [length] in *. lia. }
  destruct (strip_prefix LIT_null (c :: r)) eqn:E1.
  { injection H as _ <-. by apply strip_prefix_shorter in E1. }
  destruct (strip_prefix LIT_true (c :: r)) eqn:E2.
  { injection H as _ <-. by apply strip_prefix_shorter in E2. }
  destruct (strip_prefix LIT_false (c :: r)) eqn:E3.
  { injection H as _ <-. by apply strip_prefix_shorter in E3. }
  destruct (scan_number (c :: r)) as [[v rest'] |] eqn:E4.
  { injection H as _ <-. by apply scan_number_shorter in E4. }
  destruct (strip_prefix LIT_NaN (c :: r)) eqn:E5.
  { injection H as _ <-. by apply strip_prefix_shorter in E5. }
  destruct (strip_prefix LIT_Infinity (c :: r)) eqn:E6.
  { injection H as _ <-. by apply strip_prefix_shorter in E6. }
  destruct (strip_prefix LIT_NegInfinity (c :: r)) eqn:E7; [| discriminate H].
  injection H as _ <-. by apply strip_prefix_shorter in E7.
Qed.

Lemma items_body_shrinks value items :
  shrinks value -> shrinks items -> shrinks (items_body value items).
Proof.
  intros Hv Hi s x rest H. unfold items_body in H.
  destruct (value s) as [[v rest1] |] eqn:E; [| discriminate H].
  apply Hv in E. pose proof (skip_ws_length rest1) as Hws.
  destruct (skip_ws rest1) as [| c r]; [discriminate H |].
  destruct (c =? 93)%N.
  { injection H as _ <-. cbn [length] in *. lia. }
  destruct (c =? 44)%N; [| discriminate H].
  destruct (items (skip_ws r)) as [[vs rest2] |] eqn:E2; [| discriminate H].
  injection H as _ <-. apply Hi in E2.
  pose proof (skip_ws_length r). cbn [length] in *. lia.
Qed.

Lemma members_body_shrinks value members :
  shrinks value -> shrinks members -> shrinks (members_body value members).
Proof.
  intros Hv Hm s x rest H. unfold members_body in H.
  destruct s as [| c r]; [discriminate H |].
  destruct (negb (c =? 34)%N); [discriminate H |].
  destruct (scan_string r []) as [[k rest1] |] eqn:E; [| discriminate H].
  apply (scan_string_shorter (length r)) in E; [| lia].
  pose proof (skip_ws_length rest1) as Hws1.
  destruct (skip_ws rest1) as [| c1 r1]; [discriminate H |].
  destruct (negb (c1 =? 58)%N); [discriminate H |].
  destruct (value (skip_ws r1)) as [[v rest2] |] eqn:E2; [| discriminate H].
  apply Hv in E2. pose proof (skip_ws_length r1) as Hws2.
  pose proof (skip_ws_length rest2) as Hws3.
  destruct (skip_ws rest2) as [| c2 r2]; [discriminate H |].
  destruct (c2 =? 125)%N.
  { injection H as _ <-. cbn [length] in *. lia. }
  destruct (c2 =? 44)%N; [| discriminate H].
  destruct (members (skip_ws r2)) as [[kvs rest3] |] eqn:E3; [| discriminate H].
  injection H as _ <-. apply Hm in E3.
  pose proof (skip_ws_length r2). cbn [length] in *. lia.
Qed.

Lemma parse_shrinks fuel :
  shrinks (parse_value fuel) /\ shrinks (parse_items fuel)
  /\ shrinks (parse_members fuel).
Proof.
  induction fuel as [| f (Hv & Hi & Hm)].
  - repeat split; intros s x rest H; discriminate H.
  - repeat split.
    + apply (value_body_shrinks _ _ Hi Hm).
    + apply (items_body_shrinks _ _ Hv Hi).
    + apply (members_body_shrinks _ _ Hv Hm).
Qed.

(** The bodies only call the parsers they are given on shorter inputs. *)
Lemma value_body_ext s items items' members members' :
  (forall s', (length s' < length s)%nat -> items s' = items' s') ->
  (forall s', (length s' < length s)%nat -> members s' = members' s') ->
  value_body items members s = value_body items' members' s.
Proof.
  intros Hi Hm. unfold value_body.
  destruct s as [| c r]; [reflexivity |].
  pose proof (skip_ws_length r) as Hws.
  destruct (skip_ws r) as [| c' r']; [reflexivity |].
  rewrite Hi, Hm by (cbn [length] in *; lia). reflexivity.
Qed.

Lemma items_body_ext s value value' items items' :
  shrinks value -> value s = value' s ->
  (forall s', (length s' + 2 <= length s)%nat -> items s' = items' s') ->
  items_body value items s = items_body value' items' s.
Proof.
  intros Hsh Hv Hi. unfold items_body. rewrite <- Hv.
  destruct (value s) as [[v rest] |] eqn:E; [| reflexivity].
  apply Hsh in E. pose proof (skip_ws_length rest) as Hws.
  destruct (skip_ws rest) as [| c r]; [reflexivity |].
  pose proof (skip_ws_length r).
  rewrite Hi by (cbn [length] in *; lia). reflexivity.
Qed.

Lemma members_body_ext s value value' members members' :
  shrinks value ->
  (forall s', (length s' < length s)%nat -> value s' = value' s') ->
  (forall s', (length s' < length s)%nat -> members s' = members' s') ->
  members_body value members s = members_body value' members' s.
Proof.
  intros Hsh Hv Hm. unfold members_body.
  destruct s as [| c r]; [reflexivity |].
  destruct (negb (c =? 34)%N); [reflexivity |].
  destruct (scan_string r []) as [[k rest1] |] eqn:E; [| reflexivity].
  apply (scan_string_shorter (length r)) in E; [| lia].
  pose proof (skip_ws_length rest1) as Hws1.
  destruct (skip_ws rest1) as [| c1 r1]; [reflexivity |].
  destruct (negb (c1 =? 58)%N); [reflexivity |].
  pose proof (skip_ws_length r1) as Hws2.
  rewrite <- Hv by (cbn [length] in *; lia).
  destruct (value (skip_ws r1)) as [[v rest2] |] eqn:E2; [| reflexivity].
  apply Hsh in E2. pose proof (skip_ws_length rest2) as Hws3.
  destruct (skip_ws rest2) as [| c2 r2]; [reflexivity |].
  pose proof (skip_ws_length r2).
  rewrite Hm by (cbn [length] in *; lia). reflexivity.
Qed.

(** One more unit of fuel changes nothing once the fuel exceeds twice the
    length of the input. *)
Lemma parse_fuel_step fuel :
  (forall s, (2 * length s + 1 <= fuel)%nat ->
     parse_value fuel s = parse_value (S fuel) s)
  /\ (forall s, (2 * length s + 2 <= fuel)%nat ->
        parse_items fuel s = parse_items (S fuel) s)
  /\ (forall s, (2 * length s + 2 <= fuel)%nat ->
        parse_members fuel s = parse_members (S fuel) s).
Proof.
  induction fuel as [| f (IHv & IHi & IHm)].
  - repeat split; intros s H; lia.
  - destruct (parse_shrinks f) as (Hsv & _ & _).
    repeat split; intros s H.
    + change (value_body (parse_items f) (parse_members f) s
              = value_body (parse_items (S f)) (parse_members (S f)) s).
      apply value_body_ext; intros s' Hs'; [apply IHi | apply IHm]; lia.
    + change (items_body (parse_value f) (parse_items f) s
              = items_body (parse_value (S f)) (parse_items (S f)) s).
      apply items_body_ext; [assumption | apply IHv; lia |].
      intros s' Hs'. apply IHi. lia.
    + change (members_body (parse_value f) (parse_members f) s
              = members_body (parse_value (S f)) (parse_members (S f)) s).
      apply members_body_ext; [assumption | |]; intros s' Hs';
        [apply IHv | apply IHm]; lia.
Qed.

(** The fuel [json_loads] gives is enough: no larger amount changes the
    result, so a failure is a syntax error, never a lack of fuel. *)
Theorem parse_value_fuel_enough s k :
  parse_value (2 * length s + 2 + k) (skip_ws s)
  = parse_value (2 * length s + 2) (skip_ws s).
Proof.
  induction k as [| k IH]; [by rewrite Nat.add_0_r |].
  rewrite <- IH. replace (2 * length s + 2 + S k)%nat
    with (S (2 * length s + 2 + k)) by lia.
  symmetry. apply (proj1 (parse_fuel_step _)).
  pose proof (skip_ws_length s). lia.
Qed.

(** ** The executor away from its two defects *)

(** When the request can be built and no HTTP error with an unreadable
    body reaches the handlers, the executor returns a result: it carries
    the index and the measured duration, and a failure carries no
    characters and a message. *)
Lemma executor_returns_result idx total api_url api_key model prompt
    timeout max_tokens temperature w req :
  make_request api_url api_key model prompt max_tokens temperature = inr req ->
  match attempt_exception (transport w (length (sent w)) req timeout) with
  | Some e => body_unreadable e = false
  | None => True
  end ->
  exists r w',
    run_single_request idx total api_url api_key model prompt timeout max_tokens
      temperature w = (inr r, w')
    /\ index r = idx
    /\ duration r = measured w
    /\ (ok r = true -> error r = [])
    /\ (ok r = false -> chars r = 0 /\ error r <> []).
Proof.
  intros Hreq. unfold run_single_request. rewrite Hreq.
  cbn [perf_counter]. unfold attempt. cbn [urlopen transport sent clock ticks].
  unfold attempt_exception.
  destruct (transport w (length (sent w)) req timeout) as [e | resp].
  - intros Hb. unfold handle.
    destruct e as [code reason [e' | raw] | | | | | | | | |];
      try discriminate Hb; cbn [perf_counter clock ticks];
      eexists _, _; (split; [reflexivity |]);
      repeat split; try discriminate; cbn [error failed];
      try (intros _; split; [reflexivity | discriminate]).
  - destruct (negb (status resp =? 200)).
    + destruct (read_all resp) as [e | raw].
      * intros Hb. unfold handle.
        destruct e as [code reason [e' | raw] | | | | | | | | |];
          try discriminate Hb; cbn [perf_counter clock ticks];
          eexists _, _; (split; [reflexivity |]);
          repeat split; try discriminate; cbn [error failed];
          try (intros _; split; [reflexivity | discriminate]).
      * intros _. unfold handle. cbn [perf_counter clock ticks].
        eexists _, _. split; [reflexivity |].
        repeat split; try discriminate.
    + destruct (fst (parse_sse_stream (read_lines resp))) as [e | text].
      * intros Hb. unfold handle.
        destruct e as [code reason [e' | raw] | | | | | | | | |];
          try discriminate Hb; cbn [perf_counter clock ticks];
          eexists _, _; (split; [reflexivity |]);
          repeat split; try discriminate; cbn [error failed];
          try (intros _; split; [reflexivity | discriminate]).
      * intros _. cbn [perf_counter clock ticks].
        eexists _, _. split; [reflexivity |].
        repeat split; try discriminate.
Qed.

(** * Properties of the code around the claims *)

(** ** The stream decoder, continued *)

Lemma is_sentinel_not_nil line : is_sentinel line = true -> line <> [].
Proof.
  intros H ->. unfold is_sentinel in H. rewrite frame_payload_nil in H. discriminate.
Qed.

Lemma parse_loop_nil full_text printed :
  parse_loop [] full_text printed = (inr (concat full_text), printed).
Proof. reflexivity. Qed.

Lemma parse_loop_done b l rest full_text printed :
  frame_step (b :: l) = Done ->
  parse_loop (inr (b :: l) :: rest) full_text printed = (inr (concat full_text), printed).
Proof. intros H. by rewrite parse_loop_cons, H. Qed.

(** X1.  The sentinel acts as the end of input: whatever precedes it, the
    decoder gives with a sentinel line, followed by anything (frames,
    malformed frames, even reads that would fail), what it gives when the
    input ends there. *)
Theorem X1_sentinel_ends_the_stream
    (pre post : line_source) (line : bytes)
    (Hdone : is_sentinel line = true) :
  (forall full_text printed,
     parse_loop (pre ++ inr line :: post) full_text printed
     = parse_loop pre full_text printed)
  /\ parse_sse_stream (pre ++ inr line :: post) = parse_sse_stream pre.
Proof.
  pose proof (is_sentinel_not_nil _ Hdone) as Hne.
  pose proof (frame_step_sentinel _ Hdone) as Hstep.
  destruct line as [| b l]; [congruence |].
  assert (H : forall full_text printed,
             parse_loop (pre ++ inr (b :: l) :: post) full_text printed
             = parse_loop pre full_text printed).
  { induction pre as [| x pre IH]; intros ft pr.
    - by rewrite app_nil_l, parse_loop_done, parse_loop_nil.
    - rewrite <- app_comm_cons. destruct x as [e | [| b' l']]; try reflexivity.
      rewrite !parse_loop_cons. destruct (frame_step (b' :: l')); auto. }
  split; [exact H | apply H].
Qed.

Lemma X1_witness :
  (forall full_text printed,
     parse_loop ([inr hi_line] ++ inr done_line :: [inr (b_ "data: 5")]) full_text printed
     = parse_loop [inr hi_line] full_text printed)
  /\ parse_sse_stream ([inr hi_line] ++ inr done_line :: [inr (b_ "data: 5")])
     = parse_sse_stream [inr hi_line].
Proof.
  apply (X1_sentinel_ends_the_stream [inr hi_line] [inr (b_ "data: 5")] done_line).
  vm_compute. reflexivity.
Defined.

(** X2.  A line that was read and does not start, once stripped, with
    [data:] (a comment, a blank keep-alive line, another field) is
    ignored: the decoder gives with it what it gives without it. *)
Theorem X2_non_data_line_is_ignored
    (pre post : line_source) (line : bytes)
    (Hread : line <> [])
    (Hother : frame_payload line = None) :
  (forall full_text printed,
     parse_loop (pre ++ inr line :: post) full_text printed
     = parse_loop (pre ++ post) full_text printed)
  /\ parse_sse_stream (pre ++ inr line :: post) = parse_sse_stream (pre ++ post).
Proof.
  pose proof (frame_step_not_frame _ Hother) as Hskip.
  split; [| unfold parse_sse_stream]; intros; by apply parse_loop_insert_skip.
Qed.

Lemma X2_witness :
  (forall full_text printed,
     parse_loop ([inr blank_line] ++ inr comment_line :: [inr hi_line]) full_text printed
     = parse_loop ([inr blank_line] ++ [inr hi_line]) full_text printed)
  /\ parse_sse_stream ([inr blank_line] ++ inr comment_line :: [inr hi_line])
     = parse_sse_stream ([inr blank_line] ++ [inr hi_line]).
Proof.
  apply (X2_non_data_line_is_ignored [inr blank_line] [inr hi_line] comment_line).
  - discriminate.
  - vm_compute. reflexivity.
Defined.

Lemma frame_step_emit_nonempty line token :
  frame_step line = Emit token -> token <> [].
Proof.
  unfold frame_step.
  repeat match goal with
         | |- context [if ?b then _ else _] => destruct b
         | |- context [match ?x with _ => _ end] => destruct x
         end; intros [= <-] || discriminate; discriminate.
Qed.

Lemma parse_loop_passes pre : forall rest full_text printed,
  forallb passes pre = true ->
  parse_loop (pre ++ rest) full_text printed
  = parse_loop rest (full_text ++ emitted_tokens pre) (printed ++ emitted_tokens pre).
Proof.
  unfold emitted_tokens.
  induction pre as [| x pre IH]; intros rest ft pr Hp.
  - cbn [map concat]. by rewrite !app_nil_r.
  - cbn [forallb] in Hp. apply andb_prop in Hp as [Hx Hp].
    destruct x as [e | [| b l]]; try discriminate Hx.
    rewrite <- app_comm_cons, parse_loop_cons.
    cbn [map concat emitted]. unfold passes in Hx.
    destruct (frame_step (b :: l)); try discriminate Hx.
    + by rewrite IH.
    + rewrite IH by assumption. by rewrite <- !app_assoc.
Qed.

Lemma parse_loop_tokens response : forall full_text printed,
  exists new,
    snd (parse_loop response full_text printed) = printed ++ new
    /\ Forall (fun t => t <> []) new
    /\ match fst (parse_loop response full_text printed) with
       | inr text => text = concat (full_text ++ new)
       | inl _ => True
       end.
Proof.
  induction response as [| x response IH]; intros ft pr.
  - exists []. rewrite !app_nil_r. repeat split. constructor.
  - destruct x as [e | [| b l]].
    + exists []. rewrite !app_nil_r. repeat split. constructor.
    + exists []. rewrite !app_nil_r. repeat split. constructor.
    + rewrite parse_loop_cons. destruct (frame_step (b :: l)) as [| token | | e] eqn:E.
      * apply IH.
      * destruct (IH (ft ++ [token]) (pr ++ [token])) as (new & H1 & H2 & H3).
        exists (token :: new). rewrite H1. split; [by rewrite <- app_assoc |].
        split; [constructor; [by eapply frame_step_emit_nonempty | assumption] |].
        destruct (fst (parse_loop response (ft ++ [token]) (pr ++ [token])));
          [exact I |]. by rewrite H3, <- app_assoc.
      * exists []. rewrite !app_nil_r. repeat split. constructor.
      * exists []. rewrite !app_nil_r. repeat split. constructor.
Qed.

(** X3.  For every source of lines, whatever ends the decoding, each token
    written to standard output is a non-empty string, and when the decoder
    returns, the text it returns is the concatenation of the tokens it
    has written, in the order it wrote them. *)
Theorem X3_returned_text_is_what_was_printed (response : line_source) :
  Forall (fun t => t <> []) (snd (parse_sse_stream response))
  /\ match fst (parse_sse_stream response) with
     | inr text => text = concat (snd (parse_sse_stream response))
     | inl _ => True
     end.
Proof.
  unfold parse_sse_stream.
  destruct (parse_loop_tokens response [] []) as (new & H1 & H2 & H3).
  rewrite H1. split; [exact H2 |].
  destruct (fst (parse_loop response [] [])); [exact I | exact H3].
Qed.

(** X4.  A read that fails ends the decoding with the exception of the
    transport: after lines on which the loop goes on, the decoder raises
    what [readline] raised, having written the tokens of the lines before
    it; nothing after the failed read is looked at. *)
Theorem X4_read_failure_is_propagated
    (pre post : line_source) (e : exn)
    (Hpre : forallb passes pre = true) :
  parse_sse_stream (pre ++ inl e :: post) = (inl e, emitted_tokens pre).
Proof.
  unfold parse_sse_stream. by rewrite parse_loop_passes.
Qed.

Lemma X4_witness :
  parse_sse_stream ([inr hi_line; inr blank_line] ++ inl (Timeout (u_ "timed out"))
                    :: [inr hi_line])
  = (inl (Timeout (u_ "timed out")), emitted_tokens [inr hi_line; inr blank_line]).
Proof.
  apply (X4_read_failure_is_propagated [inr hi_line; inr blank_line] [inr hi_line]).
  vm_compute. reflexivity.
Defined.

(** ** The request executor, continued *)

Lemma handle_spec idx started e w :
  handle idx started e w =
  match e, failure_message e with
  | HTTPError _ _ (inl e'), _ => (inl e', w)
  | _, Some msg =>
    (inr (failed idx (clock w (ticks w) - started)%Q msg), snd (perf_counter w))
  | _, None => (inl e, w)
  end.
Proof. destruct e as [code reason [e' | raw] | | | | | | | | |]; reflexivity. Qed.

Lemma failure_message_nonempty e msg : failure_message e = Some msg -> msg <> [].
Proof.
  destruct e as [code reason [e' | raw] | | | | | | | | |]; cbn [failure_message];
    intros [= <-] || discriminate; discriminate.
Qed.

(** The executor in one equation: what it does is decided by the
    constructor of the request and by what leaves the [try] block. *)
Lemma run_single_request_spec idx total api_url api_key model prompt
    timeout max_tokens temperature w :
  run_single_request idx total api_url api_key model prompt timeout max_tokens
    temperature w =
  match make_request api_url api_key model prompt max_tokens temperature with
  | inl e => (inl e, w)
  | inr req =>
    let o := transport w (length (sent w)) req timeout in
    match attempt_exception o with
    | None =>
      (inr {| index := idx; ok := true; duration := measured w;
              chars := py_len (attempt_text o); error := [] |},
       snd (perf_counter (after_urlopen req timeout w)))
    | Some e => handle idx (clock w (ticks w)) e (after_urlopen req timeout w)
    end
  end.
Proof.
  unfold run_single_request.
  destruct (make_request _ _ _ _ _ _) as [e | req]; [reflexivity |].
  cbn [perf_counter]. unfold attempt. cbn [urlopen transport sent clock ticks].
  cbv zeta. unfold attempt_exception, attempt_text.
  destruct (transport w (length (sent w)) req timeout) as [e | resp]; [reflexivity |].
  destruct (negb (status resp =? 200)).
  - destruct (read_all resp); reflexivity.
  - destruct (fst (parse_sse_stream (read_lines resp))); reflexivity.
Qed.

(** X5.  Away from its two defects the executor never raises: when the
    request can be built and no HTTP error with an unreadable body leaves
    the [try] block, it returns a result that carries the index and the
    measured duration; a success has no message and a failure has no
    characters and a message. *)
Theorem X5_executor_returns_a_result
    (idx total : Z) (api_url api_key model prompt : str)
    (timeout max_tokens : Z) (temperature : Q) (w : world) (req : http_request)
    (Hreq : make_request api_url api_key model prompt max_tokens temperature = inr req)
    (Hreadable :
       match attempt_exception (transport w (length (sent w)) req timeout) with
       | Some e => body_unreadable e = false
       | None => True
       end) :
  exists r w',
    run_single_request idx total api_url api_key model prompt timeout max_tokens
      temperature w = (inr r, w')
    /\ index r = idx
    /\ duration r = measured w
    /\ (ok r = true -> error r = [])
    /\ (ok r = false -> chars r = 0 /\ error r <> []).
Proof. by apply (executor_returns_result _ _ _ _ _ _ _ _ _ _ req). Qed.

Lemma X5_witness :
  exists r w',
    run_single_request 3 5 DEFAULT_API_URL (u_ "sk-test") DEFAULT_MODEL DEFAULT_PROMPT
      120 128 (1 # 10)%Q
      (example_world (fun _ _ _ => Responds stalled_response) ∅) = (inr r, w')
    /\ index r = 3
    /\ duration r = measured (example_world (fun _ _ _ => Responds stalled_response) ∅)
    /\ (ok r = true -> error r = [])
    /\ (ok r = false -> chars r = 0 /\ error r <> []).
Proof.
  apply (X5_executor_returns_a_result 3 5 DEFAULT_API_URL (u_ "sk-test") DEFAULT_MODEL
           DEFAULT_PROMPT 120 128 (1 # 10)%Q
           (example_world (fun _ _ _ => Responds stalled_response) ∅) example_request).
  - vm_compute. reflexivity.
  - vm_compute. reflexivity.
Defined.

Lemma make_request_fields api_url api_key model prompt max_tokens temperature req :
  make_request api_url api_key model prompt max_tokens temperature = inr req ->
  req_url req = api_url
  /\ req_method req = u_ "POST"
  /\ req_headers req = [(u_ "Authorization", u_ "Bearer " ++ api_key);
                        (u_ "Content-Type", u_ "application/json")]
  /\ req_data req =
     {| body_model := model; body_stream := true;
        body_messages := [(u_ "system", u_ "You are a helpful assistant.");
                          (u_ "user", prompt)];
        body_max_tokens := max_tokens; body_temperature := temperature |}.
Proof.
  unfold make_request, Urllib.Request.
  destruct (Urllib.has_url_type _); [| discriminate].
  intros [= <-]. repeat split.
Qed.

(** X6.  One call of the executor is one request: when the request object
    cannot be built nothing happens at all; otherwise exactly one request
    is sent, a POST to the configured URL with the bearer credential, the
    JSON content type, streaming switched on and the fixed system message
    before the prompt; the clock is read twice when a result is returned
    and once when an exception leaves the function; no pause is made and
    no file or setting is touched. *)
Theorem X6_one_request_per_call
    (idx total : Z) (api_url api_key model prompt : str)
    (timeout max_tokens : Z) (temperature : Q) (w : world) :
  let res := run_single_request idx total api_url api_key model prompt timeout
               max_tokens temperature w in
  match make_request api_url api_key model prompt max_tokens temperature with
  | inl e => res = (inl e, w)
  | inr req =>
    req_url req = api_url
    /\ req_method req = u_ "POST"
    /\ req_headers req = [(u_ "Authorization", u_ "Bearer " ++ api_key);
                          (u_ "Content-Type", u_ "application/json")]
    /\ req_data req =
       {| body_model := model; body_stream := true;
          body_messages := [(u_ "system", u_ "You are a helpful assistant.");
                            (u_ "user", prompt)];
          body_max_tokens := max_tokens; body_temperature := temperature |}
    /\ sent (snd res) = sent w ++ [req]
    /\ ticks (snd res)
       = match fst res with inr _ => S (S (ticks w)) | inl _ => S (ticks w) end
    /\ slept (snd res) = slept w
    /\ files (snd res) = files w
    /\ environ (snd res) = environ w
  end.
Proof.
  cbv zeta. rewrite run_single_request_spec.
  destruct (make_request _ _ _ _ _ _) as [e | req] eqn:Hreq; [reflexivity |].
  destruct (make_request_fields _ _ _ _ _ _ _ Hreq) as (H1 & H2 & H3 & H4).
  repeat (split; [assumption |]). cbv zeta.
  destruct (attempt_exception _) as [e |]; [| repeat split].
  rewrite handle_spec.
  destruct e as [code reason [e' | raw] | | | | | | | | |]; repeat split.
Qed.

(** X7.  The executor and the decoder together: when [urlopen] returns a
    response with status 200 whose lines are all well shaped up to the
    sentinel or the end of input, the result is a success whose character
    count is the number of code points of the concatenated tokens of the
    stream, with an empty message and the measured duration. *)
Theorem X7_success_counts_the_stream
    (idx total : Z) (api_url api_key model prompt : str)
    (timeout max_tokens : Z) (temperature : Q) (w : world)
    (req : http_request) (resp : http_response) (ls : list bytes)
    (Hreq : make_request api_url api_key model prompt max_tokens temperature = inr req)
    (Hout : transport w (length (sent w)) req timeout = Responds resp)
    (Hstatus : status resp = 200)
    (Hbody : read_lines resp = of_lines ls)
    (Hshape : Forall (fun l => well_shaped l = true) (spec_live_lines ls)) :
  fst (run_single_request idx total api_url api_key model prompt timeout max_tokens
         temperature w)
  = inr {| index := idx; ok := true; duration := measured w;
           chars := py_len (spec_text ls); error := [] |}.
Proof.
  rewrite run_single_request_spec, Hreq. cbv zeta. rewrite Hout.
  unfold attempt_exception, attempt_text. rewrite Hstatus, Hbody. cbn [negb Z.eqb Pos.eqb].
  unfold parse_sse_stream. rewrite (parse_loop_shaped ls [] [] Hshape).
  reflexivity.
Qed.

Lemma X7_witness :
  fst (run_single_request 1 5 DEFAULT_API_URL (u_ "sk-test") DEFAULT_MODEL
         DEFAULT_PROMPT 120 128 (1 # 10)%Q healthy_world)
  = inr {| index := 1; ok := true; duration := measured healthy_world;
           chars := py_len (spec_text (body_lines hi_body)); error := [] |}.
Proof.
  apply (X7_success_counts_the_stream 1 5 DEFAULT_API_URL (u_ "sk-test")
           DEFAULT_MODEL DEFAULT_PROMPT 120 128 (1 # 10)%Q healthy_world
           example_request hi_response (body_lines hi_body)).
  - vm_compute. reflexivity.
  - reflexivity.
  - reflexivity.
  - reflexivity.
  - set (live := spec_live_lines (body_lines hi_body)).
    vm_compute in live. subst live.
    repeat (constructor; [vm_compute; reflexivity |]). constructor.
Defined.

(** X8.  Every exception that leaves the [try] block, whether [urlopen]
    raised it, the read of an error body, a read of the stream or the
    decoder itself, gives a failed result whose message is decided by the
    class of the exception: [HTTPError <code>: <body>] for an HTTP error
    with a readable body, [Network/Timeout error: ] and the text of the
    exception for URL errors and timeouts, [Unexpected error: ] and the
    text of the exception for everything else.  In particular a timeout
    in the middle of the stream is a network failure, and the tokens
    received before it are not counted. *)
Theorem X8_failure_message_by_class
    (idx total : Z) (api_url api_key model prompt : str)
    (timeout max_tokens : Z) (temperature : Q) (w : world)
    (req : http_request) (e : exn) (msg : str)
    (Hreq : make_request api_url api_key model prompt max_tokens temperature = inr req)
    (Hexn : attempt_exception (transport w (length (sent w)) req timeout) = Some e)
    (Hmsg : failure_message e = Some msg) :
  fst (run_single_request idx total api_url api_key model prompt timeout max_tokens
         temperature w)
  = inr (failed idx (measured w) msg).
Proof.
  rewrite run_single_request_spec, Hreq. cbv zeta. rewrite Hexn.
  destruct e as [code reason [e' | raw] | | | | | | | | |];
    try discriminate Hmsg; injection Hmsg as <-; reflexivity.
Qed.

Lemma X8_witness :
  fst (run_single_request 1 5 DEFAULT_API_URL (u_ "sk-test") DEFAULT_MODEL
         DEFAULT_PROMPT 120 128 (1 # 10)%Q
         (example_world (fun _ _ _ => Responds stalled_response) ∅))
  = inr (failed 1 (measured (example_world (fun _ _ _ => Responds stalled_response) ∅))
           (u_ "Network/Timeout error: timed out")).
Proof.
  apply (X8_failure_message_by_class 1 5 DEFAULT_API_URL (u_ "sk-test")
           DEFAULT_MODEL DEFAULT_PROMPT 120 128 (1 # 10)%Q
           (example_world (fun _ _ _ => Responds stalled_response) ∅)
           example_request (Timeout (u_ "timed out"))).
  - vm_compute. reflexivity.
  - vm_compute. reflexivity.
  - vm_compute. reflexivity.
Defined.

(** X9.  Every result the executor returns, in every world, has one of
    two shapes: a success with an empty message and a character count
    that is not negative, or a failure with no characters and a message
    that is not empty.  So the message is empty exactly for the
    successes, which is what the report and the summary test. *)
Theorem X9_result_shape
    (idx total : Z) (api_url api_key model prompt : str)
    (timeout max_tokens : Z) (temperature : Q) (w w' : world) (r : RequestResult)
    (Hrun : run_single_request idx total api_url api_key model prompt timeout
              max_tokens temperature w = (inr r, w')) :
  index r = idx
  /\ duration r = measured w
  /\ 0 <= chars r
  /\ (ok r = true <-> error r = [])
  /\ (ok r = false -> chars r = 0).
Proof.
  rewrite run_single_request_spec in Hrun.
  destruct (make_request _ _ _ _ _ _) as [e | req]; [discriminate Hrun |].
  cbv zeta in Hrun. destruct (attempt_exception _) as [e |].
  - rewrite handle_spec in Hrun.
    destruct (failure_message e) as [msg |] eqn:Hmsg.
    + pose proof (failure_message_nonempty _ _ Hmsg) as Hne.
      assert (Hr : r = failed idx (measured w) msg).
      { destruct e as [code reason [e' | raw] | | | | | | | | |];
          try discriminate Hmsg; injection Hmsg as <-; injection Hrun as <- _;
          reflexivity. }
      subst r. cbn [index duration chars ok error failed].
      repeat split; try reflexivity; try lia; intros; congruence.
    + destruct e as [code reason [e' | raw] | | | | | | | | |]; discriminate.
  - injection Hrun as <- _. cbn [index duration chars ok error].
    repeat split; try reflexivity; try (unfold py_len; lia); intros; congruence.
Qed.

Lemma X9_witness :
  match run_single_request 2 5 DEFAULT_API_URL (u_ "sk-test") DEFAULT_MODEL
          DEFAULT_PROMPT 120 128 (1 # 10)%Q
          (example_world (fun _ _ _ => Responds created_response) ∅) with
  | (inr r, _) =>
    index r = 2
    /\ duration r
       = measured (example_world (fun _ _ _ => Responds created_response) ∅)
    /\ 0 <= chars r
    /\ (ok r = true <-> error r = [])
    /\ (ok r = false -> chars r = 0)
  | (inl _, _) => False
  end.
Proof.
  pose proof (X9_result_shape 2 5 DEFAULT_API_URL (u_ "sk-test") DEFAULT_MODEL
                DEFAULT_PROMPT 120 128 (1 # 10)%Q
                (example_world (fun _ _ _ => Responds created_response) ∅)) as H.
  set (res := run_single_request 2 5 DEFAULT_API_URL (u_ "sk-test") DEFAULT_MODEL
                DEFAULT_PROMPT 120 128 (1 # 10)%Q
                (example_world (fun _ _ _ => Responds created_response) ∅)) in *.
  vm_compute in res. subst res. cbv beta iota.
  apply (H _ _ eq_refl).
Defined.

(** ** The configuration *)

Lemma env_str_required_value w name v :
  env_str w name None true = inr v -> v <> [] /\ getenv w name = Some v.
Proof.
  unfold env_str. destruct (getenv w name) as [x |]; [| discriminate].
  cbn [andb]. destruct (str_eqb x []) eqn:E; [discriminate |].
  intros [= <-]. split; [| reflexivity].
  intros ->. by rewrite str_eqb_refl in E.
Qed.

Lemma validate_spec c c' :
  validate c = (None, c') ->
  c' = c /\ 0 < request_count c /\ 0 < timeout_seconds c /\ 0 < max_tokens c
  /\ 0 <= max_runtime_seconds c /\ (0 <= pause_seconds c)%Q.
Proof.
  unfold validate.
  destruct (Z.leb_spec (request_count c) 0); [discriminate |].
  destruct (Z.leb_spec (timeout_seconds c) 0); [discriminate |].
  destruct (Z.leb_spec (max_tokens c) 0); [discriminate |].
  destruct (Z.ltb_spec (max_runtime_seconds c) 0); [discriminate |].
  destruct (Qlt_bool (pause_seconds c) 0) eqn:E; [discriminate |].
  intros [= <-]. repeat split; try lia.
  unfold Qlt_bool in E. apply negb_false_iff in E. by apply Qle_bool_iff.
Qed.

Lemma validate_error c e c' :
  validate c = (Some e, c') -> c' = c /\ exists msg, e = ValueError msg.
Proof.
  unfold validate.
  repeat match goal with |- context [if ?b then _ else _] => destruct b end;
    intros [= <- <-] || discriminate; eauto.
Qed.

Lemma assign_error {A} (set : A -> config -> config) rhs k c e c' :
  assign set rhs k c = (Some e, c') ->
  (rhs = inl e /\ c' = c) \/ (exists v, rhs = inr v /\ k (set v c) = (Some e, c')).
Proof. unfold assign. destruct rhs; [intros [= <- <-]; auto | eauto]. Qed.

Lemma env_str_error w name default required e :
  env_str w name default required = inl e -> exists msg, e = ValueError msg.
Proof. unfold env_str. destruct (_ && _); [intros [= <-]; eauto | discriminate]. Qed.

Lemma env_int_error py_int w name default e :
  env_int py_int w name default = inl e -> exists msg, e = ValueError msg.
Proof.
  unfold env_int. destruct (getenv w name) as [[| ch v] |]; try discriminate.
  destruct (py_int _); [discriminate | intros [= <-]; eauto].
Qed.

Lemma env_float_error py_float w name default e :
  env_float py_float w name default = inl e -> exists msg, e = ValueError msg.
Proof.
  unfold env_float. destruct (getenv w name) as [[| ch v] |]; try discriminate.
  destruct (py_float _); [discriminate | intros [= <-]; eauto].
Qed.

(** Whatever stops the resolution is a [ValueError]. *)
Lemma resolve_config_error py_int py_float w e c :
  resolve_config py_int py_float w initial_config = (Some e, c) ->
  exists msg, e = ValueError msg.
Proof.
  unfold resolve_config. intros H.
  repeat match type of H with
         | assign _ _ _ _ = _ =>
           apply assign_error in H as [[H _] | (? & _ & H)];
             [first [ by eapply env_str_error
                    | by eapply env_int_error
                    | by eapply env_float_error ] |]
         end.
  by apply validate_error in H as [_ H].
Qed.

(** X10.  A configuration that the resolver accepts is valid: the
    credential is a non-empty string read from the environment, the
    request count, the timeout and the token limit are positive, and the
    runtime budget and the pause are not negative.  The benchmark loop
    only ever runs with such a configuration. *)
Theorem X10_resolved_config_is_valid
    (py_int : str -> option Z) (py_float : str -> option Q) (w : world) (c : config)
    (Hok : resolve_config py_int py_float w initial_config = (None, c)) :
  api_key c <> []
  /\ getenv w (u_ "OPENAI_API_KEY") = Some (api_key c)
  /\ 0 < request_count c
  /\ 0 < timeout_seconds c
  /\ 0 < max_tokens c
  /\ 0 <= max_runtime_seconds c
  /\ (0 <= pause_seconds c)%Q.
Proof.
  unfold resolve_config in Hok.
  apply assign_continues in Hok as (v1 & _ & Hok).
  apply assign_continues in Hok as (v2 & Hkey & Hok).
  repeat (apply assign_continues in Hok as (? & _ & Hok)).
  apply validate_spec in Hok as (-> & Hrest).
  apply env_str_required_value in Hkey as [Hne Hget].
  cbn [api_key set_temperature set_pause_seconds set_max_tokens
       set_max_runtime_seconds set_timeout_seconds set_request_count set_prompt
       set_model set_api_key] in *.
  repeat split; try assumption; apply Hrest.
Qed.

Lemma X10_witness :
  match resolve_config (fun _ => None) (fun _ => None) healthy_world initial_config with
  | (None, c) =>
    api_key c <> []
    /\ getenv healthy_world (u_ "OPENAI_API_KEY") = Some (api_key c)
    /\ 0 < request_count c
    /\ 0 < timeout_seconds c
    /\ 0 < max_tokens c
    /\ 0 <= max_runtime_seconds c
    /\ (0 <= pause_seconds c)%Q
  | (Some _, _) => False
  end.
Proof.
  pose proof (X10_resolved_config_is_valid (fun _ => None) (fun _ => None)
                healthy_world) as H.
  set (r := resolve_config (fun _ => None) (fun _ => None) healthy_world
              initial_config) in *.
  vm_compute in r. subst r. cbv beta iota.
  apply (H _ eq_refl).
Defined.

(** X11.  Every failure of the resolver ends the run as a configuration
    error: when a setting is missing, cannot be parsed or is out of range,
    a run that returns has exit code 2, status [CONFIG_ERROR] and the
    text of the exception as message; the result sequence is empty, the
    counts stay at zero, no request is sent and the clock is not read. *)
Theorem X11_resolver_failure_is_config_error
    (py_int : str -> option Z) (py_float : str -> option Q)
    (build_report_lines : report_args -> list str) (w : world)
    (e : exn) (c : config) (code : Z) (args : report_args) (w' : world)
    (Hfail : resolve_config py_int py_float w initial_config = (Some e, c))
    (Hmain : main py_int py_float build_report_lines w = inr (code, args, w')) :
  code = 2
  /\ r_status args = CONFIG_ERROR
  /\ r_error_message args = exn_str e
  /\ r_config args = c
  /\ r_results args = []
  /\ r_summary args = initial_summary
  /\ sent w' = sent w
  /\ ticks w' = ticks w.
Proof.
  destruct (main_of_main_try py_int py_float build_report_lines w)
    as (w1 & Hm & Hsent & Hticks).
  rewrite Hm in Hmain. injection Hmain as <- <- <-. clear Hm.
  destruct (resolve_config_error _ _ _ _ _ Hfail) as [msg ->].
  unfold main_try in *. rewrite Hfail in *. cbn in Hsent, Hticks |- *.
  repeat split; assumption.
Qed.

Lemma X11_witness :
  match main (fun _ => None) (fun _ => None) (fun _ => []) bad_count_world with
  | inr (code, args, w') =>
    code = 2
    /\ r_status args = CONFIG_ERROR
    /\ r_error_message args = exn_str bad_count_error
    /\ r_config args = sk_config
    /\ r_results args = []
    /\ r_summary args = initial_summary
    /\ sent w' = sent bad_count_world
    /\ ticks w' = ticks bad_count_world
  | inl _ => False
  end.
Proof.
  assert (Hfail :
            resolve_config (fun _ => None) (fun _ => None) bad_count_world
              initial_config
            = (Some bad_count_error, sk_config))
    by (vm_compute; reflexivity).
  pose proof (fun code args w' =>
                X11_resolver_failure_is_config_error (fun _ => None) (fun _ => None)
                  (fun _ => []) bad_count_world _ _ code args w' Hfail) as H.
  clear Hfail.
  set (r := main (fun _ => None) (fun _ => None) (fun _ => []) bad_count_world) in *.
  vm_compute in r. subst r. cbv beta iota.
  exact (H _ _ _ eq_refl).
Defined.

(** X12.  With the credential set to a non-empty string and none of the
    other settings present in the environment, the resolver accepts the
    configuration and every other setting has its default: the public
    endpoint, the model [gpt-4o-mini], the probe prompt, 5 requests, a
    timeout of 120 seconds, no runtime budget, 128 tokens, no pause and a
    temperature of 0.1. *)
Theorem X12_defaults
    (py_int : str -> option Z) (py_float : str -> option Q) (w : world) (key : str)
    (Hkey : getenv w (u_ "OPENAI_API_KEY") = Some key)
    (Hnonempty : key <> [])
    (Habsent : Forall (fun name => getenv w name = None) OPTIONAL_SETTINGS) :
  resolve_config py_int py_float w initial_config
  = (None,
     {| api_url := u_ "https://api.openai.com/v1/chat/completions";
        api_key := key;
        model := u_ "gpt-4o-mini";
        prompt := DEFAULT_PROMPT;
        request_count := 5;
        timeout_seconds := 120;
        max_runtime_seconds := 0;
        max_tokens := 128;
        pause_seconds := 0%Q;
        temperature := (1 # 10)%Q |}).
Proof.
  unfold OPTIONAL_SETTINGS in Habsent.
  repeat match goal with
         | H : Forall _ (_ :: _) |- _ =>
           let H1 := fresh "Hn" in
           apply Forall_cons in H as [H1 H]
         end.
  assert (Hk : env_str w (u_ "OPENAI_API_KEY") None true = inr key).
  { unfold env_str. rewrite Hkey. cbn [andb].
    destruct (str_eqb key []) eqn:E; [| reflexivity].
    apply str_eqb_eq in E. contradiction. }
  unfold resolve_config, assign.
  rewrite !env_str_optional, Hk. unfold env_int, env_float.
  rewrite Hn, Hn0, Hn1, Hn2, Hn3, Hn4, Hn5, Hn6, Hn7.
  reflexivity.
Qed.

Lemma X12_witness :
  resolve_config (fun _ => None) (fun _ => None) healthy_world initial_config
  = (None,
     {| api_url := u_ "https://api.openai.com/v1/chat/completions";
        api_key := u_ "sk-test";
        model := u_ "gpt-4o-mini";
        prompt := DEFAULT_PROMPT;
        request_count := 5;
        timeout_seconds := 120;
        max_runtime_seconds := 0;
        max_tokens := 128;
        pause_seconds := 0%Q;
        temperature := (1 # 10)%Q |}).
Proof.
  apply X12_defaults.
  - vm_compute. reflexivity.
  - discriminate.
  - unfold OPTIONAL_SETTINGS.
    repeat (constructor; [vm_compute; reflexivity |]). constructor.
Defined.

(** ** The benchmark loop, continued *)

Lemma run_single_request_world idx total api_url api_key model prompt
    timeout max_tokens temperature w req r w' :
  make_request api_url api_key model prompt max_tokens temperature = inr req ->
  run_single_request idx total api_url api_key model prompt timeout max_tokens
    temperature w = (inr r, w') ->
  w' = snd (perf_counter (after_urlopen req timeout w)).
Proof.
  intros Hreq. rewrite run_single_request_spec, Hreq. cbv zeta.
  destruct (attempt_exception _) as [e |]; [| by intros [= _ <-]].
  rewrite handle_spec.
  destruct e as [code reason [e' | raw] | | | | | | | | |];
    cbn [failure_message]; intros [= _ <-] || discriminate; reflexivity.
Qed.

Lemma benchmark_loop_indices n : forall idx c start rs w,
  exists new,
    snd (fst (benchmark_loop n idx c start rs w)) = rs ++ new
    /\ map index new = seqZ idx (Z.of_nat (length new)).
Proof.
  induction n as [| n IH]; intros idx c start rs w.
  - exists []. by rewrite app_nil_r.
  - rewrite benchmark_loop_step. destruct (budget_spent c _).
    { exists []. by rewrite app_nil_r. }
    destruct (request c idx _) as [[e | r] w2] eqn:Hreq.
    { exists []. by rewrite app_nil_r. }
    unfold request in Hreq. apply run_single_request_index in Hreq.
    destruct (pause_after c idx w2) as [e | w3].
    { exists [r]. split; [reflexivity |]. cbn [map length]. by rewrite Hreq. }
    destruct (IH (idx + 1) c start (rs ++ [r]) w3) as (new & H1 & H2).
    exists (r :: new). rewrite H1, <- app_assoc. split; [reflexivity |].
    cbn [map length]. rewrite H2, Hreq.
    rewrite (seqZ_cons idx) by lia.
    by replace (Z.pred (Z.of_nat (S (length new)))) with (Z.of_nat (length new)) by lia.
Qed.

(** X13.  In every run that returns, however it ends (all requests
    made, budget spent, an exception out of the executor or the pause, a
    configuration error), the results reported are numbered 1, 2, 3, ... in the order
    they were made: the k-th result carries the index k. *)
Theorem X13_results_are_numbered_in_order
    (py_int : str -> option Z) (py_float : str -> option Q)
    (build_report_lines : report_args -> list str) (w : world)
    (code : Z) (args : report_args) (w' : world)
    (Hmain : main py_int py_float build_report_lines w = inr (code, args, w')) :
  map index (r_results args) = seqZ 1 (Z.of_nat (length (r_results args))).
Proof.
  destruct (main_of_main_try py_int py_float build_report_lines w)
    as (w1 & Hm & _ & _).
  rewrite Hm in Hmain. injection Hmain as _ <- _. clear Hm.
  unfold main_try.
  destruct (resolve_config py_int py_float w initial_config) as [[e |] c].
  { destruct (main_handler e) as [[st msg] code']. reflexivity. }
  destruct (perf_counter w) as [suite_start w2].
  destruct (benchmark_loop_indices (Z.to_nat (request_count c)) 1 c suite_start [] w2)
    as (new & H1 & H2).
  destruct (benchmark_loop _ _ _ _ _ _) as [[[e |] results] w3];
    cbn [fst snd] in H1; rewrite app_nil_l in H1; subst results.
  - destruct (main_handler e) as [[st msg] code']. exact H2.
  - destruct (perf_counter w3) as [t w4].
    destruct (classify _) as [[st msg] code']. exact H2.
Qed.

Lemma X13_witness :
  match main (fun _ => None) (fun _ => None) (fun _ => []) healthy_world with
  | inr (_, args, _) =>
    map index (r_results args) = seqZ 1 (Z.of_nat (length (r_results args)))
  | inl _ => False
  end.
Proof.
  pose proof (X13_results_are_numbered_in_order (fun _ => None) (fun _ => None)
                (fun _ => []) healthy_world) as H.
  set (r := main (fun _ => None) (fun _ => None) (fun _ => []) healthy_world) in *.
  vm_compute in r. subst r. cbv beta iota.
  exact (H _ _ _ eq_refl).
Defined.

Lemma budget_off c elapsed :
  max_runtime_seconds c <= 0 -> budget_spent c elapsed = false.
Proof.
  intros H. unfold budget_spent.
  destruct (Z.ltb_spec 0 (max_runtime_seconds c)); [lia | reflexivity].
Qed.

Lemma full_run c req start m : forall idx rs w,
  config_request c = inr req ->
  max_runtime_seconds c <= 0 ->
  reliable w ->
  sleep_error w (pause_seconds c) = None ->
  idx + Z.of_nat m = request_count c + 1 ->
  exists rs' w',
    benchmark_loop m idx c start rs w = (None, rs', w')
    /\ length rs' = (length rs + m)%nat
    /\ sent w' = sent w ++ replicate m req
    /\ slept w' = slept w ++ pauses c m
    /\ ticks w' = (ticks w + 3 * m)%nat.
Proof.
  unfold pauses.
  induction m as [| m IH]; intros idx rs w Hreq Hbudget Hrel Hsleep Hidx.
  - exists rs, w. cbn [benchmark_loop replicate]. rewrite !app_nil_r.
    repeat split; try lia.
    destruct (Qlt_bool 0 (pause_seconds c)); cbn [replicate Nat.sub];
      by rewrite app_nil_r.
  - rewrite benchmark_loop_step, budget_off by assumption.
    destruct (executor_returns_result idx (request_count c) (api_url c) (api_key c)
                (model c) (prompt c) (timeout_seconds c) (max_tokens c)
                (temperature c) (snd (perf_counter w)) req Hreq
                (Hrel _ _ _)) as (r & w2 & Hrun & _).
    unfold request. rewrite Hrun.
    pose proof (run_single_request_world _ _ _ _ _ _ _ _ _ _ _ _ _ Hreq Hrun) as ->.
    match goal with
    | |- context [pause_after c idx ?w2] =>
      assert (Hw3 : exists w3,
                pause_after c idx w2 = inr w3
                /\ transport w3 = transport w
                /\ sleep_error w3 = sleep_error w
                /\ sent w3 = sent w ++ [req]
                /\ ticks w3 = S (S (S (ticks w)))
                /\ slept w3 = slept w ++
                     (if Qlt_bool 0 (pause_seconds c) && negb (idx =? request_count c)
                      then [pause_seconds c] else []))
    end.
    { unfold pause_after, sleep.
      destruct (Qlt_bool 0 (pause_seconds c) && negb (idx =? request_count c)).
      - cbn. rewrite Hsleep. eexists. split; [reflexivity |]. cbn. repeat split.
      - eexists. split; [reflexivity |]. cbn. rewrite ?app_nil_r. repeat split. }
    destruct Hw3 as (w3 & -> & Ht & He & Hs & Hk & Hp).
    destruct (IH (idx + 1) (rs ++ [r]) w3 Hreq Hbudget) as (rs' & w' & Hloop & Hlen & Hsent & Hslept & Hticks).
    { intros k rq t. rewrite Ht. apply Hrel. }
    { by rewrite He. }
    { lia. }
    exists rs', w'. split; [exact Hloop |].
    rewrite length_app in Hlen. cbn [length] in Hlen.
    rewrite Hsent, Hs, Hslept, Hp, Hticks, Hk, <- !app_assoc. cbn [replicate app].
    repeat split; try lia.
    f_equal. destruct (Qlt_bool 0 (pause_seconds c)); cbn [andb]; [| reflexivity].
    replace (S m - 1)%nat with m by lia.
    destruct (Z.eqb_spec idx (request_count c)) as [Heq | Hne]; cbn [negb].
    + assert (m = O) by lia. subst m. reflexivity.
    + destruct m as [| m]; [lia |].
      replace (S m - 1)%nat with m by lia. reflexivity.
Qed.

(** X14.  A run without a runtime budget makes every planned request,
    whatever their outcomes: when the request can be built, no HTTP
    error with an unreadable body occurs and [time.sleep] accepts the
    pause (it raises beyond the time range of the platform), the loop
    ends without an exception with one result per planned request, has
    sent that many requests, has read the clock three times per request,
    and has paused after each request but the last when the pause is
    positive (never otherwise). *)
Theorem X14_full_run_without_budget
    (c : config) (req : http_request) (start : Q) (w : world)
    (Hreq : config_request c = inr req)
    (Hbudget : max_runtime_seconds c <= 0)
    (Hplanned : 0 <= request_count c)
    (Hrel : reliable w)
    (Hsleep : sleep_error w (pause_seconds c) = None) :
  exists rs w',
    benchmark_loop (Z.to_nat (request_count c)) 1 c start [] w = (None, rs, w')
    /\ Z.of_nat (length rs) = request_count c
    /\ sent w' = sent w ++ replicate (Z.to_nat (request_count c)) req
    /\ slept w' = slept w ++ pauses c (Z.to_nat (request_count c))
    /\ ticks w' = (ticks w + 3 * Z.to_nat (request_count c))%nat.
Proof.
  destruct (full_run c req start (Z.to_nat (request_count c)) 1 [] w Hreq Hbudget Hrel
              Hsleep)
    as (rs & w' & H1 & H2 & H3 & H4 & H5); [lia |].
  exists rs, w'. repeat split; try assumption. cbn [length] in H2. lia.
Qed.

Lemma X14_witness :
  exists rs w',
    benchmark_loop (Z.to_nat (request_count paused_config)) 1 paused_config 0%Q []
      (example_world (fun _ _ _ => Responds stalled_response) ∅)
    = (None, rs, w')
    /\ Z.of_nat (length rs) = request_count paused_config
    /\ sent w' = sent (example_world (fun _ _ _ => Responds stalled_response) ∅)
                 ++ replicate (Z.to_nat (request_count paused_config)) example_request
    /\ slept w' = slept (example_world (fun _ _ _ => Responds stalled_response) ∅)
                  ++ pauses paused_config (Z.to_nat (request_count paused_config))
    /\ ticks w'
       = (ticks (example_world (fun _ _ _ => Responds stalled_response) ∅)
          + 3 * Z.to_nat (request_count paused_config))%nat.
Proof.
  apply X14_full_run_without_budget.
  - vm_compute. reflexivity.
  - vm_compute. discriminate.
  - vm_compute. discriminate.
  - intros k req timeout. vm_compute. reflexivity.
  - reflexivity.
Defined.

(** A pause the host refuses: [time.sleep] raises after the first
    request, the exception leaves the loop and [main] reports a runtime
    error with the one result; no pause was made and no second request
    was sent. *)
Example refused_pause_run :
  match main (fun _ => None) (fun _ => Some (inject_Z (10 ^ 30)))
          (fun _ => []) impatient_world with
  | inr (code, args, w') =>
    code = 1 /\ r_status args = RUNTIME_ERROR
    /\ r_error_message args
       = u_ "Unexpected runtime error: " ++ exn_str pause_refused
    /\ map index (r_results args) = [1]
    /\ slept w' = [] /\ length (sent w') = 1%nat
  | inl _ => False
  end.
Proof. vm_compute. repeat split; reflexivity. Qed.

Example paused_run :
  pauses paused_config 3 = [(1 # 2)%Q; (1 # 2)%Q].
Proof. reflexivity. Qed.

(** ** The run as a whole *)

(** X17.  When an exception leaves the executor in the middle of the
    loop, [main] does not pass it on.  A run that returns then has exit
    code 2 and status [CONFIG_ERROR] for a [ValueError], and exit code 1,
    status [RUNTIME_ERROR] and a message that starts with [Unexpected
    runtime error: ] otherwise.  The results collected before the
    exception are kept in the report, but the summary is not computed:
    the attempted, success and failure counts stay at zero whatever the
    number of results. *)
Theorem X17_exception_out_of_the_loop
    (py_int : str -> option Z) (py_float : str -> option Q)
    (build_report_lines : report_args -> list str) (w : world)
    (c : config) (e : exn) (rs : list RequestResult) (w2 : world)
    (code : Z) (args : report_args) (w' : world)
    (Hconfig : resolve_config py_int py_float w initial_config = (None, c))
    (Hloop : benchmark_loop (Z.to_nat (request_count c)) 1 c (clock w (ticks w)) []
               (snd (perf_counter w)) = (Some e, rs, w2))
    (Hmain : main py_int py_float build_report_lines w = inr (code, args, w')) :
  code = (if is_ValueError e then 2 else 1)
  /\ r_status args = (if is_ValueError e then CONFIG_ERROR else RUNTIME_ERROR)
  /\ r_error_message args
     = (if is_ValueError e then exn_str e
        else u_ "Unexpected runtime error: " ++ exn_str e)
  /\ r_results args = rs
  /\ attempted (r_summary args) = 0
  /\ success_count (r_summary args) = 0
  /\ failure_count (r_summary args) = 0.
Proof.
  destruct (main_of_main_try py_int py_float build_report_lines w)
    as (w1 & Hm & _ & _).
  rewrite Hm in Hmain. clear Hm. revert Hmain.
  unfold main_try. rewrite Hconfig.
  unfold perf_counter in Hloop |- *. cbn [snd] in Hloop.
  cbv beta iota. rewrite Hloop.
  unfold main_handler.
  destruct (is_ValueError e); cbn [fst snd]; intros [= <- <- _]; repeat split.
Qed.

Lemma X17_witness :
  match main (fun _ => None) (fun _ => None) (fun _ => []) failing_second_world with
  | inr (code, args, _) =>
    code = (if is_ValueError timed_out then 2 else 1)
    /\ r_status args = (if is_ValueError timed_out then CONFIG_ERROR else RUNTIME_ERROR)
    /\ r_error_message args
       = (if is_ValueError timed_out then exn_str timed_out
          else u_ "Unexpected runtime error: " ++ exn_str timed_out)
    /\ r_results args = [first_result]
    /\ attempted (r_summary args) = 0
    /\ success_count (r_summary args) = 0
    /\ failure_count (r_summary args) = 0
  | inl _ => False
  end.
Proof.
  assert (Hconfig :
            resolve_config (fun _ => None) (fun _ => None) failing_second_world
              initial_config
            = (None, sk_config))
    by (vm_compute; reflexivity).
  assert (Hloop : exists w2,
            benchmark_loop (Z.to_nat (request_count sk_config)) 1 sk_config
              (clock failing_second_world (ticks failing_second_world)) []
              (snd (perf_counter failing_second_world))
            = (Some timed_out, [first_result], w2)).
  { eexists. set (r := benchmark_loop _ _ _ _ _ _). vm_compute in r. subst r.
    reflexivity. }
  destruct Hloop as [w2 Hloop].
  pose proof (fun code args w' =>
                X17_exception_out_of_the_loop (fun _ => None) (fun _ => None)
                  (fun _ => []) failing_second_world _ _ _ w2 code args w'
                  Hconfig Hloop) as H.
  clear Hconfig Hloop.
  set (r := main (fun _ => None) (fun _ => None) (fun _ => []) failing_second_world)
    in *.
  vm_compute in r. subst r. cbv beta iota.
  exact (H _ _ _ eq_refl).
Defined.

Lemma filter_ok_all (results : list RequestResult) :
  length (filter (fun item => ok item = true) results) = length results ->
  Forall (fun item => ok item = true) results.
Proof.
  induction results as [| r rs IH]; [constructor |].
  rewrite filter_cons. pose proof (length_filter (fun item => ok item = true) rs).
  destruct (decide (ok r = true)); cbn [length]; intros Hlen.
  - constructor; [assumption | apply IH; lia].
  - lia.
Qed.

Lemma filter_ok_none (results : list RequestResult) :
  length (filter (fun item => ok item = true) results) = O ->
  Forall (fun item => ok item = false) results.
Proof.
  induction results as [| r rs IH]; [constructor |].
  rewrite filter_cons.
  destruct (decide (ok r = true)) as [| Hn]; cbn [length]; intros H; [lia |].
  constructor; [by destruct (ok r) | by apply IH].
Qed.

Lemma filter_ok_some (results : list RequestResult) :
  (0 < length (filter (fun item => ok item = true) results))%nat ->
  Exists (fun item => ok item = true) results.
Proof.
  induction results as [| r rs IH]; cbn [filter length]; [cbn; lia |].
  rewrite filter_cons.
  destruct (decide (ok r = true)); intros H; [by left | right; by apply IH].
Qed.

Lemma filter_ok_not_all (results : list RequestResult) :
  (length (filter (fun item => ok item = true) results) < length results)%nat ->
  Exists (fun item => ok item = false) results.
Proof.
  induction results as [| r rs IH]; cbn [length]; [lia |].
  rewrite filter_cons.
  destruct (decide (ok r = true)) as [| Hn]; cbn [length]; intros H.
  - right. apply IH. lia.
  - left. by destruct (ok r).
Qed.

(** What the classification says about a summary computed from a result
    sequence. *)
Lemma classify_summarize results total :
  let '(st, msg, code) := classify (summarize results total) in
  code = exit_code_of st
  /\ match st with
     | SUCCESS =>
       results <> [] /\ Forall (fun item => ok item = true) results /\ msg = []
     | PARTIAL_SUCCESS =>
       Exists (fun item => ok item = true) results
       /\ Exists (fun item => ok item = false) results /\ msg = []
     | FAILED => Forall (fun item => ok item = false) results /\ msg <> []
     | CONFIG_ERROR | RUNTIME_ERROR => False
     end.
Proof.
  unfold classify, summarize.
  cbn [attempted success_count failure_count].
  rewrite length_map.
  pose proof (length_filter (fun item => ok item = true) results) as Hle.
  set (n := length results) in *.
  set (k := length (filter (fun item => ok item = true) results)) in *.
  destruct (Z.eqb_spec (Z.of_nat n) 0) as [Hn | Hn].
  { split; [reflexivity |]. split; [| discriminate].
    apply filter_ok_none. fold k. lia. }
  destruct (Z.eqb_spec (Z.of_nat k) 0) as [Hk | Hk].
  { split; [reflexivity |]. split; [| discriminate].
    apply filter_ok_none. fold k. lia. }
  destruct (Z.ltb_spec 0 (Z.of_nat n - Z.of_nat k)) as [Hf | Hf].
  - split; [reflexivity |]. repeat split.
    + apply filter_ok_some. fold k. lia.
    + apply filter_ok_not_all. fold k n. lia.
  - split; [reflexivity |]. repeat split.
    + intros ->. subst n. cbn in Hn. lia.
    + apply filter_ok_all. fold k n. lia.
Qed.

(** X15.  In every run that returns, the exit code is the one of the
    status reported: 0 for [SUCCESS] and [PARTIAL_SUCCESS], 1 for
    [FAILED] and [RUNTIME_ERROR], 2 for [CONFIG_ERROR].  The status says
    what the results are: [SUCCESS] means at least one result and all of
    them successful, [PARTIAL_SUCCESS] at least one success and at least
    one failure, [FAILED] no success at all (in particular no result);
    the message is empty for the first two and not empty for the third. *)
Theorem X15_exit_code_and_status
    (py_int : str -> option Z) (py_float : str -> option Q)
    (build_report_lines : report_args -> list str) (w : world)
    (code : Z) (args : report_args) (w' : world)
    (Hmain : main py_int py_float build_report_lines w = inr (code, args, w')) :
  code = exit_code_of (r_status args)
  /\ match r_status args with
     | SUCCESS =>
       r_results args <> []
       /\ Forall (fun item => ok item = true) (r_results args)
       /\ r_error_message args = []
     | PARTIAL_SUCCESS =>
       Exists (fun item => ok item = true) (r_results args)
       /\ Exists (fun item => ok item = false) (r_results args)
       /\ r_error_message args = []
     | FAILED =>
       Forall (fun item => ok item = false) (r_results args)
       /\ r_error_message args <> []
     | CONFIG_ERROR | RUNTIME_ERROR => True
     end.
Proof.
  destruct (main_of_main_try py_int py_float build_report_lines w)
    as (w1 & Hm & _ & _).
  rewrite Hm in Hmain. injection Hmain as <- <- _. clear Hm.
  unfold main_try.
  destruct (resolve_config py_int py_float w initial_config) as [[e |] c].
  { unfold main_handler. destruct (is_ValueError e); cbn; split; reflexivity || exact I. }
  destruct (perf_counter w) as [suite_start w2].
  destruct (benchmark_loop _ _ _ _ _ _) as [[[e |] results] w3].
  { unfold main_handler. destruct (is_ValueError e); cbn; split; reflexivity || exact I. }
  destruct (perf_counter w3) as [t w4].
  pose proof (classify_summarize results (t - suite_start)%Q) as H.
  destruct (classify _) as [[st msg] code]. cbn [fst snd r_status r_results r_error_message].
  destruct H as [H1 H2]. split; [exact H1 |].
  destruct st; try exact H2; exact I.
Qed.

Lemma X15_witness :
  match main (fun _ => None) (fun _ => None) (fun _ => []) healthy_world with
  | inr (code, args, _) =>
    code = exit_code_of (r_status args)
    /\ match r_status args with
       | SUCCESS =>
         r_results args <> []
         /\ Forall (fun item => ok item = true) (r_results args)
         /\ r_error_message args = []
       | PARTIAL_SUCCESS =>
         Exists (fun item => ok item = true) (r_results args)
         /\ Exists (fun item => ok item = false) (r_results args)
         /\ r_error_message args = []
       | FAILED =>
         Forall (fun item => ok item = false) (r_results args)
         /\ r_error_message args <> []
       | CONFIG_ERROR | RUNTIME_ERROR => True
       end
  | inl _ => False
  end.
Proof.
  pose proof (X15_exit_code_and_status (fun _ => None) (fun _ => None) (fun _ => [])
                healthy_world) as H.
  set (r := main (fun _ => None) (fun _ => None) (fun _ => []) healthy_world) in *.
  vm_compute in r. subst r. cbv beta iota.
  exact (H _ _ _ eq_refl).
Defined.

(** ** The statistics of the summary *)

Lemma Qlt_bool_spec (a b : Q) : reflect (a < b)%Q (Qlt_bool a b).
Proof.
  unfold Qlt_bool. destruct (Qle_bool b a) eqn:H; constructor.
  - apply Qle_bool_iff in H. by apply Qle_not_lt.
  - apply Qnot_le_lt. intros Hle. apply Qle_bool_iff in Hle. congruence.
Qed.

Lemma Qmin_list_spec (l : list Q) (x : Q) :
  In (Qmin_list x l) (x :: l)
  /\ Forall (fun y => (Qmin_list x l <= y)%Q) (x :: l).
Proof.
  unfold Qmin_list. revert x.
  induction l as [| y l IH]; intros x; cbn [fold_left].
  { split; [by left | constructor; [apply Qle_refl | constructor]]. }
  destruct (IH (if Qlt_bool y x then y else x)) as [Hin Hall].
  apply Forall_cons in Hall as [Hm Hall].
  destruct (Qlt_bool_spec y x) as [Hlt | Hge].
  - split.
    + right. exact Hin.
    + constructor; [| constructor; assumption].
      eapply Qle_trans; [exact Hm | by apply Qlt_le_weak].
  - apply Qnot_lt_le in Hge. split.
    + destruct Hin as [<- | Hin]; [by left | right; by right].
    + constructor; [assumption |].
      constructor; [eapply Qle_trans; eassumption | assumption].
Qed.

Lemma Qmax_list_spec (l : list Q) (x : Q) :
  In (Qmax_list x l) (x :: l)
  /\ Forall (fun y => (y <= Qmax_list x l)%Q) (x :: l).
Proof.
  unfold Qmax_list. revert x.
  induction l as [| y l IH]; intros x; cbn [fold_left].
  { split; [by left | constructor; [apply Qle_refl | constructor]]. }
  destruct (IH (if Qlt_bool x y then y else x)) as [Hin Hall].
  apply Forall_cons in Hall as [Hm Hall].
  destruct (Qlt_bool_spec x y) as [Hlt | Hge].
  - split.
    + right. exact Hin.
    + constructor; [| constructor; assumption].
      eapply Qle_trans; [by apply Qlt_le_weak | exact Hm].
  - apply Qnot_lt_le in Hge. split.
    + destruct Hin as [<- | Hin]; [by left | right; by right].
    + constructor; [assumption |].
      constructor; [eapply Qle_trans; eassumption | assumption].
Qed.

(** A sum of values between two bounds lies between the bounds times the
    number of values. *)
Lemma Qsum_bounds (lo hi : Q) (l : list Q) (a : Q) :
  Forall (fun y => (lo <= y)%Q /\ (y <= hi)%Q) l ->
  (a + inject_Z (Z.of_nat (length l)) * lo <= fold_left Qplus l a)%Q
  /\ (fold_left Qplus l a <= a + inject_Z (Z.of_nat (length l)) * hi)%Q.
Proof.
  revert a. induction l as [| y l IH]; intros a Hall.
  { cbn [fold_left length]. change (inject_Z (Z.of_nat 0)) with 0%Q. split; lra. }
  apply Forall_cons in Hall as [[Hlo Hhi] Hall].
  cbn [fold_left]. destruct (IH (a + y)%Q Hall) as [H1 H2].
  rewrite length_cons, Nat2Z.inj_succ. unfold Z.succ. rewrite inject_Z_plus.
  change (inject_Z 1) with 1%Q. split; lra.
Qed.

(** X16.  The statistics of a summary computed from a result sequence.
    The availability lies between 0 and 100, and for a run with at least
    one result it is 100 exactly when no result failed.  Without a
    successful result the average, fastest and slowest durations are all
    absent; with one they are all present, the fastest and the slowest
    are durations of successful results that bound every such duration,
    and the average lies between them. *)
Theorem X16_summary_statistics (results : list RequestResult) (total : Q) :
  let s := summarize results total in
  let ds := map duration (filter (fun item => ok item = true) results) in
  (0 <= availability s)%Q /\ (availability s <= 100)%Q
  /\ (results <> [] -> (availability s == 100)%Q <-> failure_count s = 0)
  /\ total_runtime s = total
  /\ match ds with
     | [] => avg_duration s = None /\ fastest s = None /\ slowest s = None
     | _ :: _ =>
       exists lo av hi,
         fastest s = Some lo /\ avg_duration s = Some av /\ slowest s = Some hi
         /\ In lo ds /\ In hi ds
         /\ Forall (fun d => (lo <= d)%Q /\ (d <= hi)%Q) ds
         /\ (lo <= av)%Q /\ (av <= hi)%Q
     end.
Proof.
  intros s ds. subst s. unfold summarize.
  cbn [availability failure_count avg_duration fastest slowest total_runtime].
  rewrite !(length_map duration). fold ds.
  pose proof (length_filter (fun item => ok item = true) results) as Hle.
  set (n := length results) in *.
  set (k := length (filter (fun item => ok item = true) results)) in *.
  assert (Hk : (0 <= inject_Z (Z.of_nat k))%Q).
  { rewrite <- (Zle_Qle 0). lia. }
  assert (Hkn : (inject_Z (Z.of_nat k) <= inject_Z (Z.of_nat n))%Q).
  { rewrite <- Zle_Qle. lia. }
  assert (Havail :
    (0 <= (if Z.of_nat n =? 0 then 0
           else inject_Z (Z.of_nat k) / inject_Z (Z.of_nat n) * 100))%Q
    /\ ((if Z.of_nat n =? 0 then 0
         else inject_Z (Z.of_nat k) / inject_Z (Z.of_nat n) * 100) <= 100)%Q
    /\ (results <> [] ->
        ((if Z.of_nat n =? 0 then 0
          else inject_Z (Z.of_nat k) / inject_Z (Z.of_nat n) * 100) == 100)%Q
        <-> Z.of_nat n - Z.of_nat k = 0)).
  { destruct (Z.eqb_spec (Z.of_nat n) 0) as [Hn | Hn].
    - split; [lra |]. split; [lra |]. intros Hne. destruct results; [done |].
      subst n. cbn [length] in Hn. lia.
    - assert (Hpos : (0 < inject_Z (Z.of_nat n))%Q).
      { rewrite <- (Zlt_Qlt 0). lia. }
      assert (H0 : (0 <= inject_Z (Z.of_nat k) / inject_Z (Z.of_nat n))%Q).
      { apply Qle_shift_div_l; [assumption | lra]. }
      assert (H1 : (inject_Z (Z.of_nat k) / inject_Z (Z.of_nat n) <= 1)%Q).
      { apply Qle_shift_div_r; [assumption | lra]. }
      split; [lra |]. split; [lra |]. intros _. split.
      + intros Heq.
        assert (Hone : (inject_Z (Z.of_nat k) / inject_Z (Z.of_nat n) == 1)%Q) by lra.
        assert (Hkq : (inject_Z (Z.of_nat k) == inject_Z (Z.of_nat n))%Q).
        { assert (Hnz : ~ (inject_Z (Z.of_nat n) == 0)%Q) by lra.
          pose proof (Qmult_div_r (inject_Z (Z.of_nat k)) _ Hnz) as Hm.
          rewrite Hone in Hm. lra. }
        unfold Qeq, inject_Z in Hkq. cbn [Qnum Qden] in Hkq. lia.
      + intros Hz. replace (Z.of_nat k) with (Z.of_nat n) by lia.
        unfold Qdiv. rewrite Qmult_inv_r by lra. lra. }
  destruct Havail as (Ha0 & Ha1 & Ha2).
  split; [exact Ha0 |]. split; [exact Ha1 |]. split; [exact Ha2 |].
  split; [reflexivity |].
  assert (Hlen : length ds = k) by (subst ds; apply length_map).
  destruct ds as [| d ds'] eqn:Hds; [repeat split |].
  destruct (Qmin_list_spec ds' d) as [Hmin_in Hmin].
  destruct (Qmax_list_spec ds' d) as [Hmax_in Hmax].
  eexists _, _, _. repeat split; try assumption.
  - apply Forall_forall. intros y Hy. split.
    + by apply (proj1 (Forall_forall _ _) Hmin).
    + by apply (proj1 (Forall_forall _ _) Hmax).
  - assert (Hall : Forall (fun y => (Qmin_list d ds' <= y)%Q /\ (y <= Qmax_list d ds')%Q)
                     (d :: ds')).
    { apply Forall_forall. intros y Hy. split.
      - by apply (proj1 (Forall_forall _ _) Hmin).
      - by apply (proj1 (Forall_forall _ _) Hmax). }
    destruct (Qsum_bounds _ _ _ 0%Q Hall) as [Hlo _].
    rewrite Hlen in Hlo.
    apply Qle_shift_div_l.
    + rewrite <- (Zlt_Qlt 0). cbn [length] in Hlen. lia.
    + unfold Qsum. lra.
  - assert (Hall : Forall (fun y => (Qmin_list d ds' <= y)%Q /\ (y <= Qmax_list d ds')%Q)
                     (d :: ds')).
    { apply Forall_forall. intros y Hy. split.
      - by apply (proj1 (Forall_forall _ _) Hmin).
      - by apply (proj1 (Forall_forall _ _) Hmax). }
    destruct (Qsum_bounds _ _ _ 0%Q Hall) as [_ Hhi].
    rewrite Hlen in Hhi.
    apply Qle_shift_div_r.
    + rewrite <- (Zlt_Qlt 0). cbn [length] in Hlen. lia.
    + unfold Qsum. lra.
Qed.

(** ** What a run writes *)






(** ** The target document *)

(** X19.  When the target document does not exist, the persistence step
    creates it: the placeholder title, an empty line and the new region,
    that is the placeholder text followed directly by the block.  No
    other file is touched. *)
Theorem X19_missing_document_is_created
    (path : str) (lines : list str) (w : world)
    (Hmissing : files w !! path = None) :
  files (update_readme_tail path lines w) !! path = Some (placeholder ++ block lines)
  /\ forall other, other <> path ->
       files (update_readme_tail path lines w) !! other = files w !! other.
Proof.
  unfold update_readme_tail. rewrite Hmissing. cbn [set_files files]. split.
  - rewrite lookup_insert_eq. unfold new_content.
    assert (H : rstrip (remove_blocks placeholder) ++ [LF; LF] = placeholder)
      by (vm_compute; reflexivity).
    rewrite <- H at 2. by rewrite <- app_assoc.
  - intros other Hne. by apply lookup_insert_ne.
Qed.

Lemma X19_witness :
  files (update_readme_tail DEFAULT_README [u_ "new"] healthy_world) !! DEFAULT_README
  = Some (placeholder ++ block [u_ "new"])
  /\ forall other, other <> DEFAULT_README ->
       files (update_readme_tail DEFAULT_README [u_ "new"] healthy_world) !! other
       = files healthy_world !! other.
Proof.
  apply X19_missing_document_is_created. vm_compute. reflexivity.
Defined.

(** X20.  Every region of the document is removed, not only the last
    one: in a document made of texts that have no start marker,
    separated by regions (start marker, text without end marker, end
    marker, line feed), what is left is the texts, joined. *)
Theorem X20_every_region_is_removed
    (regions : list (str * str)) (last : str)
    (Hregions : Forall (fun r => find README_RESULT_START (fst r) = None
                                 /\ find README_RESULT_END (snd r) = None) regions)
    (Hlast : find README_RESULT_START last = None) :
  remove_blocks (with_regions regions last) = concat (map fst regions) ++ last.
Proof.
  induction Hregions as [| [pre mid] regions [Hpre Hmid] _ IH]; cbn [with_regions].
  - by apply remove_blocks_no_start.
  - cbn [fst snd] in Hpre, Hmid.
    rewrite (remove_blocks_region pre mid _ Hpre Hmid).
    change ([LF] ++ with_regions regions last) with (LF :: with_regions regions last).
    rewrite after_block_LF, IH. cbn [map concat fst]. by rewrite <- ?app_assoc.
Qed.

Lemma X20_witness :
  remove_blocks (with_regions [(title_text, old_region_text); (footer_text, [])]
                   footer_text)
  = concat (map fst [(title_text, old_region_text); (footer_text, [])]) ++ footer_text.
Proof.
  apply X20_every_region_is_removed.
  - repeat (constructor; [split; vm_compute; reflexivity |]). constructor.
  - vm_compute. reflexivity.
Defined.

(** ** [safe_markdown_text] *)

Lemma safe_markdown_text_cons (c : N) (text : str) :
  safe_markdown_text (c :: text)
  = (if (c =? BAR)%N then [BACKSLASH; BAR]
     else if (c =? LF)%N then [SPACE] else [c])
    ++ safe_markdown_text text.
Proof.
  unfold safe_markdown_text, replace_char. cbn [map concat].
  rewrite map_app, concat_app. f_equal.
  change 124%N with BAR.
  destruct (N.eqb_spec c BAR) as [-> |]; [reflexivity |].
  cbn [map concat]. rewrite app_nil_r.
  destruct (N.eqb_spec c LF); reflexivity.
Qed.

(** X22.  [safe_markdown_text] makes a text fit for a table cell: the
    result has no line feed, it does not start with a bar, and every bar
    in it comes right after a backslash.  Each bar of the text costs one
    more character and nothing else changes the length; a text without
    bars and line feeds is returned as it is; and the function works
    character by character, so it commutes with concatenation. *)
Theorem X22_safe_markdown_text (text : str) :
  ~ In LF (safe_markdown_text text)
  /\ head (safe_markdown_text text) <> Some BAR
  /\ (forall i, safe_markdown_text text !! S i = Some BAR ->
                safe_markdown_text text !! i = Some BACKSLASH)
  /\ length (safe_markdown_text text)
     = (length text + length (filter (fun c => c = BAR) text))%nat
  /\ (~ In BAR text -> ~ In LF text -> safe_markdown_text text = text)
  /\ (forall more,
        safe_markdown_text (text ++ more)
        = safe_markdown_text text ++ safe_markdown_text more).
Proof.
  change (@filter N str) with (@filter N (list N)).
  induction text as [| c text (IH1 & IH2 & IH3 & IH4 & IH5 & IH6)].
  { repeat split; try done. intros H. exact H. }
  rewrite safe_markdown_text_cons, filter_cons.
  destruct (N.eqb_spec c BAR) as [-> | Hbar].
  - rewrite decide_True by done. repeat split.
    + cbn [app]. intros [H | [H | H]]; [discriminate | discriminate | by apply IH1].
    + discriminate.
    + intros [| [| i]]; cbn [app lookup list_lookup]; intros H.
      * reflexivity.
      * exfalso. apply IH2. by destruct (safe_markdown_text text); simplify_eq.
      * by apply IH3.
    + cbn [app length]. lia.
    + intros H. exfalso. apply H. by left.
    + intros more. rewrite <- app_comm_cons, safe_markdown_text_cons.
      rewrite N.eqb_refl, IH6. by rewrite <- app_assoc.
  - rewrite decide_False by done.
    assert (Hpiece : exists x, x <> BAR /\ x <> LF
              /\ (if (c =? LF)%N then [SPACE] else [c]) = [x]
              /\ (c <> LF -> x = c)).
    { destruct (N.eqb_spec c LF) as [-> | Hlf].
      - exists SPACE. repeat split; discriminate || done.
      - exists c. by repeat split. }
    destruct Hpiece as (x & Hx1 & Hx2 & Hx & Hxc). rewrite Hx. repeat split.
    + cbn [app]. intros [H | H]; [congruence | by apply IH1].
    + cbn [app head]. congruence.
    + intros [| i]; cbn [app lookup list_lookup]; intros H.
      * exfalso. apply IH2. by destruct (safe_markdown_text text); simplify_eq.
      * by apply IH3.
    + cbn [app length]. lia.
    + intros Hb Hl. cbn [app]. rewrite Hxc, IH5; [reflexivity | | |].
      * intros H. apply Hb. by right.
      * intros H. apply Hl. by right.
      * intros ->. apply Hl. by left.
    + intros more. rewrite <- app_comm_cons, safe_markdown_text_cons.
      destruct (N.eqb_spec c BAR); [done |]. rewrite Hx, IH6. by rewrite <- app_assoc.
Qed.

(** *** A start marker without an end marker *)

Lemma find_none_drop p s i : p <> [] -> find p s = None -> find p (drop i s) = None.
Proof.
  intros Hp. revert i. induction s as [| c s IH]; intros i Hs.
  - by rewrite drop_nil.
  - destruct i as [| i]; [exact Hs |].
    apply find_none_cons in Hs as [_ Hs]. cbn [drop]. by apply IH.
Qed.

(** Where no end marker follows, no match begins. *)
Lemma match_len_no_end s :
  find README_RESULT_END (drop (length README_RESULT_START) s) = None ->
  match_len s = None.
Proof.
  intros H. unfold match_len. rewrite H. by destruct (startswith s README_RESULT_START).
Qed.

Lemma sub_blocks_no_end s :
  find README_RESULT_END s = None -> sub_blocks O s = s.
Proof.
  induction s as [| c s IH]; intros Hs; [reflexivity |].
  rewrite sub_blocks_here, match_len_no_end.
  - f_equal. apply IH. by apply find_none_cons in Hs as [_ Hs].
  - apply find_none_drop; [apply END_not_nil | assumption].
Qed.

Lemma sub_blocks_unterminated rest :
  find README_RESULT_END rest = None ->
  sub_blocks O (README_RESULT_START ++ rest) = README_RESULT_START ++ rest.
Proof.
  intros Hrest.
  assert (H : forall x,
            (forall i, (i <= length x)%nat ->
               match_len (drop i (x ++ rest)) = None) ->
            sub_blocks O (x ++ rest) = x ++ rest).
  { induction x as [| c x IH]; intros Hx.
    - by apply sub_blocks_no_end.
    - pose proof (Hx O ltac:(lia)) as H0.
      rewrite <- app_comm_cons in H0 |- *. cbn [drop] in H0.
      rewrite sub_blocks_here, H0.
      f_equal. apply IH.
      intros i Hi. apply (Hx (S i)). cbn [length]. lia. }
  apply H. intros i Hi. apply match_len_no_end.
  rewrite drop_drop.
  replace (i + length README_RESULT_START)%nat
    with (length README_RESULT_START + i)%nat by lia.
  rewrite <- drop_drop, drop_app_length.
  apply find_none_drop; [apply END_not_nil | assumption].
Qed.

Lemma remove_blocks_unterminated pre rest :
  find README_RESULT_START pre = None ->
  find README_RESULT_END rest = None ->
  remove_blocks (pre ++ README_RESULT_START ++ rest)
  = pre ++ README_RESULT_START ++ rest.
Proof.
  intros Hpre Hrest. unfold remove_blocks.
  rewrite sub_blocks_keep by (intros i Hi; by apply START_not_inside).
  by rewrite sub_blocks_unterminated.
Qed.

Lemma lstrip_app_nonspace u c v :
  py_isspace c = false -> lstrip (u ++ c :: v) = lstrip u ++ c :: v.
Proof.
  intros Hc. induction u as [| d u IH]; cbn [app lstrip].
  - by rewrite Hc.
  - destruct (py_isspace d); [exact IH | reflexivity].
Qed.

Lemma rstrip_after_marker x r :
  rstrip (x ++ README_RESULT_START ++ r) = x ++ README_RESULT_START ++ rstrip r.
Proof.
  unfold rstrip. rewrite !rev_app_distr, <- app_assoc.
  assert (Hrev : exists c v, rev README_RESULT_START = c :: v /\ py_isspace c = false).
  { eexists _, _. split; vm_compute; reflexivity. }
  destruct Hrev as (c & v & Hrev & Hc).
  rewrite Hrev, <- app_comm_cons, (lstrip_app_nonspace _ _ _ Hc).
  rewrite app_comm_cons, <- Hrev, !rev_app_distr, !rev_involutive.
  by rewrite <- app_assoc.
Qed.

Lemma find_END_in_START : find README_RESULT_END README_RESULT_START = None.
Proof. vm_compute. reflexivity. Qed.

(** X21.  A start marker that no end marker follows costs the text
    after it.  The run that finds it leaves it and the text after it in
    place, since the pattern needs an end marker, and appends its
    region.  But the next run takes the stray marker for the start of
    that region: it removes everything from the stray marker to the end
    of the document, so the text that followed the marker is gone and
    the document is the text before the marker and the new region. *)
Theorem X21_stray_start_marker
    (pre rest : str) (lines1 lines2 : list str)
    (Hpre : find README_RESULT_START pre = None)
    (Hrest : find README_RESULT_END rest = None)
    (Hbody : find README_RESULT_END (strip (join [LF] lines1)) = None) :
  new_content (pre ++ README_RESULT_START ++ rest) lines1
  = pre ++ README_RESULT_START ++ rstrip rest ++ [LF; LF] ++ block lines1
  /\ new_content (new_content (pre ++ README_RESULT_START ++ rest) lines1) lines2
     = rstrip pre ++ [LF; LF] ++ block lines2.
Proof.
  assert (Hfirst : new_content (pre ++ README_RESULT_START ++ rest) lines1
                   = pre ++ README_RESULT_START ++ rstrip rest ++ [LF; LF]
                     ++ block lines1).
  { unfold new_content.
    rewrite (remove_blocks_unterminated _ _ Hpre Hrest), rstrip_after_marker.
    by rewrite <- !app_assoc. }
  split; [exact Hfirst |]. rewrite Hfirst. unfold new_content, block at 1.
  set (body := strip (join [LF] lines1)) in *.
  replace (pre ++ README_RESULT_START ++ rstrip rest ++ [LF; LF]
           ++ README_RESULT_START ++ [LF] ++ body ++ [LF] ++ README_RESULT_END ++ [LF])
    with (pre ++ README_RESULT_START
          ++ (rstrip rest ++ LF :: ([] ++ LF :: (README_RESULT_START
                                                 ++ LF :: (body ++ LF :: []))))
          ++ README_RESULT_END ++ [LF] ++ [])
    by (repeat (progress cbn [app] || rewrite <- app_assoc); reflexivity).
  rewrite remove_blocks_one_region; [by rewrite app_nil_r | exact Hpre | | reflexivity].
  pose proof END_not_nil as Hne. pose proof END_no_LF as Hlf.
  apply find_none_sep; [done | done | |].
  - destruct (rstrip_prefix rest) as [ws Hws]. rewrite Hws in Hrest.
    by apply find_none_prefix in Hrest.
  - apply find_none_sep; [done | done | reflexivity |].
    apply find_none_sep; [done | done | apply find_END_in_START |].
    apply find_none_sep; [done | done | exact Hbody | reflexivity].
Qed.

Lemma X21_witness :
  new_content (title_text ++ README_RESULT_START ++ note_text) [u_ "first"]
  = title_text ++ README_RESULT_START ++ rstrip note_text ++ [LF; LF]
    ++ block [u_ "first"]
  /\ new_content (new_content (title_text ++ README_RESULT_START ++ note_text)
                    [u_ "first"]) [u_ "second"]
     = rstrip title_text ++ [LF; LF] ++ block [u_ "second"].
Proof.
  apply X21_stray_start_marker; vm_compute; reflexivity.
Defined.

(** ** The report and the summary made from it *)

Lemma index_of_first (x : str) (pre post : list str) :
  Forall (fun l => l <> x) pre ->
  index_of x (pre ++ x :: post) = Some (length pre).
Proof.
  induction 1 as [| l pre Hl _ IH]; cbn [app index_of length].
  - by rewrite str_eqb_refl.
  - destruct (str_eqb x l) eqn:E; [apply str_eqb_eq in E; congruence |].
    by rewrite IH.
Qed.

Lemma drop_prefix {A} (l k : list A) (n : nat) :
  n = length l -> drop n (l ++ k) = k.
Proof. intros ->. apply drop_app_length. Qed.

Lemma drop_head_lines {A} (t e0 e1 h : A) (B E rest : list A) (n : nat) :
  n = (4 + length B + length E)%nat ->
  drop n (t :: e0 :: B ++ E ++ e1 :: h :: rest) = rest.
Proof.
  intros ->.
  replace (t :: e0 :: B ++ E ++ e1 :: h :: rest)
    with ((t :: e0 :: B ++ E ++ [e1; h]) ++ rest)
    by (cbn [app]; do 2 f_equal; by rewrite <- !app_assoc).
  apply drop_prefix. cbn [length]. rewrite !length_app. cbn [length]. lia.
Qed.

Lemma detail_header_head : head detail_header = Some 35%N.
Proof. vm_compute. reflexivity. Qed.

Lemma dash_not_header (l : str) : starts_with_dash l -> l <> detail_header.
Proof.
  unfold starts_with_dash. intros H ->. rewrite detail_header_head in H. discriminate.
Qed.

Lemma title_not_header : report_title <> detail_header.
Proof.
  intros H. apply (f_equal (take 3)) in H. vm_compute in H. discriminate.
Qed.

Lemma nil_not_header : [] <> detail_header.
Proof.
  intros H. apply (f_equal length) in H. vm_compute in H. discriminate.
Qed.

(** The summary of a report whose lines before the heading of the table
    are the title and lines that are not the heading. *)
Lemma summary_lines_of_report (a : report_args) (e0 e1 : str) (B E rest : list str) :
  Forall starts_with_dash B -> Forall starts_with_dash E ->
  e0 <> detail_header -> e1 <> detail_header ->
  index_of detail_header
    (report_title :: e0 :: B ++ E ++ e1 :: detail_header :: rest)
  = Some (3 + length B + length E)%nat
  /\ summary_lines a (report_title :: e0 :: B ++ E ++ e1 :: detail_header :: rest)
     = [u_ "## OpenAI Availability Summary"; []] ++ B ++ E ++ [e1]
       ++ failed_request_details a.
Proof.
  intros HB HE H0 H1.
  assert (Hshape : report_title :: e0 :: B ++ E ++ e1 :: detail_header :: rest
                   = (report_title :: e0 :: (B ++ E ++ [e1]))
                     ++ detail_header :: rest).
  { cbn [app]. do 2 f_equal. by rewrite <- !app_assoc. }
  assert (Hindex : index_of detail_header
                     (report_title :: e0 :: B ++ E ++ e1 :: detail_header :: rest)
                   = Some (S (S (length (B ++ E ++ [e1]))))).
  { rewrite Hshape, index_of_first; [reflexivity |].
    constructor; [apply title_not_header |].
    constructor; [exact H0 |].
    rewrite !Forall_app. repeat split.
    - eapply Forall_impl; [exact HB | apply dash_not_header].
    - eapply Forall_impl; [exact HE | apply dash_not_header].
    - constructor; [exact H1 | constructor]. }
  split.
  - rewrite Hindex. f_equal. rewrite !length_app. cbn [length]. lia.
  - unfold summary_lines, failed_request_details. rewrite Hindex, Hshape.
    cbn [drop app Nat.sub]. rewrite Nat.sub_0_r, drop_0.
    rewrite take_app_length. by rewrite <- !app_assoc.
Qed.

Lemma report_bullets_dash fmt2 fmt3 str_of_float utc_now beijing_now a :
  Forall starts_with_dash
    (report_bullets fmt2 fmt3 str_of_float utc_now beijing_now a).
Proof.
  unfold report_bullets, starts_with_dash.
  repeat (constructor; [vm_compute; reflexivity |]). constructor.
Qed.

Lemma error_bullet_dash a : Forall starts_with_dash (error_bullet a).
Proof.
  unfold error_bullet, starts_with_dash.
  destruct (r_error_message a); constructor; [| constructor].
  vm_compute. reflexivity.
Qed.

(** X23.  The summary is the bullet list of the report.  In the lines
    [build_report_lines] returns, the first line equal to the heading of
    the detail table is the heading itself, whatever the settings, time
    stamps and messages contain: the title, the empty lines and the
    bullets before it cannot be equal to it.  So the summary [main] sends
    to the sink is its own title, an empty line, the twenty bullets of
    the report, the error bullet when there is a message, an empty line
    and, when a request failed, the failure details; no line of the
    table is in it, and the branch of [main] for a report without the
    heading is never taken. *)
Theorem X23_summary_is_the_bullet_list
    (fmt2 fmt3 str_of_float : Q -> str) (utc_now beijing_now : str)
    (a : report_args) :
  let lines := build_report_lines fmt2 fmt3 str_of_float utc_now beijing_now a in
  let bullets := report_bullets fmt2 fmt3 str_of_float utc_now beijing_now a in
  length bullets = 20%nat
  /\ index_of detail_header lines = Some (23 + length (error_bullet a))%nat
  /\ drop (24 + length (error_bullet a)) lines
     = drop 2 table_head ++ table_rows fmt3 a
  /\ summary_lines a lines
     = [u_ "## OpenAI Availability Summary"; []] ++ bullets ++ error_bullet a
       ++ [[]] ++ failed_request_details a.
Proof.
  intros lines bullets.
  pose proof (report_bullets_dash fmt2 fmt3 str_of_float utc_now beijing_now a) as HB.
  pose proof (error_bullet_dash a) as HE.
  assert (Hlen : length bullets = 20%nat) by reflexivity.
  subst lines. unfold build_report_lines, table_head. fold bullets in HB |- *.
  clearbody bullets. cbn [app].
  match goal with
  | |- context [[] :: detail_header :: ?rest] =>
    destruct (summary_lines_of_report a [] [] bullets (error_bullet a) rest HB HE
                nil_not_header nil_not_header) as [Hindex Hsummary]
  end.
  split; [exact Hlen |]. split; [| split].
  - rewrite Hindex, Hlen. reflexivity.
  - cbn [drop app]. apply drop_head_lines. rewrite Hlen. lia.
  - exact Hsummary.
Qed.

(** *** Lines without line feeds *)

Lemma no_LF_app (a b : str) : ~ In LF a -> ~ In LF b -> ~ In LF (a ++ b).
Proof. intros Ha Hb H. apply in_app_or in H as [H | H]; contradiction. Qed.

Lemma no_LF_closed (s : str) :
  forallb (fun c => negb (c =? LF)%N) s = true -> ~ In LF s.
Proof.
  intros H Hin. apply Forall_neq_of_forallb in H.
  rewrite Forall_forall in H. by apply (H LF); [apply list_elem_of_In |].
Qed.

Lemma digits_no_LF fuel : forall n acc,
  ~ In LF acc -> ~ In LF (digits_of_pos_fuel fuel n acc).
Proof.
  induction fuel as [| fuel IH]; intros n acc Hacc; cbn [digits_of_pos_fuel];
    [assumption |].
  assert (Hd : ~ In LF (str_of_digit (n mod 10) :: acc)).
  { intros [H | H]; [| contradiction].
    unfold str_of_digit, LF in H. pose proof (N.le_0_l (n mod 10)). lia. }
  destruct (n / 10 =? 0)%N; [assumption | by apply IH].
Qed.

Lemma str_of_int_no_LF (z : Z) : ~ In LF (str_of_int z).
Proof.
  unfold str_of_int, str_of_N.
  destruct (z <? 0).
  - intros [H | H]; [discriminate |]. revert H. apply digits_no_LF. intros [].
  - apply digits_no_LF. intros [].
Qed.

Lemma safe_markdown_text_no_LF (text : str) : ~ In LF (safe_markdown_text text).
Proof.
  induction text as [| c text IH]; [intros [] |].
  rewrite safe_markdown_text_cons. apply no_LF_app; [| exact IH].
  destruct (N.eqb_spec c BAR); [intros [H | [H | []]]; discriminate |].
  destruct (N.eqb_spec c LF); intros [H | []]; [discriminate | congruence].
Qed.

Ltac no_LF :=
  repeat first
    [ apply str_of_int_no_LF
    | apply safe_markdown_text_no_LF
    | apply no_LF_app
    | apply no_LF_closed; vm_compute; reflexivity ].

(** X24.  What the report and the summary make of the messages stays on
    one line each.  Whatever the error message of the run and the
    messages of the results contain (line feeds, bars), the error
    bullet, the lines of the table head, every row of the table and
    every line of the failure details are free of line feeds, provided
    the formatting of a duration gives none.  The table has one row per
    result, or the single placeholder row when there is no result. *)
Theorem X24_messages_stay_on_one_line
    (fmt3 : Q -> str) (a : report_args)
    (Hfmt : forall q, ~ In LF (fmt3 q)) :
  Forall (fun line => ~ In LF line)
    (error_bullet a ++ table_head ++ table_rows fmt3 a)
  /\ Forall (fun line => ~ In LF line) (failed_request_details a)
  /\ length (table_rows fmt3 a) = Nat.max 1 (length (r_results a)).
Proof.
  assert (Hrow : forall item, ~ In LF (result_row fmt3 item)).
  { intros item. unfold result_row. cbv zeta.
    destruct (ok item), (error item); no_LF; apply Hfmt. }
  split; [| split].
  - rewrite !Forall_app. repeat split.
    + unfold error_bullet. destruct (r_error_message a); constructor;
        [no_LF | constructor].
    + unfold table_head. repeat (constructor; [no_LF; by intros [] |]). constructor.
    + unfold table_rows. destruct (r_results a) as [| r rs].
      * constructor; [no_LF | constructor].
      * apply Forall_forall. intros line Hin.
        apply list_elem_of_In, in_map_iff in Hin as (item & <- & _). apply Hrow.
  - unfold failed_request_details.
    destruct (0 <? failure_count (r_summary a)); [| constructor].
    cbn [app]. constructor; [intros [] |]. constructor; [no_LF |].
    apply Forall_forall. intros line Hin.
    apply list_elem_of_In, in_map_iff in Hin as (item & <- & _). no_LF.
  - unfold table_rows. destruct (r_results a) as [| r rs]; [reflexivity |].
    rewrite length_map. cbn [length]. lia.
Qed.

Lemma X24_witness :
  Forall (fun line => ~ In LF line)
    (error_bullet mixed_args ++ table_head
     ++ table_rows (fun _ => u_ "1.000") mixed_args)
  /\ Forall (fun line => ~ In LF line) (failed_request_details mixed_args)
  /\ length (table_rows (fun _ => u_ "1.000") mixed_args)
     = Nat.max 1 (length (r_results mixed_args)).
Proof.
  apply X24_messages_stay_on_one_line.
  intros q. apply no_LF_closed. vm_compute. reflexivity.
Defined.

(** ** Numeric settings set to the empty string *)

Lemma settings_disjoint :
  forallb (fun s => forallb (fun n => negb (str_eqb s n)) NUMERIC_SETTINGS)
    STRING_SETTINGS = true.
Proof. vm_compute. reflexivity. Qed.

Lemma string_setting_not_numeric (s n : str) :
  In s STRING_SETTINGS -> In n NUMERIC_SETTINGS -> s <> n.
Proof.
  intros Hs Hn ->.
  pose proof (proj1 (forallb_forall _ _) settings_disjoint n Hs) as H.
  pose proof (proj1 (forallb_forall _ _) H n Hn) as H'.
  cbv beta in H'. by rewrite str_eqb_refl in H'.
Qed.

Lemma in_string_0 : In (u_ "OPENAI_API_URL") STRING_SETTINGS.
Proof. left. reflexivity. Qed.
Lemma in_string_1 : In (u_ "OPENAI_API_KEY") STRING_SETTINGS.
Proof. right. left. reflexivity. Qed.
Lemma in_string_2 : In (u_ "OPENAI_MODEL") STRING_SETTINGS.
Proof. right. right. left. reflexivity. Qed.
Lemma in_string_3 : In (u_ "OPENAI_PROMPT") STRING_SETTINGS.
Proof. right. right. right. left. reflexivity. Qed.

(** X25.  For the six numeric settings the empty string is the same as
    no setting at all: setting one of them to the empty string in an
    environment where it was not set changes nothing in what the
    resolver returns, accepted configuration or exception.  (A string
    setting set to the empty string is kept as it is.) *)
Theorem X25_empty_numeric_setting_is_unset
    (py_int : str -> option Z) (py_float : str -> option Q)
    (w1 w2 : world) (name : str) (c : config)
    (Hname : In name NUMERIC_SETTINGS)
    (Hunset : getenv w2 name = None)
    (Hempty : environ w1 = <[name := []]> (environ w2)) :
  resolve_config py_int py_float w1 c = resolve_config py_int py_float w2 c.
Proof.
  assert (Hstr : forall n d r, In n STRING_SETTINGS ->
                   env_str w1 n d r = env_str w2 n d r).
  { intros n d r Hn. unfold env_str, getenv. rewrite Hempty, lookup_insert_ne;
      [reflexivity |].
    intros ->. by apply (string_setting_not_numeric n n). }
  assert (Hlookup : forall n,
            match getenv w1 n with Some [] => None | v => v end
            = match getenv w2 n with Some [] => None | v => v end).
  { intros n. unfold getenv in *. rewrite Hempty.
    destruct (decide (name = n)) as [<- | Hne].
    - rewrite lookup_insert_eq, Hunset. reflexivity.
    - by rewrite lookup_insert_ne. }
  assert (Hint : forall n d, env_int py_int w1 n d = env_int py_int w2 n d).
  { intros n d. unfold env_int. pose proof (Hlookup n) as H.
    destruct (getenv w1 n) as [[| a v] |], (getenv w2 n) as [[| a' v'] |];
      simplify_eq; reflexivity. }
  assert (Hfloat : forall n d, env_float py_float w1 n d = env_float py_float w2 n d).
  { intros n d. unfold env_float. pose proof (Hlookup n) as H.
    destruct (getenv w1 n) as [[| a v] |], (getenv w2 n) as [[| a' v'] |];
      simplify_eq; reflexivity. }
  unfold resolve_config.
  rewrite (Hstr _ _ _ in_string_0), (Hstr _ _ _ in_string_1),
    (Hstr _ _ _ in_string_2), (Hstr _ _ _ in_string_3).
  by rewrite !Hint, !Hfloat.
Qed.

Lemma X25_witness :
  resolve_config (fun _ => None) (fun _ => None) empty_tokens_world initial_config
  = resolve_config (fun _ => None) (fun _ => None) healthy_world initial_config.
Proof.
  apply (X25_empty_numeric_setting_is_unset _ _ _ _ (u_ "OPENAI_MAX_TOKENS")).
  - do 3 right. left. reflexivity.
  - vm_compute. reflexivity.
  - reflexivity.
Defined.
